(** * mat32: the single-precision vector engine ([vector.go])

    A shallow embedding of [VecDense] and its operations, over an explicit
    store of backing arrays and vector headers, with float32 arithmetic taken
    from the IEEE 754 specification of the Standard Library ([SpecFloat],
    precision 24, maximal exponent 128).  Go's [int] is [Z]: lengths, strides
    and indices stay within the sizes of the backing arrays, far from the
    bounds of a machine word. *)

From Stdlib Require Import ZArith Lia Bool List.
From Stdlib Require Import Floats.SpecFloat.
From stdpp Require Import base list.

Local Open Scope Z_scope.

(** ** float32 *)

Module F32.

Definition prec : Z := 24.
Definition emax : Z := 128.

Definition add : spec_float -> spec_float -> spec_float := SFadd prec emax.
Definition sub : spec_float -> spec_float -> spec_float := SFsub prec emax.
Definition mul : spec_float -> spec_float -> spec_float := SFmul prec emax.
Definition div : spec_float -> spec_float -> spec_float := SFdiv prec emax.

(** Go's [==] on floats: false on NaN, true on zeros of either sign. *)
Definition eqb : spec_float -> spec_float -> bool := SFeqb.

Definition zero : spec_float := S754_zero false.
Definition neg_zero : spec_float := S754_zero true.
Definition one : spec_float := S754_finite false 8388608 (-23).
Definition neg_one : spec_float := S754_finite true 8388608 (-23).
Definition inf : spec_float := S754_infinity false.
Definition nan : spec_float := S754_nan.

(** [of_Z k] is the float32 of a small integer constant. *)
Definition of_Z (k : Z) : spec_float := binary_normalize prec emax k 0 false.

(** A value is a float32 when its mantissa and exponent are in range. *)
Definition valid (x : spec_float) : Prop := valid_binary prec emax x = true.

Definition is_finite (x : spec_float) : bool :=
  match x with
  | S754_zero _ | S754_finite _ _ _ => true
  | _ => false
  end.

Definition is_zero (x : spec_float) : bool :=
  match x with
  | S754_zero _ => true
  | _ => false
  end.

(** What adding [+0] does to a value: only [-0] changes, to [+0]. *)
Definition plus_zero (x : spec_float) : spec_float :=
  match x with
  | S754_zero _ => zero
  | _ => x
  end.

End F32.

Abbreviation f32 := spec_float.

(** ** The store

    Go slices share backing arrays and [*VecDense] values are shared by
    pointer, so both live in an explicit store.  A slice header is a window
    [off, off+len) of a backing array, extensible up to [cap]. *)

Record Slice := mkSlice { base : nat; off : Z; len : Z; cap : Z }.

(** The nil slice (the zero value of a slice header). *)
Definition nilSlice : Slice := mkSlice 0 0 0 0.

(** [blas32.Vector] *)
Record blasVector := mkBlasVector { Inc : Z; Data : Slice }.

(** [blas32.General]: the raw form of a dense matrix. *)
Record blasGeneral := mkBlasGeneral
  { Rows : Z; Cols : Z; Stride : Z; gen_Data : Slice }.

(** [blas32.Triangular]: the raw form of a triangular matrix. *)
Record blasTriangular := mkBlasTriangular
  { tri_N : Z; tri_Stride : Z; tri_Data : Slice; tri_Upper : bool; tri_Unit : bool }.

(** [VecDense]: field [n] of the source is [vn] here. *)
Record VecDense := mkVecDense { mat : blasVector; vn : Z }.

(** The zero value [VecDense{}]. *)
Definition zeroVecDense : VecDense := mkVecDense (mkBlasVector 0 nilSlice) 0.

Record State := mkState { arrays : list (list f32); vecs : list VecDense }.

Definition emptyState : State := mkState [] [].

(** A [*VecDense]. *)
Abbreviation ptr := nat.

(** ** Panics *)

Inductive PanicKind :=
| ErrShape
| ErrZeroLength
| ErrIndexOutOfRange
| ErrNegativeDimension      (* panic("mat: negative dimension") *)
| ErrRowAccess
| ErrColAccess
| ErrOverlap                (* the aliasing violations raised by checkOverlap *)
| ErrRuntime.               (* a Go run-time panic: index or slice bounds, nil pointer *)

(** A call either returns or panics; in both cases the store it leaves
    behind is kept, so that writes made before a panic stay visible. *)
Inductive Res (A : Type) :=
| Ok (a : A) (s : State)
| Panic (e : PanicKind) (s : State).
Arguments Ok {A} a s.
Arguments Panic {A} e s.

Definition M (A : Type) : Type := State -> Res A.

Definition ret {A} (a : A) : M A := fun s => Ok a s.
Definition panic {A} (e : PanicKind) : M A := fun s => Panic e s.
Definition bind {A B} (c : M A) (k : A -> M B) : M B :=
  fun s => match c s with
           | Ok a s' => k a s'
           | Panic e s' => Panic e s'
           end.

Notation "'let*' x := c 'in' k" := (bind c (fun x => k))
  (at level 10, x name, c at level 200, k at level 200).
Notation "'let*' ' pat := c 'in' k" := (bind c (fun x => match x with pat => k end))
  (at level 10, pat pattern, c at level 200, k at level 200).
Notation "c ;; k" := (bind c (fun _ => k))
  (at level 100, k at level 200, right associativity).

Definition res_state {A} (r : Res A) : State :=
  match r with Ok _ s => s | Panic _ s => s end.

(** [defer d body]: [d] runs when [body] leaves, also when it panics. *)
Definition defer {A} (d : M unit) (body : M A) : M A :=
  fun s => match body s with
           | Ok a s1 => match d s1 with
                        | Ok _ s2 => Ok a s2
                        | Panic e s2 => Panic e s2
                        end
           | Panic e s1 => match d s1 with
                           | Ok _ s2 => Panic e s2
                           | Panic e' s2 => Panic e' s2
                           end
           end.

(** [for i := i0; i < i0+k; i++ { acc = body i acc }] *)
Fixpoint loop {A} (k : nat) (i : Z) (acc : A) (body : Z -> A -> M A) : M A :=
  match k with
  | O => ret acc
  | S k' => let* acc' := body i acc in loop k' (i + 1) acc' body
  end.

Definition for_range (n : Z) (body : Z -> M unit) : M unit :=
  loop (Z.to_nat n) 0 tt (fun i _ => body i).

(** *** Slices *)

Definition in_range (d : Slice) (i : Z) : bool := (0 <=? i) && (i <? len d).

(** [d[i]] *)
Definition index (d : Slice) (i : Z) : M f32 := fun s =>
  if in_range d i then
    match arrays s !! base d with
    | Some arr => match arr !! Z.to_nat (off d + i) with
                  | Some x => Ok x s
                  | None => Panic ErrRuntime s
                  end
    | None => Panic ErrRuntime s
    end
  else Panic ErrRuntime s.

(** [d[i] = x] *)
Definition store (d : Slice) (i : Z) (x : f32) : M unit := fun s =>
  if in_range d i then
    match arrays s !! base d with
    | Some arr =>
        if (Z.to_nat (off d + i) <? length arr)%nat then
          Ok tt (mkState (<[base d := <[Z.to_nat (off d + i) := x]> arr]> (arrays s)) (vecs s))
        else Panic ErrRuntime s
    | None => Panic ErrRuntime s
    end
  else Panic ErrRuntime s.

(** [d[lo:hi]] *)
Definition reslice (d : Slice) (lo hi : Z) : M Slice :=
  if (0 <=? lo) && (lo <=? hi) && (hi <=? cap d) then
    ret (mkSlice (base d) (off d + lo) (hi - lo) (cap d - lo))
  else panic ErrRuntime.

(** [make([]float32, n)] *)
Definition make (n : Z) : M Slice := fun s =>
  if n <? 0 then Panic ErrRuntime s
  else Ok (mkSlice (length (arrays s)) 0 n n)
          (mkState (arrays s ++ [replicate (Z.to_nat n) F32.zero]) (vecs s)).

(** *** Vector headers *)

Definition getVec (p : ptr) : M VecDense := fun s =>
  match vecs s !! p with
  | Some r => Ok r s
  | None => Panic ErrRuntime s
  end.

Definition putVec (p : ptr) (r : VecDense) : M unit := fun s =>
  match vecs s !! p with
  | Some _ => Ok tt (mkState (arrays s) (<[p := r]> (vecs s)))
  | None => Panic ErrRuntime s
  end.

(** [&VecDense{...}] *)
Definition newVec (r : VecDense) : M ptr := fun s =>
  Ok (length (vecs s)) (mkState (arrays s) (vecs s ++ [r])).

(** ** Vectors and matrices as the engine sees them *)

(** The implementations of the [Vector] interface: a [*VecDense], a
    [TransposeVec] around another vector, or any other implementation, which
    offers neither [RawVector] nor [Untranspose] and is read through [AtVec]
    only (a column of its own values). *)
Inductive Vector :=
| VecPtr (p : ptr)
| TransposeVec (x : Vector)
| OtherVec (vals : list f32).

(** The implementations of the [Matrix] interface met by [MulVec]: a vector,
    a [Transpose] around another matrix, a matrix with a triangular or a
    general raw form, or any other implementation, read through [At] only. *)
Inductive Matrix :=
| MatVec (a : Vector)
| Transpose (m : Matrix)
| TriMat (t : blasTriangular)
| GenMat (g : blasGeneral)
| OtherMat (r c : Z) (at_ : Z -> Z -> f32).

(** [v == a] for a [*VecDense] [v] and an interface value [a]. *)
Definition is_ptr (v : ptr) (a : Vector) : bool :=
  match a with
  | VecPtr p => Nat.eqb v p
  | _ => false
  end.

Definition is_ptrM (v : ptr) (a : Matrix) : bool :=
  match a with
  | MatVec x => is_ptr v x
  | _ => false
  end.

(** [a.(RawVectorer)] *)
Definition rawVectorer (a : Vector) : option ptr :=
  match a with
  | VecPtr p => Some p
  | _ => None
  end.

(** Modelled from the spec: [untranspose] is not in the sources at hand; it
    unwraps one transpose wrapper and tells whether it did. *)
Definition untranspose (a : Vector) : Vector * bool :=
  match a with
  | TransposeVec x => (x, true)
  | _ => (a, false)
  end.

Definition untransposeM (a : Matrix) : Matrix * bool :=
  match a with
  | Transpose m => (m, true)
  | MatVec (TransposeVec x) => (MatVec x, true)
  | _ => (a, false)
  end.

(** *** [VecDense] accessors *)

Definition IsZero (v : ptr) : M bool :=
  let* r := getVec v in ret (Inc (mat r) =? 0).

Definition RawVector (v : ptr) : M blasVector :=
  let* r := getVec v in ret (mat r).

(** Go's integer division truncates towards zero. *)
Definition Cap (v : ptr) : M Z :=
  let* z := IsZero v in
  if z then ret 0
  else let* r := getVec v in
       ret (Z.quot (cap (Data (mat r)) - 1) (Inc (mat r)) + 1).

(** Modelled from the spec: the unchecked element accessors [at] and [setVec]
    are not in the sources at hand; logical element [i] lives [i] strides
    into the data. *)
Definition at_ (v : ptr) (i : Z) : M f32 :=
  let* r := getVec v in index (Data (mat r)) (i * Inc (mat r)).

Definition setVec (v : ptr) (i : Z) (x : f32) : M unit :=
  let* r := getVec v in store (Data (mat r)) (i * Inc (mat r)) x.

(** Modelled from the spec: the checked accessors of [*VecDense] are not in
    the sources at hand; they reject an index outside [0, n). *)
Definition VecDense_AtVec (v : ptr) (i : Z) : M f32 :=
  let* r := getVec v in
  if (i <? 0) || (vn r <=? i) then panic ErrRowAccess else at_ v i.

Definition VecDense_At (v : ptr) (i j : Z) : M f32 :=
  let* r := getVec v in
  if (i <? 0) || (vn r <=? i) then panic ErrRowAccess
  else if negb (j =? 0) then panic ErrColAccess
  else at_ v i.

Definition VecDense_Dims (v : ptr) : M (Z * Z) :=
  let* z := IsZero v in
  if z then ret (0, 0)
  else let* r := getVec v in ret (vn r, 1).

Definition VecDense_Caps (v : ptr) : M (Z * Z) :=
  let* z := IsZero v in
  if z then ret (0, 0)
  else let* c := Cap v in ret (c, 1).

Definition VecDense_Len (v : ptr) : M Z :=
  let* r := getVec v in ret (vn r).

(** *** The [Vector] and [Matrix] interfaces *)

Definition OtherVec_AtVec (vals : list f32) (i : Z) : M f32 :=
  if i <? 0 then panic ErrRowAccess
  else match vals !! Z.to_nat i with
       | Some x => ret x
       | None => panic ErrRowAccess
       end.

Fixpoint AtVec (a : Vector) (i : Z) : M f32 :=
  match a with
  | VecPtr p => VecDense_AtVec p i
  | TransposeVec x => AtVec x i
  | OtherVec vals => OtherVec_AtVec vals i
  end.

Fixpoint Len (a : Vector) : M Z :=
  match a with
  | VecPtr p => VecDense_Len p
  | TransposeVec x => Len x
  | OtherVec vals => ret (Z.of_nat (length vals))
  end.

Fixpoint Dims (a : Vector) : M (Z * Z) :=
  match a with
  | VecPtr p => VecDense_Dims p
  | TransposeVec x => let* '(c, r) := Dims x in ret (r, c)
  | OtherVec vals => ret (Z.of_nat (length vals), 1)
  end.

Fixpoint At (a : Vector) (i j : Z) : M f32 :=
  match a with
  | VecPtr p => VecDense_At p i j
  | TransposeVec x => At x j i
  | OtherVec vals =>
      if negb (j =? 0) then panic ErrColAccess else OtherVec_AtVec vals i
  end.

(** Modelled from the spec: [Transpose], [Dense] and [TriDense] are not in
    the sources at hand.  A transpose swaps the roles of rows and columns; a
    raw general matrix stores entry (i, j) at [i*Stride + j]. *)
Definition GenMat_At (g : blasGeneral) (i j : Z) : M f32 :=
  if (i <? 0) || (Rows g <=? i) then panic ErrRowAccess
  else if (j <? 0) || (Cols g <=? j) then panic ErrColAccess
  else index (gen_Data g) (i * Stride g + j).

(** ** What the engine takes from outside the package

    The overlap checks of the package are not in the sources at hand, and the
    level-2 BLAS kernels belong to another library.  They are parameters of
    the model: a check is a test on two raw forms that tells whether the call
    panics, a kernel transforms the backing arrays, and the entries of a
    triangular matrix are read from them. *)
Record Extern := mkExtern {
  overlaps : blasVector -> blasVector -> bool;
  overlapsTri : blasTriangular -> blasGeneral -> bool;
  overlapsGen : blasGeneral -> blasGeneral -> bool;
  triAt : blasTriangular -> Z -> Z -> list (list f32) -> option f32;
  Trmv : bool -> blasTriangular -> blasVector -> list (list f32) -> list (list f32);
  Gemv : bool -> f32 -> blasGeneral -> blasVector -> f32 -> blasVector ->
         list (list f32) -> list (list f32)
}.

(** ** The primitives layer

    Modelled from the spec: the kernels of [internal/asm/f32] are not in the
    sources at hand.  [axpy...To(dst, alpha, x, y)] computes
    [dst = alpha*x + y] element by element, the scale kernels multiply by
    the factor, the dot kernels accumulate the products from zero; the
    strided forms step through their operands by the given increments. *)

Definition ScalUnitary (alpha : f32) (x : Slice) : M unit :=
  for_range (len x) (fun i =>
    let* xi := index x i in store x i (F32.mul xi alpha)).

Definition ScalUnitaryTo (dst : Slice) (alpha : f32) (x : Slice) : M unit :=
  for_range (len x) (fun i =>
    let* xi := index x i in store dst i (F32.mul alpha xi)).

Definition ScalInc (alpha : f32) (x : Slice) (n incX : Z) : M unit :=
  for_range n (fun i =>
    let* xi := index x (i * incX) in store x (i * incX) (F32.mul xi alpha)).

Definition ScalIncTo (dst : Slice) (incDst : Z) (alpha : f32) (x : Slice) (n incX : Z)
  : M unit :=
  for_range n (fun i =>
    let* xi := index x (i * incX) in store dst (i * incDst) (F32.mul alpha xi)).

Definition AxpyUnitaryTo (dst : Slice) (alpha : f32) (x y : Slice) : M unit :=
  for_range (len x) (fun i =>
    let* xi := index x i in
    let* yi := index y i in
    store dst i (F32.add (F32.mul alpha xi) yi)).

Definition AxpyInc (alpha : f32) (x y : Slice) (n incX incY ix iy : Z) : M unit :=
  for_range n (fun i =>
    let* xi := index x (ix + i * incX) in
    let* yi := index y (iy + i * incY) in
    store y (iy + i * incY) (F32.add yi (F32.mul alpha xi))).

Definition AxpyIncTo (dst : Slice) (incDst idst : Z) (alpha : f32) (x y : Slice)
    (n incX incY ix iy : Z) : M unit :=
  for_range n (fun i =>
    let* xi := index x (ix + i * incX) in
    let* yi := index y (iy + i * incY) in
    store dst (idst + i * incDst) (F32.add (F32.mul alpha xi) yi)).

Definition DotUnitary (x y : Slice) : M f32 :=
  loop (Z.to_nat (len x)) 0 F32.zero (fun i sum =>
    let* xi := index x i in
    let* yi := index y i in
    ret (F32.add sum (F32.mul yi xi))).

Definition DotInc (x y : Slice) (n incX incY ix iy : Z) : M f32 :=
  loop (Z.to_nat n) 0 F32.zero (fun i sum =>
    let* xi := index x (ix + i * incX) in
    let* yi := index y (iy + i * incY) in
    ret (F32.add sum (F32.mul yi xi))).

(** Modelled from the spec: the level-1 kernels [blas32.Copy] (element copy)
    and [blas32.Scal] (scale in place) of the primitives layer. *)
Definition blas_Copy (n : Z) (x y : blasVector) : M unit :=
  for_range n (fun i =>
    let* xi := index (Data x) (i * Inc x) in store (Data y) (i * Inc y) xi).

Definition blas_Scal (n : Z) (alpha : f32) (x : blasVector) : M unit :=
  for_range n (fun i =>
    let* xi := index (Data x) (i * Inc x) in
    store (Data x) (i * Inc x) (F32.mul xi alpha)).

(** Modelled from the spec: [use] is not in the sources at hand; a zero-size
    receiver is given a buffer of exactly [l] elements. *)
Definition use (f : Slice) (l : Z) : M Slice := make l.

(** Modelled from the spec: the workspace pool is not in the sources at hand;
    checking out a workspace yields a vector of the required length with
    stride 1 that shares storage with no other vector. *)
Definition getWorkspaceVec (l : Z) (clear : bool) : M ptr :=
  let* d := make l in newVec (mkVecDense (mkBlasVector 1 d) l).

Definition putWorkspaceVec (w : ptr) : M unit := ret tt.

(** ** The operations of [vector.go] *)

Section Engine.

Context (X : Extern).

(** [v.checkOverlap(a)]: panics when the check finds a forbidden overlap. *)
Definition checkOverlap (v : ptr) (a : blasVector) : M unit :=
  let* r := getVec v in
  if overlaps X (mat r) a then panic ErrOverlap else ret tt.

Definition asGeneral (v : ptr) : M blasGeneral :=
  let* r := getVec v in
  ret (mkBlasGeneral (vn r) 1 (Inc (mat r)) (Data (mat r))).

Fixpoint MDims (a : Matrix) : M (Z * Z) :=
  match a with
  | MatVec x => Dims x
  | Transpose m => let* '(c, r) := MDims m in ret (r, c)
  | TriMat t => ret (tri_N t, tri_N t)
  | GenMat g => ret (Rows g, Cols g)
  | OtherMat r c _ => ret (r, c)
  end.

Fixpoint MAt (a : Matrix) (i j : Z) : M f32 :=
  match a with
  | MatVec x => At x i j
  | Transpose m => MAt m j i
  | TriMat t => fun s => match triAt X t i j (arrays s) with
                         | Some x => Ok x s
                         | None => Panic ErrRowAccess s
                         end
  | GenMat g => GenMat_At g i j
  | OtherMat _ _ at_ => ret (at_ i j)
  end.

Definition NewVecDense (n : Z) (data : option Slice) : M ptr :=
  if n <? 0 then panic ErrNegativeDimension
  else match data with
       | Some d =>
           if negb (len d =? n) then panic ErrShape
           else newVec (mkVecDense (mkBlasVector 1 d) n)
       | None =>
           let* d := make n in
           newVec (mkVecDense (mkBlasVector 1 d) n)
       end.

Definition SliceVec (v : ptr) (i k : Z) : M ptr :=
  if (i <? 0) || (k <=? i) then panic ErrIndexOutOfRange
  else
    let* c := Cap v in
    if c <? k then panic ErrIndexOutOfRange
    else
      let* r := getVec v in
      let* d := reslice (Data (mat r)) (i * Inc (mat r)) ((k - 1) * Inc (mat r) + 1) in
      newVec (mkVecDense (mkBlasVector (Inc (mat r)) d) (k - i)).

Definition Reset (v : ptr) : M unit :=
  let* r := getVec v in
  let* d := reslice (Data (mat r)) 0 0 in
  putVec v (mkVecDense (mkBlasVector 0 d) 0).

Definition reuseAs (v : ptr) (r : Z) : M unit :=
  if r =? 0 then panic ErrZeroLength
  else
    let* z := IsZero v in
    let* h := getVec v in
    if z then
      let* d := use (Data (mat h)) r in
      putVec v (mkVecDense (mkBlasVector 1 d) r)
    else if negb (r =? vn h) then panic ErrShape
    else ret tt.

Definition CopyVec (v : ptr) (a : Vector) : M Z :=
  let* vl := VecDense_Len v in
  let* al := Len a in
  let n := Z.min vl al in
  if is_ptr v a then ret n
  else match rawVectorer a with
       | Some pa =>
           let* amat := RawVector pa in
           let* h := getVec v in
           blas_Copy n amat (mat h) ;;
           ret n
       | None =>
           for_range n (fun i => let* x := AtVec a i in setVec v i x) ;;
           ret n
       end.

(** Modelled from the spec: the checked [SetVec] is not in the sources at
    hand; it rejects an index outside [0, n). *)
Definition VecDense_SetVec (v : ptr) (i : Z) (x : f32) : M unit :=
  let* h := getVec v in
  if (i <? 0) || (vn h <=? i) then panic ErrRowAccess else setVec v i x.

Definition CloneVec (v : ptr) (a : Vector) : M unit :=
  if is_ptr v a then ret tt
  else
    let* al := Len a in
    let* h := getVec v in
    putVec v (mkVecDense (mat h) al) ;;
    let* d := use (Data (mat h)) al in
    putVec v (mkVecDense (mkBlasVector 1 d) al) ;;
    match rawVectorer a with
    | Some pa =>
        let* amat := RawVector pa in
        blas_Copy al amat (mkBlasVector 1 d)
    | None =>
        for_range al (fun i => let* x := AtVec a i in VecDense_SetVec v i x)
    end.

Definition VecDenseCopyOf (a : Vector) : M ptr :=
  let* v := newVec zeroVecDense in
  CloneVec v a ;;
  ret v.

Definition ScaleVec (v : ptr) (alpha : f32) (a : Vector) : M unit :=
  let* n := Len a in
  if is_ptr v a then
    let* h := getVec v in
    if Inc (mat h) =? 1 then ScalUnitary alpha (Data (mat h))
    else ScalInc alpha (Data (mat h)) n (Inc (mat h))
  else
    reuseAs v n ;;
    match rawVectorer a with
    | Some pa =>
        let* amat := RawVector pa in
        checkOverlap v amat ;;
        let* h := getVec v in
        if (Inc (mat h) =? 1) && (Inc amat =? 1) then
          ScalUnitaryTo (Data (mat h)) alpha (Data amat)
        else
          ScalIncTo (Data (mat h)) (Inc (mat h)) alpha (Data amat) n (Inc amat)
    | None =>
        for_range n (fun i => let* x := AtVec a i in setVec v i (F32.mul alpha x))
    end.

Definition AddVec (v : ptr) (a b : Vector) : M unit :=
  let* ar := Len a in
  let* br := Len b in
  if negb (ar =? br) then panic ErrShape
  else
    reuseAs v ar ;;
    let (aU, _) := untranspose a in
    let (bU, _) := untranspose b in
    match rawVectorer aU, rawVectorer bU with
    | Some pa, Some pb =>
        let* amat := RawVector pa in
        let* bmat := RawVector pb in
        (if negb (is_ptr v a) then checkOverlap v amat else ret tt) ;;
        (if negb (is_ptr v b) then checkOverlap v bmat else ret tt) ;;
        let* h := getVec v in
        if (Inc (mat h) =? 1) && (Inc amat =? 1) && (Inc bmat =? 1) then
          AxpyUnitaryTo (Data (mat h)) F32.one (Data bmat) (Data amat)
        else
          AxpyIncTo (Data (mat h)) (Inc (mat h)) 0 F32.one (Data bmat) (Data amat)
            ar (Inc bmat) (Inc amat) 0 0
    | _, _ =>
        for_range ar (fun i =>
          let* x := AtVec a i in
          let* y := AtVec b i in
          setVec v i (F32.add x y))
    end.

Definition SubVec (v : ptr) (a b : Vector) : M unit :=
  let* ar := Len a in
  let* br := Len b in
  if negb (ar =? br) then panic ErrShape
  else
    reuseAs v ar ;;
    let (aU, _) := untranspose a in
    let (bU, _) := untranspose b in
    match rawVectorer aU, rawVectorer bU with
    | Some pa, Some pb =>
        let* amat := RawVector pa in
        let* bmat := RawVector pb in
        (if negb (is_ptr v a) then checkOverlap v amat else ret tt) ;;
        (if negb (is_ptr v b) then checkOverlap v bmat else ret tt) ;;
        let* h := getVec v in
        if (Inc (mat h) =? 1) && (Inc amat =? 1) && (Inc bmat =? 1) then
          AxpyUnitaryTo (Data (mat h)) F32.neg_one (Data bmat) (Data amat)
        else
          AxpyIncTo (Data (mat h)) (Inc (mat h)) 0 F32.neg_one (Data bmat) (Data amat)
            ar (Inc bmat) (Inc amat) 0 0
    | _, _ =>
        for_range ar (fun i =>
          let* x := AtVec a i in
          let* y := AtVec b i in
          setVec v i (F32.sub x y))
    end.

Definition MulElemVec (v : ptr) (a b : Vector) : M unit :=
  let* ar := Len a in
  let* br := Len b in
  if negb (ar =? br) then panic ErrShape
  else
    reuseAs v ar ;;
    let (aU, _) := untranspose a in
    let (bU, _) := untranspose b in
    match rawVectorer aU, rawVectorer bU with
    | Some pa, Some pb =>
        let* amat := RawVector pa in
        let* bmat := RawVector pb in
        (if negb (is_ptr v a) then checkOverlap v amat else ret tt) ;;
        (if negb (is_ptr v b) then checkOverlap v bmat else ret tt) ;;
        let* h := getVec v in
        if (Inc (mat h) =? 1) && (Inc amat =? 1) && (Inc bmat =? 1) then
          for_range (len (Data amat)) (fun i =>
            let* x := index (Data amat) i in
            let* y := index (Data bmat) i in
            store (Data (mat h)) i (F32.mul x y))
        else
          loop (Z.to_nat ar) 0 (0, 0) (fun i '(ia, ib) =>
            let* x := index (Data amat) ia in
            let* y := index (Data bmat) ib in
            setVec v i (F32.mul x y) ;;
            ret (ia + Inc amat, ib + Inc bmat)) ;;
          ret tt
    | _, _ =>
        for_range ar (fun i =>
          let* x := AtVec a i in
          let* y := AtVec b i in
          setVec v i (F32.mul x y))
    end.

(** In [DivElemVec] the strided loop of the fast path is not followed by a
    [return]: control goes on to the element-wise loop at the end. *)
Definition DivElemVec (v : ptr) (a b : Vector) : M unit :=
  let* ar := Len a in
  let* br := Len b in
  if negb (ar =? br) then panic ErrShape
  else
    reuseAs v ar ;;
    let (aU, _) := untranspose a in
    let (bU, _) := untranspose b in
    let slow :=
      for_range ar (fun i =>
        let* x := AtVec a i in
        let* y := AtVec b i in
        setVec v i (F32.div x y)) in
    match rawVectorer aU, rawVectorer bU with
    | Some pa, Some pb =>
        let* amat := RawVector pa in
        let* bmat := RawVector pb in
        (if negb (is_ptr v a) then checkOverlap v amat else ret tt) ;;
        (if negb (is_ptr v b) then checkOverlap v bmat else ret tt) ;;
        let* h := getVec v in
        if (Inc (mat h) =? 1) && (Inc amat =? 1) && (Inc bmat =? 1) then
          for_range (len (Data amat)) (fun i =>
            let* x := index (Data amat) i in
            let* y := index (Data bmat) i in
            setVec v i (F32.div x y))
        else
          loop (Z.to_nat ar) 0 (0, 0) (fun i '(ia, ib) =>
            let* x := index (Data amat) ia in
            let* y := index (Data bmat) ib in
            setVec v i (F32.div x y) ;;
            ret (ia + Inc amat, ib + Inc bmat)) ;;
          slow
    | _, _ => slow
    end.

(** The zero value of [blas32.Vector]. *)
Definition zeroBlasVector : blasVector := mkBlasVector 0 nilSlice.

(** The raw form of an operand once unwrapped, with the overlap check that
    goes with it when the operand is not the receiver itself. *)
Definition rawOperand (v : ptr) (a : Vector) : M (option blasVector) :=
  let (aU, _) := untranspose a in
  match rawVectorer aU with
  | Some pa =>
      let* amat := RawVector pa in
      (if negb (is_ptr v a) then checkOverlap v amat else ret tt) ;;
      ret (Some amat)
  | None => ret None
  end.

Definition AddScaledVec (v : ptr) (a : Vector) (alpha : f32) (b : Vector) : M unit :=
  if F32.eqb alpha F32.one then AddVec v a b
  else if F32.eqb alpha F32.neg_one then SubVec v a b
  else
    let* ar := Len a in
    let* br := Len b in
    if negb (ar =? br) then panic ErrShape
    else
      let* am := rawOperand v a in
      let* bm := rawOperand v b in
      let amat := default zeroBlasVector am in
      let bmat := default zeroBlasVector bm in
      let fast := bool_decide (is_Some am) && bool_decide (is_Some bm) in
      reuseAs v ar ;;
      let* h := getVec v in
      if F32.eqb alpha F32.zero then
        if is_ptr v a then ret tt else (CopyVec v a ;; ret tt)
      else if is_ptr v a && is_ptr v b then
        blas_Scal ar (F32.add alpha F32.one) (mat h)
      else if negb fast then
        for_range ar (fun i =>
          let* x := AtVec a i in
          let* y := AtVec b i in
          setVec v i (F32.add x (F32.mul alpha y)))
      else if is_ptr v a && negb (is_ptr v b) then
        if (Inc (mat h) =? 1) && (Inc bmat =? 1) then
          AxpyUnitaryTo (Data (mat h)) alpha (Data bmat) (Data amat)
        else
          AxpyInc alpha (Data bmat) (Data (mat h)) ar (Inc bmat) (Inc (mat h)) 0 0
      else
        if (Inc (mat h) =? 1) && (Inc amat =? 1) && (Inc bmat =? 1) then
          AxpyUnitaryTo (Data (mat h)) alpha (Data bmat) (Data amat)
        else
          AxpyIncTo (Data (mat h)) (Inc (mat h)) 0 alpha (Data bmat) (Data amat)
            ar (Inc bmat) (Inc amat) 0 0.

(** The closure returned with the workspace copies it back into the receiver
    and returns it to the pool. *)
Definition isolatedWorkspace (v : ptr) (a : Vector) : M (ptr * M unit) :=
  let* l := Len a in
  if l =? 0 then panic ErrZeroLength
  else
    let* w := getWorkspaceVec l false in
    ret (w, (CopyVec v (VecPtr w) ;; putWorkspaceVec w)).

(** The element-wise loop that ends [MulVec]. *)
Definition MulVec_slow (v : ptr) (a : Matrix) (b : Vector) (r c : Z) : M unit :=
  for_range r (fun i =>
    let* f := loop (Z.to_nat c) 0 F32.zero (fun j f =>
                let* x := MAt a i j in
                let* y := AtVec b j in
                ret (F32.add f (F32.mul x y))) in
    setVec v i f).

(** The body of [MulVec] once the receiver [v] is settled (the receiver
    itself or its workspace). *)
Definition MulVec_dispatch (v : ptr) (a aU : Matrix) (trans : bool) (b : Vector)
    (bm : option blasVector) (r c : Z) : M unit :=
  let bmat := default zeroBlasVector bm in
  let fast := bool_decide (is_Some bm) in
  match aU with
  | MatVec aV =>
      let* bl := Len b in
      if bl =? 1 then
        let* b0 := AtVec b 0 in
        ScaleVec v b0 aV
      else
        match (if fast then rawVectorer aV else None) with
        | Some pa =>
            let* amat := RawVector pa in
            (if negb (Nat.eqb v pa) then checkOverlap v amat else ret tt) ;;
            if (Inc amat =? 1) && (Inc bmat =? 1) then
              let* d := DotUnitary (Data amat) (Data bmat) in
              setVec v 0 d
            else
              let* d := DotInc (Data amat) (Data bmat) c (Inc amat) (Inc bmat) 0 0 in
              setVec v 0 d
        | None =>
            let* sum := loop (Z.to_nat c) 0 F32.zero (fun i sum =>
                          let* x := AtVec aV i in
                          let* y := AtVec b i in
                          ret (F32.add sum (F32.mul x y))) in
            setVec v 0 sum
        end
  | TriMat amat =>
      CopyVec v b ;;
      let* g := asGeneral v in
      (if overlapsTri X amat g then panic ErrOverlap else ret tt) ;;
      let* h := getVec v in
      (fun s => Ok tt (mkState (Trmv X trans amat (mat h) (arrays s)) (vecs s))) ;;
      MulVec_slow v a b r c
  | GenMat amat =>
      if fast then
        let* g := asGeneral v in
        (if overlapsGen X amat g then panic ErrOverlap else ret tt) ;;
        let* h := getVec v in
        (fun s => Ok tt (mkState (Gemv X trans F32.one amat bmat F32.zero (mat h) (arrays s))
                                 (vecs s)))
      else MulVec_slow v a b r c
  | _ =>
      if fast then
        for_range r (fun i =>
          let* f := loop (Z.to_nat c) 0 F32.zero (fun j f =>
                      let* x := MAt a i j in
                      let* y := index (Data bmat) (j * Inc bmat) in
                      ret (F32.add f (F32.mul x y))) in
          setVec v i f)
      else MulVec_slow v a b r c
  end.

Definition MulVec (v : ptr) (a : Matrix) (b : Vector) : M unit :=
  let* '(r, c) := MDims a in
  let* '(br, bc) := Dims b in
  if negb (c =? br) || negb (bc =? 1) then panic ErrShape
  else
    let (aU, trans) := untransposeM a in
    let* bm := rawOperand v b in
    reuseAs v r ;;
    if is_ptrM v aU then
      let* '(w, restore) := isolatedWorkspace v (VecPtr v) in
      defer restore (MulVec_dispatch w a aU trans b bm r c)
    else if is_ptr v b then
      let* '(w, restore) := isolatedWorkspace v b in
      defer restore (MulVec_dispatch w a aU trans b bm r c)
    else MulVec_dispatch v a aU trans b bm r c.

Definition ColViewOf (v : ptr) (rm : blasGeneral) (j : Z) : M unit :=
  if (Cols rm <=? j) || (j <? 0) then panic ErrColAccess
  else
    let* z := IsZero v in
    let* h := getVec v in
    if negb z && negb (vn h =? Rows rm) then panic ErrShape
    else
      putVec v (mkVecDense (mkBlasVector (Stride rm) (Data (mat h))) (vn h)) ;;
      let* d := reslice (gen_Data rm) j ((Rows rm - 1) * Stride rm + j + 1) in
      putVec v (mkVecDense (mkBlasVector (Stride rm) d) (Rows rm)).

Definition RowViewOf (v : ptr) (rm : blasGeneral) (i : Z) : M unit :=
  if (Rows rm <=? i) || (i <? 0) then panic ErrRowAccess
  else
    let* z := IsZero v in
    let* h := getVec v in
    if negb z && negb (vn h =? Cols rm) then panic ErrShape
    else
      putVec v (mkVecDense (mkBlasVector 1 (Data (mat h))) (vn h)) ;;
      let* d := reslice (gen_Data rm) (i * Stride rm) (i * Stride rm + Cols rm) in
      putVec v (mkVecDense (mkBlasVector 1 d) (Cols rm)).

End Engine.

(** An instance of the outside parts for running the engine on examples: it
    reports an overlap when two raw vectors share an element position of one
    backing array; it is for calls that reach no level-2 kernel, which it
    leaves as the identity on the store. *)
Definition overlaps_plain (x y : blasVector) : bool :=
  Nat.eqb (base (Data x)) (base (Data y))
  && (off (Data x) <? off (Data y) + len (Data y))
  && (off (Data y) <? off (Data x) + len (Data x)).

Definition plainExtern : Extern :=
  mkExtern overlaps_plain (fun _ _ => false) (fun _ _ => false)
           (fun _ _ _ _ => None) (fun _ _ _ arr => arr) (fun _ _ _ _ _ _ arr => arr).

(** ** Reading vectors back, and building inputs *)

(** A slice literal [[]float32{...}]. *)
Definition sliceLit (vals : list f32) : M Slice := fun s =>
  Ok (mkSlice (length (arrays s)) 0 (Z.of_nat (length vals)) (Z.of_nat (length vals)))
     (mkState (arrays s ++ [vals]) (vecs s)).

(** The elements [a.AtVec(0)], ..., [a.AtVec(k-1)]. *)
Fixpoint readFrom (a : Vector) (k : nat) (i : Z) : M (list f32) :=
  match k with
  | O => ret []
  | S k' => let* x := AtVec a i in
            let* xs := readFrom a k' (i + 1) in
            ret (x :: xs)
  end.

(** All the elements of [a], in order. *)
Definition elements (a : Vector) : M (list f32) :=
  let* n := Len a in readFrom a (Z.to_nat n) 0.

(** What a call returned, when it returned. *)
Definition returned {A} (r : Res A) : option A :=
  match r with Ok a _ => Some a | Panic _ _ => None end.

(** A dense vector of stride 1 over the whole of backing array [b], of
    length [n]. *)
Definition denseHeader (b : nat) (n : Z) : VecDense :=
  mkVecDense (mkBlasVector 1 (mkSlice b 0 n n)) n.

(** ** Describing a store *)

(** The value at position [p] of backing array [b]. *)
Definition get_cell (s : State) (b : nat) (p : Z) : option f32 :=
  if p <? 0 then None
  else match arrays s !! b with
       | Some arr => arr !! Z.to_nat p
       | None => None
       end.

(** The position, in its backing array, of logical element [k] of a vector
    with header [h]. *)
Definition cell (h : VecDense) (k : Z) : Z :=
  off (Data (mat h)) + k * Inc (mat h).

(** A header of a vector of positive length, as the constructors and views
    build them: positive stride, data that spans exactly the [n] elements,
    inside the capacity, inside the backing array. *)
Record wf_vec (s : State) (h : VecDense) : Prop := mk_wf_vec {
  wf_inc : 1 <= Inc (mat h);
  wf_n : 1 <= vn h;
  wf_len : len (Data (mat h)) = (vn h - 1) * Inc (mat h) + 1;
  wf_off : 0 <= off (Data (mat h));
  wf_cap : len (Data (mat h)) <= cap (Data (mat h));
  wf_cells : forall p, off (Data (mat h)) <= p < off (Data (mat h)) + cap (Data (mat h)) ->
                       is_Some (get_cell s (base (Data (mat h))) p)
}.

(** A header whose storage can be viewed through [SliceVec]: the cells up to
    its capacity exist, its elements lie inside its data, and a stride of 2
    or more comes with data (as column views have).  Any length will do,
    also 0. *)
Record sliceable (s : State) (h : VecDense) : Prop := mk_sliceable {
  sl_inc : 0 <= Inc (mat h);
  sl_cap : 2 <= Inc (mat h) -> 1 <= cap (Data (mat h));
  sl_off : 0 <= off (Data (mat h));
  sl_cells : forall p, off (Data (mat h)) <= p < off (Data (mat h)) + cap (Data (mat h)) ->
                       is_Some (get_cell s (base (Data (mat h))) p);
  sl_elems : forall m, 0 <= m < vn h -> in_range (Data (mat h)) (m * Inc (mat h)) = true
}.

(** [holds s a l]: in store [s], the vector [a] has the elements [l]. *)
Fixpoint holds (s : State) (a : Vector) (l : list f32) : Prop :=
  match a with
  | VecPtr q =>
      exists h, vecs s !! q = Some h
                /\ wf_vec s h
                /\ vn h = Z.of_nat (length l)
                /\ forall k x, l !! k = Some x ->
                     get_cell s (base (Data (mat h))) (cell h (Z.of_nat k)) = Some x
  | TransposeVec x => holds s x l
  | OtherVec vals => vals = l
  end.

(** [apart s hv a]: no element of [a] lives in a cell of the vector with
    header [hv]. *)
Fixpoint apart (s : State) (hv : VecDense) (a : Vector) : Prop :=
  match a with
  | VecPtr q =>
      exists h, vecs s !! q = Some h
                /\ (base (Data (mat h)) <> base (Data (mat hv))
                    \/ forall j k, 0 <= j < vn hv -> 0 <= k < vn h -> cell h k <> cell hv j)
  | TransposeVec x => apart s hv x
  | OtherVec _ => True
  end.

(** [reads_ahead s hv a]: element [k] of [a] lives in none of the cells
    [0], ..., [k-1] of the vector with header [hv], so that a loop that
    writes those cells in order reads [a] as it was. *)
Fixpoint reads_ahead (s : State) (hv : VecDense) (a : Vector) : Prop :=
  match a with
  | VecPtr q =>
      exists h, vecs s !! q = Some h
                /\ (base (Data (mat h)) <> base (Data (mat hv))
                    \/ forall j k, 0 <= j < k -> k < vn h -> cell h k <> cell hv j)
  | TransposeVec x => reads_ahead s hv x
  | OtherVec _ => True
  end.

(** [after_writes s0 bd pos val k s]: [s] is [s0] after the cells [pos 0],
    ..., [pos (k-1)] of backing array [bd] were given [val 0], ...,
    [val (k-1)]; nothing else changed, and no cell appeared or vanished. *)
Definition after_writes (s0 : State) (bd : nat) (pos : Z -> Z) (val : Z -> f32)
    (k : Z) (s : State) : Prop :=
  vecs s = vecs s0
  /\ (forall j, 0 <= j < k -> get_cell s bd (pos j) = Some (val j))
  /\ (forall b p, b <> bd \/ (forall j, 0 <= j < k -> p <> pos j) ->
        get_cell s b p = get_cell s0 b p)
  /\ (forall b p, is_Some (get_cell s b p) <-> is_Some (get_cell s0 b p)).

(** Element [k] of a list of values, for [k] in range. *)
Definition nth_val (l : list f32) (k : Z) : f32 := default F32.zero (l !! Z.to_nat k).

(** The header a receiver has once [reuseAs] has sized it to [n]: its own
    when it had a size, a fresh buffer of stride 1 when it was zero-size. *)
Definition sized (s : State) (hv : VecDense) (n : Z) : VecDense :=
  if Inc (mat hv) =? 0 then denseHeader (length (arrays s)) n else hv.

(** [fits s hv a n]: the operand [a] may be combined into a receiver with
    header [hv], for a result of length [n]: the receiver is zero-size (it
    will get storage of its own), or it has [n] elements and shares no cell
    with [a]. *)
Definition fits (s : State) (hv : VecDense) (a : Vector) (n : Z) : Prop :=
  Inc (mat hv) = 0 \/ (wf_vec s hv /\ vn hv = n /\ apart s hv a).

(** [resized s v hv n s1]: [s1] is [s] after [reuseAs] has sized the
    receiver [v], of header [hv], to [n] elements: the store is the same when
    the receiver had a size; a zero-size receiver has got a fresh buffer, and
    nothing else has changed. *)
Definition resized (s : State) (v : ptr) (hv : VecDense) (n : Z) (s1 : State) : Prop :=
  vecs s1 !! v = Some (sized s hv n)
  /\ wf_vec s1 (sized s hv n)
  /\ vn (sized s hv n) = n
  /\ (forall q h, q <> v -> vecs s !! q = Some h -> vecs s1 !! q = Some h)
  /\ (forall b p, (b < length (arrays s))%nat -> get_cell s1 b p = get_cell s b p)
  /\ (forall b arr, arrays s !! b = Some arr -> arrays s1 !! b = Some arr)
  /\ (Inc (mat hv) = 0 -> base (Data (mat (sized s hv n))) = length (arrays s))
  /\ (Inc (mat hv) <> 0 -> s1 = s).

(** [check_passes X s hr a]: the overlap check of a receiver with header
    [hr] against the raw form of [a] (when [a] has one) does not fire. *)
Definition check_passes (X : Extern) (s : State) (hr : VecDense) (a : Vector) : Prop :=
  forall q h, rawVectorer a = Some q -> vecs s !! q = Some h ->
              overlaps X (mat hr) (mat h) = false.

(** [operand_fits s v hv n a]: the operand [a] of an operation with receiver
    [v] (of header [hv]) and result length [n] is the receiver itself, or it
    fits the receiver. *)
Definition operand_fits (s : State) (v : ptr) (hv : VecDense) (n : Z) (a : Vector)
  : Prop :=
  is_ptr v a = true \/ (is_ptr v a = false /\ fits s hv a n).

(** [operand_checked X s v hr a]: the operand [a] is the receiver itself, or
    the overlap check of the receiver, of header [hr] when the check runs,
    against [a] unwrapped does not fire. *)
Definition operand_checked (X : Extern) (s : State) (v : ptr) (hr : VecDense)
    (a : Vector) : Prop :=
  is_ptr v a = true \/ check_passes X s hr (fst (untranspose a)).

(** [operand_ok X s v hv n a]: both, for the operations that check for
    overlap once the receiver is sized. *)
Definition operand_ok (X : Extern) (s : State) (v : ptr) (hv : VecDense) (n : Z)
    (a : Vector) : Prop :=
  operand_fits s v hv n a /\ operand_checked X s v (sized s hv n) a.

(** The header of the view [v.SliceVec(i, k)] of a vector of header [hv]. *)
Definition sliceHeader (hv : VecDense) (i k : Z) : VecDense :=
  mkVecDense
    (mkBlasVector (Inc (mat hv))
       (mkSlice (base (Data (mat hv)))
                (off (Data (mat hv)) + i * Inc (mat hv))
                ((k - 1) * Inc (mat hv) + 1 - i * Inc (mat hv))
                (cap (Data (mat hv)) - i * Inc (mat hv))))
    (k - i).

(** ** What the operations compute *)

(** The general formula of [AddScaledVec], element by element:
    [a[i] + alpha * b[i]]. *)
Definition axpy_formula (alpha : f32) (la lb : list f32) : list f32 :=
  zip_with (fun x y => F32.add x (F32.mul alpha y)) la lb.

(** The identity matrix as a matrix read through [At] only. *)
Definition identity_at (i j : Z) : f32 := if i =? j then F32.one else F32.zero.

Definition identityMat (n : Z) : Matrix := OtherMat n n identity_at.

(** [acc = g k acc; ...; acc = g (k+m-1) acc]: what an accumulating loop
    computes. *)
Fixpoint fold_range {A} (m : nat) (k : Z) (acc : A) (g : Z -> A -> A) : A :=
  match m with
  | O => acc
  | S m' => fold_range m' (k + 1) (g k acc) g
  end.

(** One round of the inner loop of the nested-loop product:
    [f += A[i,j] * b[j]]. *)
Definition row_step (at_ : Z -> Z -> f32) (l : list f32) (i : Z) : Z -> f32 -> f32 :=
  fun j f => F32.add f (F32.mul (at_ i j) (nth_val l j)).

(** Row [i] of the nested-loop product [sum_j A[i,j] * b[j]], accumulated
    from zero in the order of the loop. *)
Definition row_product (at_ : Z -> Z -> f32) (l : list f32) (i : Z) : f32 :=
  fold_range (length l) 0 F32.zero (row_step at_ l i).

(** [unit_fast_path s hv n a b]: when both operands have a raw form, theirs
    and the receiver's strides are all 1. *)
Definition unit_fast_path (s : State) (hv : VecDense) (n : Z) (a b : Vector) : Prop :=
  forall qa qb ha hb,
    fst (untranspose a) = VecPtr qa -> fst (untranspose b) = VecPtr qb ->
    vecs s !! qa = Some ha -> vecs s !! qb = Some hb ->
    Inc (mat (sized s hv n)) = 1 /\ Inc (mat ha) = 1 /\ Inc (mat hb) = 1.

(** ** The invariant of vector headers *)

(** What holds of every header: the length is not negative, and a header
    with stride 0 (the zero-size state) has length 0. *)
Definition header_ok (h : VecDense) : Prop :=
  0 <= vn h /\ (Inc (mat h) = 0 -> vn h = 0).

Definition store_ok (s : State) : Prop := Forall header_ok (vecs s).

(** [preserved c Q]: from a store whose headers are all in order, [c] leaves
    such a store, whether it returns or panics, and what it returns
    satisfies [Q]. *)
Definition preserved {A} (c : M A) (Q : A -> Prop) : Prop :=
  forall s, store_ok s ->
    match c s with
    | Ok a s' => store_ok s' /\ Q a
    | Panic _ s' => store_ok s'
    end.

(** The calls a client of the package can make on vectors. *)
Inductive Call :=
| CallVar                                   (* var v VecDense *)
| CallSliceLit (vals : list f32)            (* []float32{...} *)
| CallNewVecDense (n : Z) (data : option Slice)
| CallVecDenseCopyOf (a : Vector)
| CallSliceVec (v : ptr) (i k : Z)
| CallReset (v : ptr)
| CallCloneVec (v : ptr) (a : Vector)
| CallCopyVec (v : ptr) (a : Vector)
| CallScaleVec (v : ptr) (alpha : f32) (a : Vector)
| CallAddScaledVec (v : ptr) (a : Vector) (alpha : f32) (b : Vector)
| CallAddVec (v : ptr) (a b : Vector)
| CallSubVec (v : ptr) (a b : Vector)
| CallMulElemVec (v : ptr) (a b : Vector)
| CallDivElemVec (v : ptr) (a b : Vector)
| CallMulVec (v : ptr) (a : Matrix) (b : Vector)
| CallSetVec (v : ptr) (i : Z) (x : f32)
| CallColViewOf (v : ptr) (rm : blasGeneral) (j : Z)
| CallRowViewOf (v : ptr) (rm : blasGeneral) (i : Z).

(** The store a call leaves behind, whether it returns or panics. *)
Definition run (X : Extern) (c : Call) (s : State) : State :=
  match c with
  | CallVar => res_state (newVec zeroVecDense s)
  | CallSliceLit vals => res_state (sliceLit vals s)
  | CallNewVecDense n data => res_state (NewVecDense n data s)
  | CallVecDenseCopyOf a => res_state (VecDenseCopyOf a s)
  | CallSliceVec v i k => res_state (SliceVec v i k s)
  | CallReset v => res_state (Reset v s)
  | CallCloneVec v a => res_state (CloneVec v a s)
  | CallCopyVec v a => res_state (CopyVec v a s)
  | CallScaleVec v alpha a => res_state (ScaleVec X v alpha a s)
  | CallAddScaledVec v a alpha b => res_state (AddScaledVec X v a alpha b s)
  | CallAddVec v a b => res_state (AddVec X v a b s)
  | CallSubVec v a b => res_state (SubVec X v a b s)
  | CallMulElemVec v a b => res_state (MulElemVec X v a b s)
  | CallDivElemVec v a b => res_state (DivElemVec X v a b s)
  | CallMulVec v a b => res_state (MulVec X v a b s)
  | CallSetVec v i x => res_state (VecDense_SetVec v i x s)
  | CallColViewOf v rm j => res_state (ColViewOf v rm j s)
  | CallRowViewOf v rm i => res_state (RowViewOf v rm i s)
  end.

(** A column view is taken of a raw matrix with a positive row stride, as
    dense matrices have. *)
Definition call_ok (c : Call) : Prop :=
  match c with
  | CallColViewOf _ rm _ => 1 <= Stride rm
  | _ => True
  end.

(** The stores reachable from the empty one through calls. *)
Inductive reachable (X : Extern) : State -> Prop :=
| reach_empty : reachable X emptyState
| reach_call s c : reachable X s -> call_ok c -> reachable X (run X c s).

(** ** Scenarios *)

(** Two vectors, of lengths 2 and 3, and a zero-size receiver. *)
Definition store_2_3 : State :=
  mkState [replicate 2 F32.one; replicate 3 F32.one]
          [denseHeader 0 2; denseHeader 1 3; zeroVecDense].

(** Two vectors of length 0, as [NewVecDense(0, nil)] builds them, and a
    zero-size receiver. *)
Definition store_0_0 : State :=
  mkState [[]; []] [denseHeader 0 0; denseHeader 1 0; zeroVecDense].

(** A store with one vector, [[2, -1]], at pointer 0. *)
Definition store_2_m1 : State :=
  mkState [[F32.of_Z 2; F32.neg_one]] [denseHeader 0 2].

(** A store with the vector [[-0, 1]] at pointer 0 and the zero vector of
    length 2 at pointer 1. *)
Definition store_negzero : State :=
  mkState [[F32.neg_zero; F32.one]; replicate 2 F32.zero]
          [denseHeader 0 2; denseHeader 1 2].

(** A store with [a = [2, -1]] at pointer 0, [b = [1, 1]] at pointer 1 and
    a zero-size receiver at pointer 2. *)
Definition store_axpy : State :=
  mkState [[F32.of_Z 2; F32.neg_one]; [F32.one; F32.one]]
          [denseHeader 0 2; denseHeader 1 2; zeroVecDense].

(** A store with [b = [2, -0, -1]] at pointer 0 and a zero-size receiver at
    pointer 1. *)
Definition store_mulvec : State :=
  mkState [[F32.of_Z 2; F32.neg_zero; F32.neg_one]] [denseHeader 0 3; zeroVecDense].

(** A store with the vector [[1, 2, 3, 4]] at pointer 0. *)
Definition store_1234 : State :=
  mkState [map F32.of_Z [1; 2; 3; 4]] [denseHeader 0 4].

(** [v.ScaleVec(0, a)] for [a = [+Inf, -1]] and a zero-size receiver [v]. *)
Definition scale_zero_inf : M (list f32) :=
  let* d := sliceLit [F32.inf; F32.neg_one] in
  let* a := NewVecDense 2 (Some d) in
  let* v := newVec zeroVecDense in
  ScaleVec plainExtern v F32.zero (VecPtr a) ;;
  elements (VecPtr v).

(** [v.AddVec(v, z)] for [v = [-0, 1]] and [z] the zero vector. *)
Definition add_zero_negzero : M (list f32) :=
  AddVec plainExtern 0%nat (VecPtr 0%nat) (VecPtr 1%nat) ;;
  elements (VecPtr 0%nat).

(** [v.AddScaledVec(a, 0, b)] for [a = [1]], [b = [+Inf]] and a zero-size
    receiver [v]. *)
Definition axpy_zero_inf : M (list f32) :=
  let* da := sliceLit [F32.one] in
  let* a := NewVecDense 1 (Some da) in
  let* db := sliceLit [F32.inf] in
  let* b := NewVecDense 1 (Some db) in
  let* v := newVec zeroVecDense in
  AddScaledVec plainExtern v (VecPtr a) F32.zero (VecPtr b) ;;
  elements (VecPtr v).

(** [v.MulVec(I, b)] for the 2x2 identity, [b = [1, +Inf]] and a zero-size
    receiver [v]. *)
Definition identity_times_inf : M (list f32) :=
  let* db := sliceLit [F32.one; F32.inf] in
  let* b := NewVecDense 2 (Some db) in
  let* v := newVec zeroVecDense in
  MulVec plainExtern v (identityMat 2) (VecPtr b) ;;
  elements (VecPtr v).

(** [NewVecDense(0, nil)], and whether the result is zero-size. *)
Definition new_zero_length : M (bool * VecDense) :=
  let* v := NewVecDense 0 None in
  let* z := IsZero v in
  let* h := getVec v in
  ret (z, h).

(** [v.DivElemVec(v, b)] for [v] the first column, [[8, 8]], of the 2x2
    matrix with rows [8 1] and [8 1] (a view of stride 2) and [b = [2, 2]]. *)
Definition div_column_self : M (list f32) :=
  let* d := sliceLit (map F32.of_Z [8; 1; 8; 1]) in
  let* v := newVec zeroVecDense in
  ColViewOf v (mkBlasGeneral 2 2 2 d) 0 ;;
  let* db := sliceLit (map F32.of_Z [2; 2]) in
  let* b := NewVecDense 2 (Some db) in
  DivElemVec plainExtern v (VecPtr v) (VecPtr b) ;;
  elements (VecPtr v).

(** [a.DivElemVec(a, b)] for [a = [5, 10, 15, 20]] and [b = [5, 5, 5, 5]],
    both of stride 1. *)
Definition div_dense_self : M (list f32) :=
  let* da := sliceLit (map F32.of_Z [5; 10; 15; 20]) in
  let* a := NewVecDense 4 (Some da) in
  let* db := sliceLit (map F32.of_Z [5; 5; 5; 5]) in
  let* b := NewVecDense 4 (Some db) in
  DivElemVec plainExtern a (VecPtr a) (VecPtr b) ;;
  elements (VecPtr a).

(** ** The common shape of the element-wise operations

    [AddVec], [SubVec], [MulElemVec] and [DivElemVec] are one procedure, up
    to the operation [g] on the elements and the code [fast] run on the raw
    forms of the operands: lengths are compared, the receiver is sized, and
    the result is computed by [fast] when both operands have a raw form, by
    the element-wise loop otherwise. *)

Section Elementwise.

Context (X : Extern).

(** What follows the sizing of the receiver. *)
Definition elementwise_body (g : f32 -> f32 -> f32)
    (fast : VecDense -> blasVector -> blasVector -> Z -> M unit)
    (v : ptr) (a b : Vector) (ar : Z) : M unit :=
  let (aU, _) := untranspose a in
  let (bU, _) := untranspose b in
  match rawVectorer aU, rawVectorer bU with
  | Some pa, Some pb =>
      let* amat := RawVector pa in
      let* bmat := RawVector pb in
      (if negb (is_ptr v a) then checkOverlap X v amat else ret tt) ;;
      (if negb (is_ptr v b) then checkOverlap X v bmat else ret tt) ;;
      let* h := getVec v in
      fast h amat bmat ar
  | _, _ =>
      for_range ar (fun i =>
        let* x := AtVec a i in
        let* y := AtVec b i in
        setVec v i (g x y))
  end.

Definition elementwise (g : f32 -> f32 -> f32)
    (fast : VecDense -> blasVector -> blasVector -> Z -> M unit)
    (v : ptr) (a b : Vector) : M unit :=
  let* ar := Len a in
  let* br := Len b in
  if negb (ar =? br) then panic ErrShape
  else reuseAs v ar ;; elementwise_body g fast v a b ar.

(** The code of [AddVec] and [SubVec] on raw forms: the scaled-accumulate
    kernels with the factor [alpha]. *)
Definition axpy_fast (alpha : f32) (h : VecDense) (amat bmat : blasVector) (ar : Z)
  : M unit :=
  if (Inc (mat h) =? 1) && (Inc amat =? 1) && (Inc bmat =? 1) then
    AxpyUnitaryTo (Data (mat h)) alpha (Data bmat) (Data amat)
  else
    AxpyIncTo (Data (mat h)) (Inc (mat h)) 0 alpha (Data bmat) (Data amat)
      ar (Inc bmat) (Inc amat) 0 0.

(** The strided loop of [MulElemVec] and [DivElemVec], with its two running
    indices. *)
Definition strided_loop (g : f32 -> f32 -> f32) (v : ptr) (amat bmat : blasVector)
    (ar : Z) : M (Z * Z) :=
  loop (Z.to_nat ar) 0 (0, 0) (fun i '(ia, ib) =>
    let* x := index (Data amat) ia in
    let* y := index (Data bmat) ib in
    setVec v i (g x y) ;;
    ret (ia + Inc amat, ib + Inc bmat)).

(** The code of [MulElemVec] on raw forms. *)
Definition mul_fast (v : ptr) (h : VecDense) (amat bmat : blasVector) (ar : Z) : M unit :=
  if (Inc (mat h) =? 1) && (Inc amat =? 1) && (Inc bmat =? 1) then
    for_range (len (Data amat)) (fun i =>
      let* x := index (Data amat) i in
      let* y := index (Data bmat) i in
      store (Data (mat h)) i (F32.mul x y))
  else strided_loop F32.mul v amat bmat ar ;; ret tt.

(** The code of [DivElemVec] on raw forms: after the strided loop, the
    element-wise loop runs as well. *)
Definition div_fast (v : ptr) (a b : Vector) (h : VecDense) (amat bmat : blasVector)
    (ar : Z) : M unit :=
  if (Inc (mat h) =? 1) && (Inc amat =? 1) && (Inc bmat =? 1) then
    for_range (len (Data amat)) (fun i =>
      let* x := index (Data amat) i in
      let* y := index (Data bmat) i in
      setVec v i (F32.div x y))
  else
    strided_loop F32.div v amat bmat ar ;;
    for_range ar (fun i =>
      let* x := AtVec a i in
      let* y := AtVec b i in
      setVec v i (F32.div x y)).

End Elementwise.

(** [ready s v hv a la b lb s1]: [s1] is [s] once the receiver [v] has been
    sized for the operands [a] and [b], which hold [la] and [lb]: both hold
    what they held, and can be read all through a loop that fills the
    receiver in order. *)
Definition ready (s : State) (v : ptr) (hv : VecDense) (a : Vector) (la : list f32)
    (b : Vector) (lb : list f32) (s1 : State) : Prop :=
  resized s v hv (Z.of_nat (length la)) s1
  /\ holds s1 a la /\ holds s1 b lb
  /\ reads_ahead s1 (sized s hv (Z.of_nat (length la))) a
  /\ reads_ahead s1 (sized s hv (Z.of_nat (length la))) b.

(** What the strided branch of [DivElemVec] leaves in the receiver: the
    element-wise loop that follows the strided loop divides once more, and
    reads the quotients in place of an operand that is the receiver itself
    ([va]: the receiver is [a]; [vb]: the receiver is [b]). *)
Definition div_twice (va vb : bool) (la lb : list f32) : list f32 :=
  let q := zip_with F32.div la lb in
  zip_with F32.div (if va then q else la) (if vb then q else lb).

(** ** More scenarios *)

(** The header of column [j] of a raw matrix, as [ColViewOf] builds it. *)
Definition colHeader (rm : blasGeneral) (j : Z) : VecDense :=
  mkVecDense
    (mkBlasVector (Stride rm)
       (mkSlice (base (gen_Data rm)) (off (gen_Data rm) + j)
                ((Rows rm - 1) * Stride rm + 1) (cap (gen_Data rm) - j)))
    (Rows rm).

(** The header of row [i] of a raw matrix, as [RowViewOf] builds it. *)
Definition rowHeader (rm : blasGeneral) (i : Z) : VecDense :=
  mkVecDense
    (mkBlasVector 1
       (mkSlice (base (gen_Data rm)) (off (gen_Data rm) + i * Stride rm)
                (Cols rm) (cap (gen_Data rm) - i * Stride rm)))
    (Cols rm).

(** The 2x2 matrix with rows [8 1] and [8 1] over backing array 0. *)
Definition matrix_8181 : blasGeneral := mkBlasGeneral 2 2 2 (mkSlice 0 0 4 4).

(** A store with the first column of that matrix, [[8, 8]] (a view of stride
    2), at pointer 0, [b = [2, 2]] at pointer 1 and a zero-size receiver at
    pointer 2. *)
Definition store_column : State :=
  mkState [map F32.of_Z [8; 1; 8; 1]; map F32.of_Z [2; 2]]
          [colHeader matrix_8181 0; denseHeader 1 2; zeroVecDense].

(** The float32 values [2^-24] and [1 + 2^-23]. *)
Definition f32_tiny : f32 := S754_finite false 8388608 (-47).
Definition f32_above_one : f32 := S754_finite false 8388609 (-23).

(** A store with the vector [[1 + 2^-23]] at pointer 0. *)
Definition store_above_one : State :=
  mkState [[f32_above_one]] [denseHeader 0 1].

(** A store with [b = [2, 1]] at pointer 0, to be multiplied in place. *)
Definition store_2_1 : State :=
  mkState [[F32.of_Z 2; F32.one]] [denseHeader 0 2].

(** The 2x2 matrix with rows [1 2] and [3 4], read through [At] only. *)
Definition at_1234 (i j : Z) : f32 := F32.of_Z (2 * i + j + 1).

(** A raw matrix as dense matrices have them: at least one row and one
    column, rows no longer than the stride, data that covers all the
    entries, over cells that exist. *)
Record wf_gen (s : State) (g : blasGeneral) : Prop := mk_wf_gen {
  wg_rows : 1 <= Rows g;
  wg_cols : 1 <= Cols g;
  wg_stride : Cols g <= Stride g;
  wg_len : (Rows g - 1) * Stride g + Cols g <= len (gen_Data g);
  wg_off : 0 <= off (gen_Data g);
  wg_cap : len (gen_Data g) <= cap (gen_Data g);
  wg_cells : forall p, off (gen_Data g) <= p < off (gen_Data g) + cap (gen_Data g) ->
                       is_Some (get_cell s (base (gen_Data g)) p)
}.

(** A store with the matrix [matrix_8181] alone, and a zero-size vector at
    pointer 0. *)
Definition store_matrix : State :=
  mkState [map F32.of_Z [8; 1; 8; 1]] [zeroVecDense].

(** The dot product as the loops of [MulVec] accumulate it: from zero, in
    the order of the elements. *)
Definition dot_product (la lb : list f32) : f32 :=
  fold_range (length la) 0 F32.zero
    (fun i sum => F32.add sum (F32.mul (nth_val la i) (nth_val lb i))).

(** A store with [a = [1, 2, 3]] at pointer 0, [b = [4, 5, 6]] at pointer 1
    and a zero-size receiver at pointer 2. *)
Definition store_123_456 : State :=
  mkState [map F32.of_Z [1; 2; 3]; map F32.of_Z [4; 5; 6]]
          [denseHeader 0 3; denseHeader 1 3; zeroVecDense].

(** A store with [v = [1, 2, 3]] at pointer 0 and [a = [2, 2]] at
    pointer 1. *)
Definition store_123_22 : State :=
  mkState [map F32.of_Z [1; 2; 3]; map F32.of_Z [2; 2]]
          [denseHeader 0 3; denseHeader 1 2].

(** A store with the column [a = [2, -1]] at pointer 0, [b = [3]] at
    pointer 1 and a zero-size receiver at pointer 2. *)
Definition store_column_scalar : State :=
  mkState [[F32.of_Z 2; F32.neg_one]; [F32.of_Z 3]]
          [denseHeader 0 2; denseHeader 1 1; zeroVecDense].
(** * Properties *)

(** *** Arithmetic facts used by the vector lemmas *)

Lemma digits2_pos_shift (m : positive) (k : nat) :
  Z.pos (digits2_pos (Nat.iter k xO m)) = Z.pos (digits2_pos m) + Z.of_nat k.
Proof.
  induction k as [|k IH]; [simpl; lia|].
  simpl Nat.iter. cbn [digits2_pos]. rewrite Pos2Z.inj_succ, IH. lia.
Qed.

Lemma shr_1_shift (m : positive) (k : nat) :
  Nat.iter k shr_1 {| shr_m := Z.pos (Nat.iter k xO m); shr_r := false; shr_s := false |}
  = {| shr_m := Z.pos m; shr_r := false; shr_s := false |}.
Proof.
  induction k as [|k IH]; [reflexivity|].
  rewrite Nat.iter_succ_r. simpl Nat.iter at 2. cbn [shr_1 orb]. exact IH.
Qed.

Lemma F32_mul_one_finite (s : bool) (m : positive) (e : Z) :
  F32.valid (S754_finite s m e) ->
  F32.mul F32.one (S754_finite s m e) = S754_finite s m e.
Proof.
  unfold F32.valid, valid_binary, bounded, canonical_mantissa.
  intros H. apply andb_true_iff in H as [Hc He].
  apply Z.eqb_eq in Hc. apply Z.leb_le in He.
  unfold F32.mul, F32.one, SFmul, binary_round_aux.
  change (Pos.mul 8388608 m) with (Nat.iter 23 xO m).
  assert (Hd : Z.pos (digits2_pos (Nat.iter 23 xO m)) = Z.pos (digits2_pos m) + 23)
    by (rewrite digits2_pos_shift; reflexivity).
  unfold shr_fexp at 1. unfold Zdigits2. rewrite Hd.
  replace (Z.pos (digits2_pos m) + 23 + (-23 + e)) with (Z.pos (digits2_pos m) + e) by lia.
  rewrite Hc. replace (e - (-23 + e)) with 23 by lia.
  unfold shr, shr_record_of_loc.
  change (SpecFloat.iter_pos shr_1 23 ?r) with (Nat.iter 23 shr_1 r).
  rewrite shr_1_shift. cbn [shr_m loc_of_shr_record round_nearest_even].
  replace (-23 + e + 23) with e by lia.
  unfold shr_fexp, Zdigits2. rewrite Hc, Z.sub_diag. cbn [shr shr_record_of_loc shr_m].
  apply Z.leb_le in He. unfold F32.emax, F32.prec in *. rewrite He. reflexivity.
Qed.

Lemma F32_mul_one (x : f32) : F32.valid x -> F32.mul F32.one x = x.
Proof.
  destruct x as [s|s| |s m e]; intros H; try reflexivity.
  now apply F32_mul_one_finite.
Qed.

Lemma F32_mul_comm (x y : f32) : F32.mul x y = F32.mul y x.
Proof.
  destruct x as [sx|sx| |sx mx ex], y as [sy|sy| |sy my ey]; cbn;
    rewrite ?(xorb_comm sx sy); try reflexivity.
  now rewrite (Pos.mul_comm mx my), (Z.add_comm ex ey).
Qed.

Lemma F32_mul_zero_finite (x : f32) :
  F32.is_finite x = true -> F32.is_zero (F32.mul F32.zero x) = true.
Proof. destruct x; cbn; intros H; (reflexivity || discriminate). Qed.

Lemma F32_add_zero_l (x : f32) : F32.add F32.zero x = F32.plus_zero x.
Proof. destruct x as [[]|[]| |s m e]; reflexivity. Qed.

Lemma F32_add_zero_r (x : f32) : F32.add x F32.zero = F32.plus_zero x.
Proof. destruct x as [[]|[]| |s m e]; reflexivity. Qed.

Lemma F32_add_comm (x y : f32) : F32.add x y = F32.add y x.
Proof.
  destruct x as [sx|sx| |sx mx ex], y as [sy|sy| |sy my ey]; try reflexivity;
    try (destruct sx, sy; reflexivity).
  unfold F32.add, SFadd. rewrite (Z.min_comm ey ex). f_equal. apply Z.add_comm.
Qed.

(** Adding a zero to an accumulator that is not -0 leaves it as it is. *)
Lemma F32_add_zero_keep (f z : f32) :
  f <> F32.neg_zero -> F32.is_zero z = true -> F32.add f z = f.
Proof.
  destruct z as [sz| | |]; try discriminate. intros Hf _.
  destruct f as [[]| | |]; try reflexivity; [now contradiction Hf|now destruct sz].
Qed.

Lemma plus_zero_not_neg_zero (x : f32) : F32.plus_zero x <> F32.neg_zero.
Proof. destruct x as [[]| | |]; discriminate. Qed.

Lemma plus_zero_id (x : f32) : x <> F32.neg_zero -> F32.plus_zero x = x.
Proof. destruct x as [[]| | |]; intros H; try reflexivity. now contradiction H. Qed.

(** ** Running the monad *)

Lemma bind_ok {A B} (c : M A) (k : A -> M B) s a s1 :
  c s = Ok a s1 -> bind c k s = k a s1.
Proof. unfold bind. now intros ->. Qed.

Lemma bind_panic {A B} (c : M A) (k : A -> M B) s e s1 :
  c s = Panic e s1 -> bind c k s = Panic e s1.
Proof. unfold bind. now intros ->. Qed.

Lemma bind_ret {A B} (a : A) (k : A -> M B) s : bind (ret a) k s = k a s.
Proof. reflexivity. Qed.

Lemma getVec_ok p h s : vecs s !! p = Some h -> getVec p s = Ok h s.
Proof. unfold getVec. now intros ->. Qed.

Ltac step H := rewrite (bind_ok _ _ _ _ _ H).

Lemma neqb_true (x y : Z) : x <> y -> negb (x =? y) = true.
Proof. intros H. apply negb_true_iff, Z.eqb_neq, H. Qed.

(** ** NewVecDense (C5) *)

Lemma loop_readFrom_replicate p h arr (k : nat) (i : Z) s :
  vecs s !! p = Some h ->
  Inc (mat h) = 1 ->
  arrays s !! base (Data (mat h)) = Some arr ->
  off (Data (mat h)) = 0 ->
  0 <= i ->
  i + Z.of_nat k <= vn h ->
  vn h <= len (Data (mat h)) ->
  (forall j, (Z.to_nat i <= j < Z.to_nat i + k)%nat -> arr !! j = Some F32.zero) ->
  readFrom (VecPtr p) k i s = Ok (replicate k F32.zero) s.
Proof.
  revert i. induction k as [|k IH]; intros i Hp Hinc Harr Hoff Hi Hk Hlen Hz; [reflexivity|].
  cbn [readFrom replicate].
  assert (Hat : AtVec (VecPtr p) i s = Ok F32.zero s).
  { cbn [AtVec]. unfold VecDense_AtVec. step (getVec_ok _ _ _ Hp).
    replace ((i <? 0) || (vn h <=? i)) with false
      by (symmetry; apply orb_false_iff; split; [apply Z.ltb_ge|apply Z.leb_gt]; lia).
    unfold at_. step (getVec_ok _ _ _ Hp). unfold index, in_range.
    rewrite Hinc, Z.mul_1_r, Hoff, Z.add_0_l, Harr.
    replace ((0 <=? i) && (i <? len (Data (mat h)))) with true
      by (symmetry; apply andb_true_iff; split; [apply Z.leb_le|apply Z.ltb_lt]; lia).
    rewrite Hz by lia. reflexivity. }
  step Hat.
  rewrite (bind_ok _ _ _ _ _ (IH (i + 1) Hp Hinc Harr Hoff ltac:(lia) ltac:(lia) Hlen
                                 ltac:(intros j Hj; apply Hz; lia))).
  reflexivity.
Qed.

(** C5.  [NewVecDense n data] panics with the negative-dimension error when
    [n < 0]; with [ErrShape] when storage is given and its length is not [n];
    and without storage returns a vector of length [n] whose elements are
    all zero. *)
Theorem NewVecDense_contract :
  (forall n data s, n < 0 -> NewVecDense n data s = Panic ErrNegativeDimension s) /\
  (forall n d s, 0 <= n -> len d <> n -> NewVecDense n (Some d) s = Panic ErrShape s) /\
  (forall n s, 0 <= n ->
     exists v s', NewVecDense n None s = Ok v s'
                  /\ Len (VecPtr v) s' = Ok n s'
                  /\ elements (VecPtr v) s' = Ok (replicate (Z.to_nat n) F32.zero) s').
Proof.
  split; [|split].
  - intros n data s Hn. unfold NewVecDense.
    apply Z.ltb_lt in Hn. now rewrite Hn.
  - intros n d s Hn Hd. unfold NewVecDense.
    apply Z.ltb_ge in Hn. rewrite Hn. now rewrite neqb_true.
  - intros n s Hn. unfold NewVecDense.
    pose proof Hn as Hn'. apply Z.ltb_ge in Hn'. rewrite Hn'.
    unfold bind, make. rewrite Hn'. unfold newVec. cbn [arrays vecs].
    eexists _, _. split; [reflexivity|].
    set (h := mkVecDense (mkBlasVector 1 (mkSlice (length (arrays s)) 0 n n)) n).
    assert (Hp : vecs (mkState (arrays s ++ [replicate (Z.to_nat n) F32.zero]) (vecs s ++ [h]))
                 !! length (vecs s) = Some h).
    { cbn [vecs]. rewrite lookup_app_r by lia. now rewrite Nat.sub_diag. }
    assert (HL : forall s0, vecs s0 !! length (vecs s) = Some h ->
                 Len (VecPtr (length (vecs s))) s0 = Ok n s0).
    { intros s0 H0. cbn [Len]. unfold VecDense_Len. step (getVec_ok _ _ _ H0). reflexivity. }
    split; [now apply HL|].
    unfold elements. step (HL _ Hp).
    eapply loop_readFrom_replicate with (arr := replicate (Z.to_nat n) F32.zero);
      try exact Hp; try reflexivity; cbn; try lia.
    + rewrite lookup_app_r by lia. now rewrite Nat.sub_diag.
    + intros j Hj. apply lookup_replicate_2. lia.
Qed.

(** The three cases of C5 at concrete inputs: length -1; length 3 over a
    buffer of length 2; length 2 without storage. *)
Lemma NewVecDense_contract_witness :
  NewVecDense (-1) None emptyState = Panic ErrNegativeDimension emptyState
  /\ NewVecDense 3 (Some (mkSlice 0 0 2 2)) (mkState [[F32.one; F32.one]] [])
     = Panic ErrShape (mkState [[F32.one; F32.one]] [])
  /\ exists v s', NewVecDense 2 None emptyState = Ok v s'
                  /\ Len (VecPtr v) s' = Ok 2 s'
                  /\ elements (VecPtr v) s' = Ok [F32.zero; F32.zero] s'.
Proof.
  destruct NewVecDense_contract as (H1 & H2 & H3).
  refine (conj (H1 _ _ _ _) (conj (H2 _ _ _ _ _) (H3 2 emptyState _))); cbn; lia.
Defined.

(** ** Shape errors come first (C4) *)



(** ** Zero-length results (C10) *)

Lemma reuseAs_zero (v : ptr) (s : State) : reuseAs v 0 s = Panic ErrZeroLength s.
Proof. reflexivity. Qed.

(** C10.  Every operation that sizes its receiver through [reuseAs] panics
    with [ErrZeroLength] when the result length is 0, whatever the receiver:
    [AddVec], [SubVec], [MulElemVec], [DivElemVec] on two operands of length
    0, [ScaleVec] on a source of length 0 other than the receiver, and, once
    the overlap checks that come before [reuseAs] have passed,
    [AddScaledVec] and [MulVec]. *)
Theorem zero_length_panics (X : Extern) (v : ptr) (a b : Vector) (s : State) :
  Len a s = Ok 0 s ->
  Len b s = Ok 0 s ->
  AddVec X v a b s = Panic ErrZeroLength s
  /\ SubVec X v a b s = Panic ErrZeroLength s
  /\ MulElemVec X v a b s = Panic ErrZeroLength s
  /\ DivElemVec X v a b s = Panic ErrZeroLength s
  /\ (forall alpha, is_ptr v a = false -> ScaleVec X v alpha a s = Panic ErrZeroLength s)
  /\ (forall alpha am bm,
        rawOperand X v a s = Ok am s ->
        rawOperand X v b s = Ok bm s ->
        AddScaledVec X v a alpha b s = Panic ErrZeroLength s)
  /\ (forall m c y bm,
        MDims m s = Ok (0, c) s ->
        Dims y s = Ok (c, 1) s ->
        rawOperand X v y s = Ok bm s ->
        MulVec X v m y s = Panic ErrZeroLength s).
Proof.
  intros Ha Hb.
  assert (HA : AddVec X v a b s = Panic ErrZeroLength s).
  { unfold AddVec. step Ha. step Hb. reflexivity. }
  assert (HS : SubVec X v a b s = Panic ErrZeroLength s).
  { unfold SubVec. step Ha. step Hb. reflexivity. }
  repeat split; try assumption.
  - unfold MulElemVec. step Ha. step Hb. reflexivity.
  - unfold DivElemVec. step Ha. step Hb. reflexivity.
  - intros alpha Hv. unfold ScaleVec. step Ha. rewrite Hv. reflexivity.
  - intros alpha am bm Hra Hrb. unfold AddScaledVec.
    destruct (F32.eqb alpha F32.one); [exact HA|].
    destruct (F32.eqb alpha F32.neg_one); [exact HS|].
    step Ha. step Hb. cbn [Z.eqb negb]. step Hra. step Hrb. reflexivity.
  - intros m c y bm Hm Hd Hr. unfold MulVec. step Hm. step Hd.
    rewrite Z.eqb_refl. change (negb true || negb (1 =? 1)) with false.
    destruct (untransposeM m) as [aU trans]. cbv beta iota. step Hr. reflexivity.
Qed.

(** C10 on two vectors of length 0 built without storage, with a zero-size
    receiver, and on a 0x0 matrix. *)
Lemma zero_length_panics_witness :
  let a := VecPtr 0%nat in
  let b := VecPtr 1%nat in
  AddVec plainExtern 2%nat a b store_0_0 = Panic ErrZeroLength store_0_0
  /\ SubVec plainExtern 2%nat a b store_0_0 = Panic ErrZeroLength store_0_0
  /\ MulElemVec plainExtern 2%nat a b store_0_0 = Panic ErrZeroLength store_0_0
  /\ DivElemVec plainExtern 2%nat a b store_0_0 = Panic ErrZeroLength store_0_0
  /\ ScaleVec plainExtern 2%nat (F32.of_Z 2) a store_0_0 = Panic ErrZeroLength store_0_0
  /\ AddScaledVec plainExtern 2%nat a (F32.of_Z 2) b store_0_0 = Panic ErrZeroLength store_0_0
  /\ MulVec plainExtern 2%nat (OtherMat 0 0 (fun _ _ => F32.one)) b store_0_0
     = Panic ErrZeroLength store_0_0.
Proof.
  intros a b.
  destruct (zero_length_panics plainExtern 2%nat a b store_0_0)
    as (H1 & H2 & H3 & H4 & H5 & H6 & H7); [reflexivity|reflexivity|].
  refine (conj H1 (conj H2 (conj H3 (conj H4 (conj (H5 _ _) (conj _ _)))))).
  - reflexivity.
  - eapply H6; reflexivity.
  - eapply (H7 _ 0 b); reflexivity.
Defined.

(** ** Cells: reading and writing the store *)

Lemma index_get (d : Slice) (i : Z) (s : State) (x : f32) :
  in_range d i = true ->
  0 <= off d ->
  get_cell s (base d) (off d + i) = Some x ->
  index d i s = Ok x s.
Proof.
  unfold index, get_cell. intros Hr Ho.
  rewrite Hr. unfold in_range in Hr. apply andb_true_iff in Hr as [H0 _].
  apply Z.leb_le in H0.
  replace (off d + i <? 0) with false by (symmetry; apply Z.ltb_ge; lia).
  destruct (arrays s !! base d) as [arr|]; [|discriminate].
  now intros ->.
Qed.

Lemma store_get (d : Slice) (i : Z) (x : f32) (s : State) :
  in_range d i = true ->
  0 <= off d ->
  is_Some (get_cell s (base d) (off d + i)) ->
  exists s', store d i x s = Ok tt s'
             /\ vecs s' = vecs s
             /\ length (arrays s') = length (arrays s)
             /\ get_cell s' (base d) (off d + i) = Some x
             /\ (forall b p, b <> base d \/ p <> off d + i ->
                   get_cell s' b p = get_cell s b p).
Proof.
  unfold store, get_cell. intros Hr Ho [y Hy].
  rewrite Hr. unfold in_range in Hr. apply andb_true_iff in Hr as [H0 _].
  apply Z.leb_le in H0.
  replace (off d + i <? 0) with false in * by (symmetry; apply Z.ltb_ge; lia).
  destruct (arrays s !! base d) as [arr|] eqn:Harr; [|discriminate].
  pose proof (lookup_lt_Some _ _ _ Hy) as Hlt.
  pose proof (lookup_lt_Some _ _ _ Harr) as Hb.
  replace (Z.to_nat (off d + i) <? length arr)%nat with true
    by (symmetry; apply Nat.ltb_lt; exact Hlt).
  eexists. split; [reflexivity|]. cbn [vecs arrays].
  split; [reflexivity|]. split; [apply length_insert|]. split.
  - rewrite list_lookup_insert_eq by exact Hb.
    now rewrite list_lookup_insert_eq by exact Hlt.
  - intros b p Hbp. destruct (p <? 0) eqn:Hp; [reflexivity|].
    apply Z.ltb_ge in Hp.
    destruct (decide (b = base d)) as [->|Hne].
    + rewrite list_lookup_insert_eq by exact Hb. rewrite Harr.
      rewrite list_lookup_insert_ne; [reflexivity|].
      destruct Hbp as [Hbp|Hbp]; [congruence|]. lia.
    + rewrite list_lookup_insert_ne by congruence. reflexivity.
Qed.

Lemma after_writes_start s0 bd pos val : after_writes s0 bd pos val 0 s0.
Proof. repeat split; intros; try lia; auto. Qed.

(** One more write, at the next cell. *)
Lemma after_writes_next s0 bd pos val k s s' :
  0 <= k ->
  (forall j, 0 <= j < k -> pos j <> pos k) ->
  after_writes s0 bd pos val k s ->
  is_Some (get_cell s bd (pos k)) ->
  vecs s' = vecs s ->
  get_cell s' bd (pos k) = Some (val k) ->
  (forall b p, b <> bd \/ p <> pos k -> get_cell s' b p = get_cell s b p) ->
  after_writes s0 bd pos val (k + 1) s'.
Proof.
  intros Hk Hinj (Hv & Hw & Hf & Hd) Hsome Hv' Hk' Hf'. split; [congruence|]. split; [|split].
  - intros j Hj. destruct (decide (j = k)) as [->|Hne]; [exact Hk'|].
    rewrite Hf' by (right; apply Hinj; lia). apply Hw. lia.
  - intros b p Hbp. rewrite Hf'.
    + apply Hf. destruct Hbp as [Hb|Hp]; [now left|right]. intros j Hj. apply Hp. lia.
    + destruct Hbp as [Hb|Hp]; [now left|right]. apply Hp. lia.
  - intros b p. rewrite <- Hd.
    destruct (decide (b = bd)) as [->|Hb]; [|now rewrite Hf' by now left].
    destruct (decide (p = pos k)) as [->|Hp]; [|now rewrite Hf' by now right].
    rewrite Hk'. split; eauto.
Qed.

(** A loop whose [k]-th round writes [val k] into cell [pos k], and nothing
    else, runs to the end and leaves exactly those writes. *)
Lemma loop_writes (body : Z -> M unit) s0 bd pos val (m : nat) (k : Z) s :
  0 <= k ->
  (forall i j, 0 <= i < j -> j < k + Z.of_nat m -> pos i <> pos j) ->
  (forall i s1, k <= i < k + Z.of_nat m -> after_writes s0 bd pos val i s1 ->
     exists s2, body i s1 = Ok tt s2
                /\ is_Some (get_cell s1 bd (pos i))
                /\ vecs s2 = vecs s1
                /\ get_cell s2 bd (pos i) = Some (val i)
                /\ (forall b p, b <> bd \/ p <> pos i -> get_cell s2 b p = get_cell s1 b p)) ->
  after_writes s0 bd pos val k s ->
  exists s', loop m k tt (fun i _ => body i) s = Ok tt s'
             /\ after_writes s0 bd pos val (k + Z.of_nat m) s'.
Proof.
  revert k s. induction m as [|m IH]; intros k s Hk Hinj Hbody HR.
  - exists s. split; [reflexivity|]. now rewrite Z.add_0_r.
  - destruct (Hbody k s ltac:(lia) HR) as (s2 & Hb & Hsome & Hv & Hc & Hf).
    cbn [loop]. rewrite (bind_ok _ _ _ _ _ Hb).
    destruct (IH (k + 1) s2) as (s' & Hl & HR').
    + lia.
    + intros i j Hij Hj. apply Hinj; lia.
    + intros i s1 Hi. apply Hbody. lia.
    + eapply after_writes_next; eauto. intros j Hj. apply Hinj; lia.
    + exists s'. split; [exact Hl|].
      replace (k + Z.of_nat (S m)) with (k + 1 + Z.of_nat m) by lia. exact HR'.
Qed.

Lemma for_range_writes (body : Z -> M unit) s0 bd pos val (n : Z) :
  0 <= n ->
  (forall i j, 0 <= i < j -> j < n -> pos i <> pos j) ->
  (forall i s1, 0 <= i < n -> after_writes s0 bd pos val i s1 ->
     exists s2, body i s1 = Ok tt s2
                /\ is_Some (get_cell s1 bd (pos i))
                /\ vecs s2 = vecs s1
                /\ get_cell s2 bd (pos i) = Some (val i)
                /\ (forall b p, b <> bd \/ p <> pos i -> get_cell s2 b p = get_cell s1 b p)) ->
  exists s', for_range n body s0 = Ok tt s' /\ after_writes s0 bd pos val n s'.
Proof.
  intros Hn Hinj Hbody. unfold for_range.
  destruct (loop_writes body s0 bd pos val (Z.to_nat n) 0 s0) as (s' & Hl & HR).
  - lia.
  - intros i j Hij Hj. apply Hinj; lia.
  - intros i s1 Hi. apply Hbody. lia.
  - apply after_writes_start.
  - exists s'. split; [exact Hl|]. now replace n with (0 + Z.of_nat (Z.to_nat n)) by lia.
Qed.

(** ** Reading operands while the receiver is being written *)

Lemma nth_val_lookup (l : list f32) (k : Z) :
  0 <= k < Z.of_nat (length l) -> l !! Z.to_nat k = Some (nth_val l k).
Proof.
  intros Hk. unfold nth_val.
  destruct (lookup_lt_is_Some_2 l (Z.to_nat k) ltac:(lia)) as [x Hx].
  now rewrite Hx.
Qed.

Lemma wf_in_range s h k :
  wf_vec s h -> 0 <= k < vn h -> in_range (Data (mat h)) (k * Inc (mat h)) = true.
Proof.
  intros [Hi Hn Hl Ho Hc _] Hk. unfold in_range. rewrite Hl.
  apply andb_true_iff. split; [apply Z.leb_le|apply Z.ltb_lt]; nia.
Qed.

Lemma wf_cell_some s h k :
  wf_vec s h -> 0 <= k < vn h ->
  is_Some (get_cell s (base (Data (mat h))) (cell h k)).
Proof.
  intros [Hi Hn Hl Ho Hc Hcells] Hk. apply Hcells. unfold cell. nia.
Qed.

Lemma cell_inj h j k : 1 <= Inc (mat h) -> j <> k -> cell h j <> cell h k.
Proof. unfold cell. intros Hi Hne. nia. Qed.

(** The raw read of element [k] of a dense operand. *)
Lemma raw_read_after s0 hv val k s q h l i :
  vecs s0 !! q = Some h ->
  holds s0 (VecPtr q) l ->
  reads_ahead s0 hv (VecPtr q) ->
  after_writes s0 (base (Data (mat hv))) (cell hv) val k s ->
  0 <= k < Z.of_nat (length l) ->
  i = k * Inc (mat h) ->
  index (Data (mat h)) i s = Ok (nth_val l k) s.
Proof.
  intros Hq (h' & Hq' & Hwf & Hn & Hc) (h'' & Hq'' & Hz) (Hv & Hw & Hf & _) Hk ->.
  assert (h' = h) by congruence. assert (h'' = h) by congruence. subst h' h''.
  apply index_get.
  - eapply wf_in_range; eauto. lia.
  - apply Hwf.
  - change (off (Data (mat h)) + k * Inc (mat h)) with (cell h k).
    rewrite Hf.
    + replace k with (Z.of_nat (Z.to_nat k)) at 1 by lia.
      apply Hc. apply nth_val_lookup. lia.
    + destruct Hz as [Hb|Hz]; [now left|right].
      intros j Hj. apply Hz; lia.
Qed.

(** [a.AtVec(k)] while cells [0..k-1] of the receiver have been written. *)
Lemma AtVec_after s0 hv val k s a l :
  holds s0 a l ->
  reads_ahead s0 hv a ->
  after_writes s0 (base (Data (mat hv))) (cell hv) val k s ->
  0 <= k < Z.of_nat (length l) ->
  AtVec a k s = Ok (nth_val l k) s.
Proof.
  induction a as [q|x IH|vals]; intros Hh Hz HR Hk.
  - pose proof Hh as (h & Hq & Hwf & Hn & Hc).
    cbn [AtVec]. unfold VecDense_AtVec.
    assert (Hg : getVec q s = Ok h s).
    { apply getVec_ok. destruct HR as (Hv & _). now rewrite Hv. }
    step Hg.
    replace ((k <? 0) || (vn h <=? k)) with false
      by (symmetry; apply orb_false_iff; split; [apply Z.ltb_ge|apply Z.leb_gt]; lia).
    unfold at_. step Hg. eapply raw_read_after; eauto.
  - cbn [AtVec]. apply IH; assumption.
  - cbn in Hh. subst vals. cbn [AtVec]. unfold OtherVec_AtVec.
    replace (k <? 0) with false by (symmetry; apply Z.ltb_ge; lia).
    now rewrite nth_val_lookup.
Qed.

Lemma Len_ptr s v h : vecs s !! v = Some h -> Len (VecPtr v) s = Ok (vn h) s.
Proof.
  intros Hv. cbn [Len]. unfold VecDense_Len. step (getVec_ok _ _ _ Hv). reflexivity.
Qed.

Lemma Len_holds s a l : holds s a l -> Len a s = Ok (Z.of_nat (length l)) s.
Proof.
  induction a as [q|x IH|vals]; intros Hh.
  - destruct Hh as (h & Hq & _ & Hn & _). rewrite <- Hn. now apply Len_ptr.
  - cbn [Len]. now apply IH.
  - cbn in Hh. now subst.
Qed.

(** The write of element [k] of the receiver, through its data. *)
Lemma store_after s0 hv val k s i x :
  wf_vec s0 hv ->
  after_writes s0 (base (Data (mat hv))) (cell hv) val k s ->
  0 <= k < vn hv ->
  i = k * Inc (mat hv) ->
  exists s2, store (Data (mat hv)) i x s = Ok tt s2
             /\ is_Some (get_cell s (base (Data (mat hv))) (cell hv k))
             /\ vecs s2 = vecs s
             /\ get_cell s2 (base (Data (mat hv))) (cell hv k) = Some x
             /\ (forall b p, b <> base (Data (mat hv)) \/ p <> cell hv k ->
                   get_cell s2 b p = get_cell s b p).
Proof.
  intros Hwf (Hv & Hw & Hf & _) Hk ->.
  assert (Hsome : is_Some (get_cell s (base (Data (mat hv))) (cell hv k))).
  { rewrite Hf; [eapply wf_cell_some; eauto|].
    right. intros j Hj. apply cell_inj; [apply Hwf|lia]. }
  destruct (store_get (Data (mat hv)) (k * Inc (mat hv)) x s) as (s2 & Hs & Hv2 & _ & Hc & Hfr).
  - eapply wf_in_range; eauto.
  - apply Hwf.
  - exact Hsome.
  - exists s2. repeat split; assumption.
Qed.

Lemma setVec_after s0 v hv val k s x :
  vecs s0 !! v = Some hv ->
  wf_vec s0 hv ->
  after_writes s0 (base (Data (mat hv))) (cell hv) val k s ->
  0 <= k < vn hv ->
  exists s2, setVec v k x s = Ok tt s2
             /\ is_Some (get_cell s (base (Data (mat hv))) (cell hv k))
             /\ vecs s2 = vecs s
             /\ get_cell s2 (base (Data (mat hv))) (cell hv k) = Some x
             /\ (forall b p, b <> base (Data (mat hv)) \/ p <> cell hv k ->
                   get_cell s2 b p = get_cell s b p).
Proof.
  intros Hv Hwf HR Hk. unfold setVec.
  assert (Hg : getVec v s = Ok hv s).
  { apply getVec_ok. destruct HR as (Hvs & _). now rewrite Hvs. }
  step Hg. eapply store_after; eauto.
Qed.

(** ** Reading the result back *)

Lemma readFrom_ok a (f : Z -> f32) (k : nat) (i : Z) s :
  (forall j, i <= j < i + Z.of_nat k -> AtVec a j s = Ok (f j) s) ->
  readFrom a k i s = Ok (map f (seqZ i (Z.of_nat k))) s.
Proof.
  revert i. induction k as [|k IH]; intros i H; [reflexivity|].
  cbn [readFrom]. step (H i ltac:(lia)).
  assert (Hrest : readFrom a k (i + 1) s = Ok (map f (seqZ (i + 1) (Z.of_nat k))) s)
    by (apply IH; intros j Hj; apply H; lia).
  step Hrest.
  replace (Z.of_nat (S k)) with (Z.succ (Z.of_nat k)) by lia.
  rewrite (seqZ_cons i) by lia.
  replace (Z.pred (Z.succ (Z.of_nat k))) with (Z.of_nat k) by lia.
  now replace (Z.succ i) with (i + 1) by lia.
Qed.

Lemma map_nth_val (l : list f32) : map (nth_val l) (seqZ 0 (Z.of_nat (length l))) = l.
Proof.
  apply list_eq. intros i. rewrite list_lookup_fmap.
  destruct (decide (i < length l)%nat) as [Hi|Hi].
  - rewrite lookup_seqZ_lt by lia. cbn. rewrite Z.add_0_l.
    rewrite <- (nth_val_lookup l (Z.of_nat i)) by lia. now rewrite Nat2Z.id.
  - rewrite lookup_seqZ_ge by lia. cbn. symmetry. apply lookup_ge_None. lia.
Qed.

(** After all [n] cells of the receiver have been written, it reads back as
    the written values. *)
Lemma elements_after s0 v hv val s :
  vecs s0 !! v = Some hv ->
  wf_vec s0 hv ->
  after_writes s0 (base (Data (mat hv))) (cell hv) val (vn hv) s ->
  elements (VecPtr v) s = Ok (map val (seqZ 0 (vn hv))) s.
Proof.
  intros Hv Hwf (Hvs & Hw & Hf & _). unfold elements.
  assert (Hg : getVec v s = Ok hv s) by (apply getVec_ok; now rewrite Hvs).
  step (Len_ptr s v hv ltac:(now rewrite Hvs)).
  rewrite <- (Z2Nat.id (vn hv)) at 2 by (destruct Hwf; lia).
  apply readFrom_ok. intros j Hj.
  cbn [AtVec]. unfold VecDense_AtVec. step Hg.
  replace ((j <? 0) || (vn hv <=? j)) with false
    by (symmetry; apply orb_false_iff; split; [apply Z.ltb_ge|apply Z.leb_gt]; lia).
  unfold at_. step Hg. apply index_get.
  - eapply wf_in_range; eauto. lia.
  - apply Hwf.
  - apply Hw. lia.
Qed.

(** ** Sizing the receiver *)

Lemma get_cell_app s b p arr :
  (b < length (arrays s))%nat ->
  get_cell (mkState (arrays s ++ [arr]) (vecs s)) b p = get_cell s b p.
Proof.
  intros Hb. unfold get_cell. cbn [arrays]. now rewrite lookup_app_l by exact Hb.
Qed.

Lemma get_cell_app_alloc s b p arr h :
  (b < length (arrays s))%nat ->
  get_cell (mkState (arrays s ++ [arr]) (vecs s ++ [h])) b p = get_cell s b p.
Proof.
  intros Hb. unfold get_cell. cbn [arrays]. now rewrite lookup_app_l by exact Hb.
Qed.

Lemma wf_base_lt s h : wf_vec s h -> (base (Data (mat h)) < length (arrays s))%nat.
Proof.
  intros [Hi Hn Hl Ho Hc Hcells].
  destruct (Hcells (off (Data (mat h))) ltac:(nia)) as [x Hx].
  unfold get_cell in Hx. destruct (off (Data (mat h)) <? 0); [discriminate|].
  destruct (arrays s !! base (Data (mat h))) as [arr|] eqn:Harr; [|discriminate].
  eapply lookup_lt_Some; eauto.
Qed.

Lemma reuseAs_sized v hv n s :
  vecs s !! v = Some hv ->
  1 <= n ->
  Inc (mat hv) = 0 \/ (wf_vec s hv /\ vn hv = n) ->
  exists s1, reuseAs v n s = Ok tt s1 /\ resized s v hv n s1.
Proof.
  intros Hv Hn Hcase. unfold resized, reuseAs, sized.
  replace (n =? 0) with false by (symmetry; apply Z.eqb_neq; lia).
  unfold IsZero. unfold bind at 1. unfold bind at 1. rewrite (getVec_ok _ _ _ Hv).
  cbn [ret]. step (getVec_ok _ _ _ Hv).
  destruct (Inc (mat hv) =? 0) eqn:Hz.
  - unfold use, make, bind. replace (n <? 0) with false by (symmetry; apply Z.ltb_ge; lia).
    unfold putVec. cbn [vecs arrays]. rewrite Hv.
    pose proof (lookup_lt_Some _ _ _ Hv) as Hlt.
    eexists. split; [reflexivity|]. cbn [vecs arrays].
    split; [now apply list_lookup_insert_eq|]. split.
    { constructor; cbn; try lia.
      intros p Hp. unfold get_cell. cbn [arrays].
      replace (p <? 0) with false by (symmetry; apply Z.ltb_ge; lia).
      rewrite lookup_app_r by lia. rewrite Nat.sub_diag. cbn.
      apply lookup_lt_is_Some_2. rewrite length_replicate. lia. }
    split; [reflexivity|]. split.
    { intros q h Hq Hh. now rewrite list_lookup_insert_ne by congruence. }
    split; [intros b p Hb; unfold get_cell; cbn [arrays]; now rewrite lookup_app_l by exact Hb|].
    split; [intros b arr Hb; apply lookup_app_l_Some; exact Hb|].
    split; [reflexivity|]. intros Hne. apply Z.eqb_eq in Hz. contradiction.
  - apply Z.eqb_neq in Hz. destruct Hcase as [Hc|(Hwf & Hvn)]; [contradiction|].
    replace (negb (n =? vn hv)) with false
      by (symmetry; apply negb_false_iff, Z.eqb_eq; lia).
    exists s. repeat split; auto; try apply Hwf. contradiction.
Qed.

Lemma holds_not_zero_size s v hv q h :
  vecs s !! v = Some hv -> Inc (mat hv) = 0 ->
  vecs s !! q = Some h -> wf_vec s h -> q <> v.
Proof.
  intros Hv Hz Hq Hwf ->. assert (h = hv) by congruence. subst h. destruct Hwf. lia.
Qed.

(** Sizing the receiver leaves the operands as they were. *)
Lemma holds_resized s s1 v hv n a l :
  vecs s !! v = Some hv ->
  resized s v hv n s1 ->
  holds s a l -> holds s1 a l.
Proof.
  intros Hv (_ & _ & _ & Hq & Hc & Harr & _ & Hs).
  induction a as [q|x IH|vals]; cbn [holds]; [|exact IH|auto].
  intros (h & Hh & Hwf & Hn & Hcells).
  destruct (decide (Inc (mat hv) = 0)) as [Hz|Hnz]; [|rewrite (Hs Hnz); eauto].
  pose proof (holds_not_zero_size s v hv q h Hv Hz Hh Hwf) as Hne.
  exists h. split; [now apply Hq|]. split.
  - pose proof (wf_base_lt _ _ Hwf) as Hlt.
    destruct Hwf as [? ? ? ? ? Hcs]. constructor; auto.
    intros p Hp. rewrite Hc by exact Hlt. now apply Hcs.
  - split; [exact Hn|]. intros k x Hk. rewrite Hc; [now apply Hcells|].
    now apply wf_base_lt.
Qed.

Lemma reads_ahead_self s v hv :
  vecs s !! v = Some hv -> 1 <= Inc (mat hv) -> reads_ahead s hv (VecPtr v).
Proof.
  intros Hv Hi. exists hv. split; [exact Hv|right].
  intros j k Hj Hk. apply cell_inj; [exact Hi|lia].
Qed.

(** ... and readable all through a loop that fills the receiver in order. *)
Lemma reads_ahead_resized s s1 v hv n a l :
  vecs s !! v = Some hv ->
  resized s v hv n s1 ->
  n = Z.of_nat (length l) ->
  holds s a l ->
  fits s hv a n ->
  reads_ahead s1 (sized s hv n) a.
Proof.
  intros Hv (_ & _ & Hvn & Hq & _ & _ & Hfresh & Hs) Hn.
  induction a as [q|x IH|vals]; cbn [holds reads_ahead]; [| |auto].
  - intros (h & Hh & Hwf & Hnh & _) Hfit.
    destruct Hfit as [Hz|(Hwfv & Hvnv & (h' & Hh' & Hap))].
    + pose proof (holds_not_zero_size s v hv q h Hv Hz Hh Hwf) as Hne.
      exists h. split; [now apply Hq|]. left. rewrite (Hfresh Hz).
      pose proof (wf_base_lt _ _ Hwf). lia.
    + assert (Hnz : Inc (mat hv) <> 0) by (destruct Hwfv; lia).
      rewrite (Hs Hnz). assert (h' = h) by congruence. subst h'.
      exists h. split; [exact Hh|]. unfold sized.
      replace (Inc (mat hv) =? 0) with false by (symmetry; now apply Z.eqb_neq).
      destruct Hap as [Hb|Hap]; [now left|right].
      intros j k Hj Hk. apply Hap; lia.
  - intros Hh Hfit. apply IH; auto.
Qed.

(** ** Loops that fill the receiver element by element *)

Lemma fill_loop1 (rd : Z -> M f32) (wr : Z -> f32 -> M unit) (g : f32 -> f32)
    s0 hv (src : Z -> f32) n :
  wf_vec s0 hv ->
  vn hv = n ->
  (forall k s, 0 <= k < n ->
     after_writes s0 (base (Data (mat hv))) (cell hv) (fun i => g (src i)) k s ->
     rd k s = Ok (src k) s) ->
  (forall k s x, 0 <= k < n ->
     after_writes s0 (base (Data (mat hv))) (cell hv) (fun i => g (src i)) k s ->
     exists s2, wr k x s = Ok tt s2
                /\ is_Some (get_cell s (base (Data (mat hv))) (cell hv k))
                /\ vecs s2 = vecs s
                /\ get_cell s2 (base (Data (mat hv))) (cell hv k) = Some x
                /\ (forall b p, b <> base (Data (mat hv)) \/ p <> cell hv k ->
                      get_cell s2 b p = get_cell s b p)) ->
  exists s', for_range n (fun i => let* x := rd i in wr i (g x)) s0 = Ok tt s'
             /\ after_writes s0 (base (Data (mat hv))) (cell hv) (fun i => g (src i)) n s'.
Proof.
  intros Hwf Hn Hrd Hwr. apply for_range_writes.
  - destruct Hwf; lia.
  - intros i j Hij Hj. apply cell_inj; [apply Hwf|lia].
  - intros i s1 Hi HR. step (Hrd i s1 Hi HR). apply Hwr; assumption.
Qed.

Lemma fill_loop2 (rd1 rd2 : Z -> M f32) (wr : Z -> f32 -> M unit) (g : f32 -> f32 -> f32)
    s0 hv (src1 src2 : Z -> f32) n :
  wf_vec s0 hv ->
  vn hv = n ->
  (forall k s, 0 <= k < n ->
     after_writes s0 (base (Data (mat hv))) (cell hv) (fun i => g (src1 i) (src2 i)) k s ->
     rd1 k s = Ok (src1 k) s /\ rd2 k s = Ok (src2 k) s) ->
  (forall k s x, 0 <= k < n ->
     after_writes s0 (base (Data (mat hv))) (cell hv) (fun i => g (src1 i) (src2 i)) k s ->
     exists s2, wr k x s = Ok tt s2
                /\ is_Some (get_cell s (base (Data (mat hv))) (cell hv k))
                /\ vecs s2 = vecs s
                /\ get_cell s2 (base (Data (mat hv))) (cell hv k) = Some x
                /\ (forall b p, b <> base (Data (mat hv)) \/ p <> cell hv k ->
                      get_cell s2 b p = get_cell s b p)) ->
  exists s', for_range n (fun i => let* x := rd1 i in let* y := rd2 i in wr i (g x y)) s0
             = Ok tt s'
             /\ after_writes s0 (base (Data (mat hv))) (cell hv)
                  (fun i => g (src1 i) (src2 i)) n s'.
Proof.
  intros Hwf Hn Hrd Hwr. apply for_range_writes.
  - destruct Hwf; lia.
  - intros i j Hij Hj. apply cell_inj; [apply Hwf|lia].
  - intros i s1 Hi HR. destruct (Hrd i s1 Hi HR) as [H1 H2].
    step H1. step H2. apply Hwr; assumption.
Qed.

Lemma map_nth_val_fun (g : f32 -> f32) (l : list f32) :
  map (fun k => g (nth_val l k)) (seqZ 0 (Z.of_nat (length l))) = map g l.
Proof.
  transitivity (map g (map (nth_val l) (seqZ 0 (Z.of_nat (length l))))).
  - now rewrite map_map.
  - now rewrite map_nth_val.
Qed.

Lemma is_ptr_true v a : is_ptr v a = true -> a = VecPtr v.
Proof.
  destruct a; cbn; try discriminate. intros H. apply Nat.eqb_eq in H. now subst.
Qed.

Lemma length_pos_Z (l : list f32) : l <> [] -> 1 <= Z.of_nat (length l).
Proof. destruct l; [congruence|cbn; lia]. Qed.

(** ** ScaleVec (C8) *)

Lemma ScaleVec_spec (X : Extern) v hv a l alpha s :
  vecs s !! v = Some hv ->
  holds s a l ->
  l <> [] ->
  is_ptr v a = true
  \/ (is_ptr v a = false
      /\ fits s hv a (Z.of_nat (length l))
      /\ check_passes X s (sized s hv (Z.of_nat (length l))) a) ->
  exists s', ScaleVec X v alpha a s = Ok tt s'
             /\ elements (VecPtr v) s' = Ok (map (F32.mul alpha) l) s'.
Proof.
  intros Hv Hh Hl Hcase. set (n := Z.of_nat (length l)) in *.
  assert (Hn : 1 <= n) by now apply length_pos_Z.
  unfold ScaleVec. step (Len_holds _ _ _ Hh). fold n.
  destruct Hcase as [Hp|(Hp & Hfit & Hchk)]; rewrite Hp.
  - (* in place *)
    apply is_ptr_true in Hp. subst a.
    pose proof Hh as (h & Hq & Hwf & Hvn & Hc). assert (h = hv) by congruence. subst h.
    step (getVec_ok _ _ _ Hv).
    assert (Hra : reads_ahead s hv (VecPtr v)) by (apply reads_ahead_self; [exact Hv|apply Hwf]).
    assert (exists s', (if Inc (mat hv) =? 1 then ScalUnitary alpha (Data (mat hv))
                        else ScalInc alpha (Data (mat hv)) n (Inc (mat hv))) s = Ok tt s'
              /\ after_writes s (base (Data (mat hv))) (cell hv)
                   (fun i => F32.mul (nth_val l i) alpha) n s') as (s' & Hrun & HR).
    { destruct (Inc (mat hv) =? 1) eqn:Hinc.
      - apply Z.eqb_eq in Hinc. unfold ScalUnitary.
        replace (len (Data (mat hv))) with n by (destruct Hwf; lia).
        apply (fill_loop1 (fun i => index (Data (mat hv)) i)
                 (fun i x => store (Data (mat hv)) i x) (fun x => F32.mul x alpha)
                 s hv (nth_val l) n Hwf ltac:(lia)).
        + intros k s1 Hk HR. apply (raw_read_after s hv _ k s1 v hv l _ Hv Hh Hra HR); [lia|nia].
        + intros k s1 x Hk HR. apply (store_after s hv _ k s1 _ x Hwf HR); [lia|nia].
      - unfold ScalInc.
        apply (fill_loop1 (fun i => index (Data (mat hv)) (i * Inc (mat hv)))
                 (fun i x => store (Data (mat hv)) (i * Inc (mat hv)) x)
                 (fun x => F32.mul x alpha) s hv (nth_val l) n Hwf ltac:(lia)).
        + intros k s1 Hk HR. apply (raw_read_after s hv _ k s1 v hv l _ Hv Hh Hra HR); [lia|nia].
        + intros k s1 x Hk HR. apply (store_after s hv _ k s1 _ x Hwf HR); [lia|nia]. }
    exists s'. split; [exact Hrun|].
    rewrite (elements_after s v hv _ s' Hv Hwf) by (rewrite Hvn; exact HR).
    rewrite Hvn. rewrite (map_nth_val_fun (fun x => F32.mul x alpha)).
    f_equal. apply map_ext. intros x. apply F32_mul_comm.
  - (* into a receiver other than the source *)
    destruct (reuseAs_sized v hv n s Hv Hn) as (s1 & Hre & Hrs).
    { destruct Hfit as [Hz|(Hwf & Hvn & _)]; [now left|right; auto]. }
    step Hre.
    pose proof (holds_resized _ _ _ _ _ _ _ Hv Hrs Hh) as Hh1.
    pose proof (reads_ahead_resized _ _ _ _ _ _ _ Hv Hrs eq_refl Hh Hfit) as Hra.
    destruct Hrs as (Hv1 & Hwf1 & Hvn1 & Hq1 & _).
    set (h1 := sized s hv n) in *.
    assert (exists s',
      match rawVectorer a with
      | Some pa =>
          let* amat := RawVector pa in
          checkOverlap X v amat;;
          (let* h := getVec v in
           if (Inc (mat h) =? 1) && (Inc amat =? 1)
           then ScalUnitaryTo (Data (mat h)) alpha (Data amat)
           else ScalIncTo (Data (mat h)) (Inc (mat h)) alpha (Data amat) n (Inc amat))
      | None => for_range n (fun i => let* x := AtVec a i in setVec v i (F32.mul alpha x))
      end s1 = Ok tt s'
      /\ after_writes s1 (base (Data (mat h1))) (cell h1)
           (fun i => F32.mul alpha (nth_val l i)) n s') as (s' & Hrun & HR).
    { destruct a as [q|x|vals]; cbn [rawVectorer].
      - pose proof Hh1 as (h & Hq & Hwf & Hvn & Hc).
        pose proof Hh as (h0 & Hq0 & _).
        assert (Hne : q <> v).
        { intros ->. cbn in Hp. now rewrite Nat.eqb_refl in Hp. }
        assert (h0 = h) by (apply Hq1 in Hq0; [congruence|exact Hne]). subst h0.
        unfold RawVector. unfold bind at 1. unfold bind at 1.
        rewrite (getVec_ok _ _ _ Hq). cbn [ret].
        pose proof (Hchk q h eq_refl Hq0) as Hov. fold h1 in Hov.
        unfold checkOverlap. unfold bind at 1. unfold bind at 1.
        rewrite (getVec_ok _ _ _ Hv1). rewrite Hov. cbn [ret].
        step (getVec_ok _ _ _ Hv1). fold h1.
        destruct ((Inc (mat h1) =? 1) && (Inc (mat h) =? 1)) eqn:Hinc.
        + apply andb_true_iff in Hinc as [Hi1 Hi2].
          apply Z.eqb_eq in Hi1. apply Z.eqb_eq in Hi2. unfold ScalUnitaryTo.
          replace (len (Data (mat h))) with n
            by (destruct Hwf as [? ? Hlen ? ? ?]; rewrite Hlen, Hi2; unfold n; lia).
          apply (fill_loop1 (fun i => index (Data (mat h)) i)
                   (fun i x => store (Data (mat h1)) i x) (fun x => F32.mul alpha x)
                   s1 h1 (nth_val l) n Hwf1 Hvn1).
          * intros k s2 Hk HR. apply (raw_read_after s1 h1 _ k s2 q h l _ Hq Hh1 Hra HR); [lia|nia].
          * intros k s2 x Hk HR. apply (store_after s1 h1 _ k s2 _ x Hwf1 HR); [lia|nia].
        + unfold ScalIncTo.
          apply (fill_loop1 (fun i => index (Data (mat h)) (i * Inc (mat h)))
                   (fun i x => store (Data (mat h1)) (i * Inc (mat h1)) x)
                   (fun x => F32.mul alpha x) s1 h1 (nth_val l) n Hwf1 Hvn1).
          * intros k s2 Hk HR. apply (raw_read_after s1 h1 _ k s2 q h l _ Hq Hh1 Hra HR); [lia|nia].
          * intros k s2 x Hk HR. apply (store_after s1 h1 _ k s2 _ x Hwf1 HR); [lia|nia].
      - apply (fill_loop1 (fun i => AtVec (TransposeVec x) i) (fun i y => setVec v i y)
                 (fun y => F32.mul alpha y) s1 h1 (nth_val l) n Hwf1 Hvn1).
        + intros k s2 Hk HR. apply (AtVec_after s1 h1 _ k s2 _ l Hh1 Hra HR); lia.
        + intros k s2 y Hk HR. apply (setVec_after s1 v h1 _ k s2 y Hv1 Hwf1 HR); lia.
      - apply (fill_loop1 (fun i => AtVec (OtherVec vals) i) (fun i y => setVec v i y)
                 (fun y => F32.mul alpha y) s1 h1 (nth_val l) n Hwf1 Hvn1).
        + intros k s2 Hk HR. apply (AtVec_after s1 h1 _ k s2 _ l Hh1 Hra HR); lia.
        + intros k s2 y Hk HR. apply (setVec_after s1 v h1 _ k s2 y Hv1 Hwf1 HR); lia. }
    exists s'. split; [exact Hrun|].
    rewrite (elements_after s1 v h1 _ s' Hv1 Hwf1) by (rewrite Hvn1; exact HR).
    rewrite Hvn1. unfold n. now rewrite (map_nth_val_fun (fun x => F32.mul alpha x)).
Qed.


Lemma wf_denseHeader s b n arr :
  1 <= n -> arrays s !! b = Some arr -> n <= Z.of_nat (length arr) ->
  wf_vec s (denseHeader b n).
Proof.
  intros Hn Harr Hlen. constructor; cbn; try lia.
  intros p Hp. unfold get_cell.
  replace (p <? 0) with false by (symmetry; apply Z.ltb_ge; lia).
  rewrite Harr. apply lookup_lt_is_Some_2. lia.
Qed.

Lemma holds_store_2_m1 : holds store_2_m1 (VecPtr 0%nat) [F32.of_Z 2; F32.neg_one].
Proof.
  exists (denseHeader 0 2). split; [reflexivity|]. split.
  - eapply wf_denseHeader; [lia|reflexivity|cbn; lia].
  - split; [reflexivity|]. intros [|[|k]] x; cbn; intros H; inversion H; reflexivity.
Qed.



(** ** AddVec (C9) *)

Lemma map_nth_val_fun2 (g : f32 -> f32 -> f32) (la lb : list f32) :
  length la = length lb ->
  map (fun k => g (nth_val la k) (nth_val lb k)) (seqZ 0 (Z.of_nat (length la)))
  = zip_with g la lb.
Proof.
  intros Hlen. apply list_eq. intros i. rewrite list_lookup_fmap, lookup_zip_with.
  destruct (decide (i < length la)%nat) as [Hi|Hi].
  - rewrite lookup_seqZ_lt by lia. cbn. rewrite Z.add_0_l.
    pose proof (nth_val_lookup la (Z.of_nat i) ltac:(lia)) as Ha.
    pose proof (nth_val_lookup lb (Z.of_nat i) ltac:(lia)) as Hb.
    rewrite Nat2Z.id in Ha, Hb. now rewrite Ha, Hb.
  - rewrite lookup_seqZ_ge by lia. cbn.
    now rewrite (proj2 (lookup_ge_None la i)) by lia.
Qed.

(** What sizing the receiver needs, from what is known of an operand. *)
Lemma operand_sizing s v hv a l :
  vecs s !! v = Some hv ->
  holds s a l ->
  operand_fits s v hv (Z.of_nat (length l)) a ->
  Inc (mat hv) = 0 \/ (wf_vec s hv /\ vn hv = Z.of_nat (length l)).
Proof.
  intros Hv Hh [Hp|(_ & [Hz|(Hwf & Hvn & _)])]; [|now left|now right].
  apply is_ptr_true in Hp. subst a. destruct Hh as (h & Hq & Hwf & Hvn & _).
  assert (h = hv) by congruence. subst h. now right.
Qed.

(** An operand after the receiver was sized: it holds what it held, and can
    be read all through the loop that fills the receiver. *)
Lemma operand_ready s s1 v hv a l :
  vecs s !! v = Some hv ->
  resized s v hv (Z.of_nat (length l)) s1 ->
  holds s a l ->
  operand_fits s v hv (Z.of_nat (length l)) a ->
  holds s1 a l /\ reads_ahead s1 (sized s hv (Z.of_nat (length l))) a.
Proof.
  intros Hv Hrs Hh Hok. split; [eapply holds_resized; eauto|].
  destruct Hok as [Hp|(_ & Hfit)]; [|eapply reads_ahead_resized; eauto].
  apply is_ptr_true in Hp. subst a. destruct Hh as (h & Hq & Hwf & Hvn & _).
  assert (h = hv) by congruence. subst h.
  assert (Hnz : Inc (mat hv) <> 0) by (destruct Hwf; lia).
  destruct Hrs as (_ & _ & _ & _ & _ & _ & _ & Hs). rewrite (Hs Hnz).
  unfold sized. replace (Inc (mat hv) =? 0) with false by (symmetry; now apply Z.eqb_neq).
  apply reads_ahead_self; [exact Hv|apply Hwf].
Qed.

(** The header of a dense operand is the same before and after sizing. *)
Lemma header_resized s s1 v hv n q h l :
  vecs s !! v = Some hv ->
  resized s v hv n s1 ->
  holds s (VecPtr q) l ->
  vecs s1 !! q = Some h ->
  vecs s !! q = Some h.
Proof.
  intros Hv (_ & _ & _ & Hq & _ & _ & _ & Hs) (h0 & Hh0 & Hwf & _) Hh1.
  destruct (decide (Inc (mat hv) = 0)) as [Hz|Hnz]; [|now rewrite <- (Hs Hnz)].
  pose proof (holds_not_zero_size s v hv q h0 Hv Hz Hh0 Hwf) as Hne.
  pose proof (Hq q h0 Hne Hh0) as Hh0'. congruence.
Qed.

(** The overlap check that guards a raw operand passes. *)
Lemma check_step X s s1 v hv a l q h :
  vecs s !! v = Some hv ->
  resized s v hv (Z.of_nat (length l)) s1 ->
  holds s a l ->
  operand_checked X s v (sized s hv (Z.of_nat (length l))) a ->
  fst (untranspose a) = VecPtr q ->
  vecs s1 !! q = Some h ->
  (if negb (is_ptr v a) then checkOverlap X v (mat h) else ret tt) s1 = Ok tt s1.
Proof.
  intros Hv Hrs Hh Hok HaU Hq.
  destruct (is_ptr v a) eqn:Hp; [reflexivity|]. cbn [negb].
  destruct Hok as [Hp'|Hchk]; [congruence|].
  assert (Hhq : holds s (VecPtr q) l).
  { destruct a as [p|x|vals]; cbn in HaU; [now inversion HaU; subst|now subst x|discriminate]. }
  pose proof (header_resized _ _ _ _ _ _ _ _ Hv Hrs Hhq Hq) as Hq0.
  unfold checkOverlap. destruct Hrs as (Hv1 & _).
  step (getVec_ok _ _ _ Hv1). rewrite HaU in Hchk.
  now rewrite (Hchk q h eq_refl Hq0).
Qed.

Lemma untranspose_raw a q :
  rawVectorer (fst (untranspose a)) = Some q -> fst (untranspose a) = VecPtr q.
Proof. destruct (fst (untranspose a)); cbn; congruence. Qed.

Lemma holds_untranspose s a l : holds s a l -> holds s (fst (untranspose a)) l.
Proof. destruct a; cbn; auto. Qed.

Lemma reads_ahead_untranspose s hv a :
  reads_ahead s hv a -> reads_ahead s hv (fst (untranspose a)).
Proof. destruct a; cbn; auto. Qed.

Lemma wf_unit_len s h : wf_vec s h -> Inc (mat h) = 1 -> len (Data (mat h)) = vn h.
Proof. intros [_ _ Hl _ _ _] Hi. rewrite Hl, Hi. lia. Qed.

(** The scaled-accumulate kernels, from two dense operands into the
    receiver: element [i] becomes [alpha * b[i] + a[i]]. *)
Lemma axpy_to_spec alpha s1 h1 qa ha la qb hb lb :
  wf_vec s1 h1 ->
  vn h1 = Z.of_nat (length la) ->
  length la = length lb ->
  vecs s1 !! qa = Some ha -> holds s1 (VecPtr qa) la -> reads_ahead s1 h1 (VecPtr qa) ->
  vecs s1 !! qb = Some hb -> holds s1 (VecPtr qb) lb -> reads_ahead s1 h1 (VecPtr qb) ->
  exists s',
    (if (Inc (mat h1) =? 1) && (Inc (mat ha) =? 1) && (Inc (mat hb) =? 1)
     then AxpyUnitaryTo (Data (mat h1)) alpha (Data (mat hb)) (Data (mat ha))
     else AxpyIncTo (Data (mat h1)) (Inc (mat h1)) 0 alpha (Data (mat hb)) (Data (mat ha))
            (Z.of_nat (length la)) (Inc (mat hb)) (Inc (mat ha)) 0 0) s1 = Ok tt s'
    /\ after_writes s1 (base (Data (mat h1))) (cell h1)
         (fun i => F32.add (F32.mul alpha (nth_val lb i)) (nth_val la i))
         (Z.of_nat (length la)) s'.
Proof.
  intros Hwf1 Hvn1 Hlen Hqa Hha Hraa Hqb Hhb Hrab.
  set (n := Z.of_nat (length la)) in *.
  assert (Hwfb : wf_vec s1 hb /\ vn hb = n).
  { destruct Hhb as (h & Hq & Hwf & Hvn & _). assert (h = hb) by congruence. subst h.
    split; [exact Hwf|]. unfold n. lia. }
  destruct Hwfb as [Hwfb Hvnb].
  destruct ((Inc (mat h1) =? 1) && (Inc (mat ha) =? 1) && (Inc (mat hb) =? 1)) eqn:Hinc.
  - apply andb_true_iff in Hinc as [Hinc Hib]. apply andb_true_iff in Hinc as [Hi1 Hia].
    apply Z.eqb_eq in Hi1, Hia, Hib. unfold AxpyUnitaryTo.
    rewrite (wf_unit_len _ _ Hwfb Hib), Hvnb.
    apply (fill_loop2 (fun i => index (Data (mat hb)) i) (fun i => index (Data (mat ha)) i)
             (fun i x => store (Data (mat h1)) i x)
             (fun x y => F32.add (F32.mul alpha x) y)
             s1 h1 (nth_val lb) (nth_val la) n Hwf1 Hvn1).
    + intros k s2 Hk HR. split.
      * apply (raw_read_after s1 h1 _ k s2 qb hb lb _ Hqb Hhb Hrab HR); [lia|nia].
      * apply (raw_read_after s1 h1 _ k s2 qa ha la _ Hqa Hha Hraa HR); [lia|nia].
    + intros k s2 x Hk HR. apply (store_after s1 h1 _ k s2 _ x Hwf1 HR); [lia|nia].
  - unfold AxpyIncTo.
    apply (fill_loop2 (fun i => index (Data (mat hb)) (0 + i * Inc (mat hb)))
             (fun i => index (Data (mat ha)) (0 + i * Inc (mat ha)))
             (fun i x => store (Data (mat h1)) (0 + i * Inc (mat h1)) x)
             (fun x y => F32.add (F32.mul alpha x) y)
             s1 h1 (nth_val lb) (nth_val la) n Hwf1 Hvn1).
    + intros k s2 Hk HR. split.
      * apply (raw_read_after s1 h1 _ k s2 qb hb lb _ Hqb Hhb Hrab HR); [lia|nia].
      * apply (raw_read_after s1 h1 _ k s2 qa ha la _ Hqa Hha Hraa HR); [lia|nia].
    + intros k s2 x Hk HR. apply (store_after s1 h1 _ k s2 _ x Hwf1 HR); [lia|nia].
Qed.

Lemma zip_with_ext_Forall (g g' : f32 -> f32 -> f32) (P : f32 -> Prop) (la lb : list f32) :
  (forall x y, P y -> g x y = g' x y) ->
  Forall P lb ->
  zip_with g la lb = zip_with g' la lb.
Proof.
  intros Hg Hlb. revert la. induction Hlb as [|y lb Hy Hlb IH]; intros [|x la]; cbn; auto.
  now rewrite Hg, IH.
Qed.

(** [AddVec]: the receiver ends up holding [a[i] + b[i]]. *)
Lemma AddVec_spec (X : Extern) v hv a la b lb s :
  vecs s !! v = Some hv ->
  holds s a la ->
  holds s b lb ->
  la <> [] ->
  length la = length lb ->
  Forall F32.valid lb ->
  operand_ok X s v hv (Z.of_nat (length la)) a ->
  operand_ok X s v hv (Z.of_nat (length la)) b ->
  exists s', AddVec X v a b s = Ok tt s'
             /\ elements (VecPtr v) s' = Ok (zip_with F32.add la lb) s'.
Proof.
  intros Hv Hha Hhb Hl Hlen Hval Hoka Hokb.
  pose proof (length_pos_Z la Hl) as Hn.
  unfold AddVec. step (Len_holds _ _ _ Hha). step (Len_holds _ _ _ Hhb).
  rewrite <- Hlen, Z.eqb_refl. cbn [negb].
  destruct Hoka as [Hfa Hca]. destruct Hokb as [Hfb Hcb].
  destruct (reuseAs_sized v hv _ s Hv Hn (operand_sizing s v hv a la Hv Hha Hfa))
    as (s1 & Hre & Hrs).
  step Hre.
  destruct (operand_ready s s1 v hv a la Hv Hrs Hha Hfa) as [Hha1 Hraa].
  assert (Hfb' : operand_fits s v hv (Z.of_nat (length lb)) b) by now rewrite <- Hlen.
  assert (Hcb' : operand_checked X s v (sized s hv (Z.of_nat (length lb))) b)
    by now rewrite <- Hlen.
  assert (Hrs' : resized s v hv (Z.of_nat (length lb)) s1) by now rewrite <- Hlen.
  destruct (operand_ready s s1 v hv b lb Hv Hrs' Hhb Hfb') as [Hhb1 Hrab].
  rewrite <- Hlen in Hrab.
  pose proof Hrs as (Hv1 & Hwf1 & Hvn1 & _).
  set (n := Z.of_nat (length la)) in *. set (h1 := sized s hv n) in *.
  assert (Hslow :
    exists s', for_range n (fun i =>
                 let* x := AtVec a i in let* y := AtVec b i in setVec v i (F32.add x y)) s1
               = Ok tt s'
               /\ elements (VecPtr v) s' = Ok (zip_with F32.add la lb) s').
  { destruct (fill_loop2 (fun i => AtVec a i) (fun i => AtVec b i) (fun i x => setVec v i x)
                F32.add s1 h1 (nth_val la) (nth_val lb) n Hwf1 Hvn1) as (s' & Hrun & HR).
    - intros k s2 Hk HR. split.
      + apply (AtVec_after s1 h1 _ k s2 a la Hha1 Hraa HR). exact Hk.
      + apply (AtVec_after s1 h1 _ k s2 b lb Hhb1 Hrab HR). unfold n in Hk. lia.
    - intros k s2 x Hk HR. apply (setVec_after s1 v h1 _ k s2 x Hv1 Hwf1 HR). lia.
    - exists s'. split; [exact Hrun|].
      rewrite (elements_after s1 v h1 _ s' Hv1 Hwf1) by (rewrite Hvn1; exact HR).
      rewrite Hvn1. unfold n. now rewrite (map_nth_val_fun2 F32.add la lb Hlen). }
  destruct (untranspose a) as [aU ta] eqn:Ea. destruct (untranspose b) as [bU tb] eqn:Eb.
  destruct (rawVectorer aU) as [qa|] eqn:Hqa; [|exact Hslow].
  destruct (rawVectorer bU) as [qb|] eqn:Hqb; [|exact Hslow].
  assert (HaU : fst (untranspose a) = VecPtr qa) by (apply untranspose_raw; now rewrite Ea).
  assert (HbU : fst (untranspose b) = VecPtr qb) by (apply untranspose_raw; now rewrite Eb).
  pose proof (holds_untranspose _ _ _ Hha1) as Hha2. rewrite HaU in Hha2.
  pose proof (holds_untranspose _ _ _ Hhb1) as Hhb2. rewrite HbU in Hhb2.
  pose proof (reads_ahead_untranspose _ _ _ Hraa) as Hraa2. rewrite HaU in Hraa2.
  pose proof (reads_ahead_untranspose _ _ _ Hrab) as Hrab2. rewrite HbU in Hrab2.
  pose proof Hha2 as (ha & Hpa & _). pose proof Hhb2 as (hb & Hpb & _).
  unfold RawVector. unfold bind at 1. unfold bind at 1. rewrite (getVec_ok _ _ _ Hpa).
  cbn [ret]. unfold bind at 1. unfold bind at 1. rewrite (getVec_ok _ _ _ Hpb). cbn [ret].
  step (check_step X s s1 v hv a la qa ha Hv Hrs Hha Hca HaU Hpa).
  step (check_step X s s1 v hv b lb qb hb Hv Hrs' Hhb Hcb' HbU Hpb).
  step (getVec_ok _ _ _ Hv1).
  destruct (axpy_to_spec F32.one s1 h1 qa ha la qb hb lb Hwf1 Hvn1 Hlen
              Hpa Hha2 Hraa2 Hpb Hhb2 Hrab2) as (s' & Hrun & HR).
  exists s'. split; [exact Hrun|].
  rewrite (elements_after s1 v h1 _ s' Hv1 Hwf1) by (rewrite Hvn1; exact HR).
  rewrite Hvn1. unfold n.
  rewrite (map_nth_val_fun2 (fun y x => F32.add (F32.mul F32.one x) y) la lb Hlen).
  f_equal. apply (zip_with_ext_Forall _ _ F32.valid); [|exact Hval].
  intros x y Hy. rewrite (F32_mul_one y Hy). apply F32_add_comm.
Qed.

Lemma zip_add_zeros (l : list f32) :
  zip_with F32.add l (replicate (length l) F32.zero) = map F32.plus_zero l.
Proof.
  induction l as [|x l IH]; [reflexivity|]. cbn [length replicate zip_with map].
  now rewrite F32_add_zero_r, IH.
Qed.

(** C9, as the code has it.  For [v] of positive length and [z] the zero
    vector of that length, the self-aliased [v.AddVec(v, z)] leaves every
    element of [v] other than -0 as it was; an element -0 becomes +0. *)
Theorem AddVec_self_zero (X : Extern) v hv z l s :
  vecs s !! v = Some hv ->
  holds s (VecPtr v) l ->
  l <> [] ->
  holds s z (replicate (length l) F32.zero) ->
  operand_ok X s v hv (Z.of_nat (length l)) z ->
  exists s', AddVec X v (VecPtr v) z s = Ok tt s'
             /\ elements (VecPtr v) s' = Ok (map F32.plus_zero l) s'
             /\ (Forall (fun x => x <> F32.neg_zero) l -> map F32.plus_zero l = l).
Proof.
  intros Hv Hh Hl Hz Hok.
  destruct (AddVec_spec X v hv (VecPtr v) l z (replicate (length l) F32.zero) s)
    as (s' & Hrun & Hel); auto.
  - now rewrite length_replicate.
  - apply Forall_replicate. reflexivity.
  - split; left; cbn; apply Nat.eqb_refl.
  - exists s'. split; [exact Hrun|]. rewrite zip_add_zeros in Hel. split; [exact Hel|].
    intros Hnz. rewrite <- (map_id l) at 2. apply map_ext_in. intros x Hx.
    apply plus_zero_id. rewrite Forall_forall in Hnz. apply Hnz. now apply list_elem_of_In.
Qed.

Lemma holds_dense s q b n l arr :
  vecs s !! q = Some (denseHeader b n) ->
  arrays s !! b = Some arr ->
  n = Z.of_nat (length l) ->
  l <> [] ->
  (forall k x, l !! k = Some x -> arr !! k = Some x) ->
  holds s (VecPtr q) l.
Proof.
  intros Hq Harr Hn Hl Hc. exists (denseHeader b n). split; [exact Hq|].
  pose proof (length_pos_Z l Hl) as Hpos.
  assert (Hlen : n <= Z.of_nat (length arr)).
  { destruct (lookup_lt_is_Some_2 l (Z.to_nat (n - 1)) ltac:(lia)) as [x Hx].
    apply Hc in Hx. apply lookup_lt_Some in Hx. lia. }
  split; [eapply wf_denseHeader; eauto; lia|]. split; [exact Hn|].
  intros k x Hk. unfold get_cell, cell. cbn.
  replace (0 + Z.of_nat k * 1 <? 0) with false by (symmetry; apply Z.ltb_ge; lia).
  rewrite Harr. replace (Z.to_nat (0 + Z.of_nat k * 1)) with k by lia. now apply Hc.
Qed.

(** C9 at [v = [-0, 1]], whose second element is left as it was. *)
Lemma AddVec_self_zero_witness :
  exists s', AddVec plainExtern 0%nat (VecPtr 0%nat) (VecPtr 1%nat) store_negzero = Ok tt s'
             /\ elements (VecPtr 0%nat) s' = Ok [F32.zero; F32.one] s'.
Proof.
  destruct (AddVec_self_zero plainExtern 0%nat (denseHeader 0 2) (VecPtr 1%nat)
              [F32.neg_zero; F32.one] store_negzero) as (s' & Hrun & Hel & _).
  - reflexivity.
  - eapply holds_dense; [reflexivity|reflexivity|reflexivity|discriminate|auto].
  - discriminate.
  - eapply holds_dense; [reflexivity|reflexivity|reflexivity|discriminate|auto].
  - split.
    + right. split; [reflexivity|].
      right. split; [eapply wf_denseHeader; [lia|reflexivity|cbn; lia]|].
      split; [reflexivity|]. exists (denseHeader 1 2). split; [reflexivity|]. left. cbn. lia.
    + right. intros q h Hq Hh. cbn in Hq. inversion Hq; subst q.
      cbn in Hh. inversion Hh; subst h. reflexivity.
  - exists s'. split; [exact Hrun|exact Hel].
Defined.

(** C9 as stated fails: with [v = [-0, 1]], [v.AddVec(v, z)] changes the
    first element of [v] from -0 to +0. *)
Lemma AddVec_self_zero_counterexample :
  returned (elements (VecPtr 0%nat) store_negzero) = Some [F32.neg_zero; F32.one]
  /\ returned (add_zero_negzero store_negzero) = Some [F32.zero; F32.one]
  /\ [F32.zero; F32.one] <> [F32.neg_zero; F32.one].
Proof. split; [reflexivity|]. split; [reflexivity|discriminate]. Qed.

(** ** AddScaledVec with the factors 1, -1 and 0 (C1) *)

Lemma AtVec_holds s a l k :
  holds s a l -> 0 <= k < Z.of_nat (length l) -> AtVec a k s = Ok (nth_val l k) s.
Proof.
  induction a as [q|x IH|vals]; intros Hh Hk.
  - destruct Hh as (h & Hq & Hwf & Hn & Hc).
    cbn [AtVec]. unfold VecDense_AtVec. step (getVec_ok _ _ _ Hq).
    replace ((k <? 0) || (vn h <=? k)) with false
      by (symmetry; apply orb_false_iff; split; [apply Z.ltb_ge|apply Z.leb_gt]; lia).
    unfold at_. step (getVec_ok _ _ _ Hq). apply index_get.
    + eapply wf_in_range; eauto. lia.
    + apply Hwf.
    + change (off (Data (mat h)) + k * Inc (mat h)) with (cell h k).
      replace k with (Z.of_nat (Z.to_nat k)) at 1 by lia.
      apply Hc. apply nth_val_lookup. lia.
  - cbn [AtVec]. now apply IH.
  - cbn in Hh. subst vals. cbn [AtVec]. unfold OtherVec_AtVec.
    replace (k <? 0) with false by (symmetry; apply Z.ltb_ge; lia).
    now rewrite nth_val_lookup.
Qed.

(** A vector that holds [l] reads back as [l]. *)
Lemma elements_holds s a l : holds s a l -> elements a s = Ok l s.
Proof.
  intros Hh. unfold elements. step (Len_holds _ _ _ Hh). rewrite Nat2Z.id.
  rewrite (readFrom_ok a (nth_val l) (length l) 0 s).
  - now rewrite map_nth_val.
  - intros j Hj. apply AtVec_holds; [exact Hh|lia].
Qed.

(** [CopyVec] into a sized receiver from another vector of the same length. *)
Lemma CopyVec_spec s1 v h1 a l :
  vecs s1 !! v = Some h1 ->
  wf_vec s1 h1 ->
  vn h1 = Z.of_nat (length l) ->
  holds s1 a l ->
  is_ptr v a = false ->
  reads_ahead s1 h1 a ->
  exists s', CopyVec v a s1 = Ok (Z.of_nat (length l)) s'
             /\ elements (VecPtr v) s' = Ok l s'.
Proof.
  intros Hv1 Hwf1 Hvn1 Hh Hp Hra. set (n := Z.of_nat (length l)) in *.
  unfold CopyVec.
  assert (HL : VecDense_Len v s1 = Ok n s1).
  { unfold VecDense_Len. step (getVec_ok _ _ _ Hv1). now rewrite Hvn1. }
  step HL. step (Len_holds _ _ _ Hh). fold n. rewrite Z.min_id, Hp.
  assert (exists s',
    match rawVectorer a with
    | Some pa =>
        let* amat := RawVector pa in
        let* h := getVec v in blas_Copy n amat (mat h);; ret n
    | None => for_range n (fun i => let* x := AtVec a i in setVec v i x);; ret n
    end s1 = Ok n s'
    /\ after_writes s1 (base (Data (mat h1))) (cell h1) (fun i => nth_val l i) n s')
    as (s' & Hrun & HR).
  { destruct a as [q|x|vals]; cbn [rawVectorer].
    - pose proof Hh as (h & Hq & Hwf & Hvn & Hc).
      unfold RawVector. unfold bind at 1. unfold bind at 1.
      rewrite (getVec_ok _ _ _ Hq). cbn [ret]. step (getVec_ok _ _ _ Hv1).
      destruct (fill_loop1 (fun i => index (Data (mat h)) (i * Inc (mat h)))
                  (fun i x => store (Data (mat h1)) (i * Inc (mat h1)) x) (fun x => x)
                  s1 h1 (nth_val l) n Hwf1 Hvn1) as (s' & Hrun & HR).
      + intros k s2 Hk HR. apply (raw_read_after s1 h1 _ k s2 q h l _ Hq Hh Hra HR); [lia|nia].
      + intros k s2 x Hk HR. apply (store_after s1 h1 _ k s2 _ x Hwf1 HR); [lia|nia].
      + exists s'. split; [|exact HR]. unfold blas_Copy. cbn [Inc Data]. now step Hrun.
    - destruct (fill_loop1 (fun i => AtVec (TransposeVec x) i) (fun i y => setVec v i y)
                  (fun y => y) s1 h1 (nth_val l) n Hwf1 Hvn1) as (s' & Hrun & HR).
      + intros k s2 Hk HR. apply (AtVec_after s1 h1 _ k s2 _ l Hh Hra HR); lia.
      + intros k s2 y Hk HR. apply (setVec_after s1 v h1 _ k s2 y Hv1 Hwf1 HR); lia.
      + exists s'. split; [|exact HR]. now step Hrun.
    - destruct (fill_loop1 (fun i => AtVec (OtherVec vals) i) (fun i y => setVec v i y)
                  (fun y => y) s1 h1 (nth_val l) n Hwf1 Hvn1) as (s' & Hrun & HR).
      + intros k s2 Hk HR. apply (AtVec_after s1 h1 _ k s2 _ l Hh Hra HR); lia.
      + intros k s2 y Hk HR. apply (setVec_after s1 v h1 _ k s2 y Hv1 Hwf1 HR); lia.
      + exists s'. split; [|exact HR]. now step Hrun. }
  exists s'. split; [exact Hrun|].
  rewrite (elements_after s1 v h1 _ s' Hv1 Hwf1) by (rewrite Hvn1; exact HR).
  rewrite Hvn1. unfold n. now rewrite map_nth_val.
Qed.

(** The raw form of an operand and its check, run before the receiver is
    sized. *)
Lemma rawOperand_val X s v hv a l :
  vecs s !! v = Some hv ->
  holds s a l ->
  operand_checked X s v hv a ->
  exists am, rawOperand X v a s = Ok am s
             /\ (forall q, fst (untranspose a) = VecPtr q ->
                   exists h, vecs s !! q = Some h /\ am = Some (mat h))
             /\ (rawVectorer (fst (untranspose a)) = None -> am = None).
Proof.
  intros Hv Hh Hok. unfold rawOperand.
  destruct (untranspose a) as [aU ta] eqn:Ea. cbn [fst].
  destruct (rawVectorer aU) as [q|] eqn:Hq.
  - assert (HaU : fst (untranspose a) = VecPtr q) by (apply untranspose_raw; now rewrite Ea).
    pose proof (holds_untranspose _ _ _ Hh) as Hh2. rewrite HaU in Hh2.
    destruct Hh2 as (h & Hpq & _).
    unfold RawVector. unfold bind at 1. unfold bind at 1. rewrite (getVec_ok _ _ _ Hpq).
    cbn [ret]. exists (Some (mat h)).
    assert (Hchk : (if negb (is_ptr v a) then checkOverlap X v (mat h) else ret tt) s = Ok tt s).
    { destruct (is_ptr v a) eqn:Hp; [reflexivity|]. cbn [negb].
      destruct Hok as [Hp'|Hchk]; [congruence|].
      unfold checkOverlap. step (getVec_ok _ _ _ Hv).
      rewrite HaU in Hchk. now rewrite (Hchk q h eq_refl Hpq). }
    step Hchk. split; [reflexivity|]. split; [|discriminate].
    intros q' Hq'. rewrite Ea in HaU. cbn in HaU. rewrite HaU in Hq'. inversion Hq'; subst q'.
    now exists h.
  - exists None. split; [reflexivity|]. split; [|reflexivity].
    intros q' Hq'. subst aU. discriminate.
Qed.

Lemma rawOperand_ok X s v hv a l :
  vecs s !! v = Some hv ->
  holds s a l ->
  operand_checked X s v hv a ->
  exists am, rawOperand X v a s = Ok am s.
Proof.
  intros Hv Hh Hok. destruct (rawOperand_val X s v hv a l Hv Hh Hok) as (am & H & _).
  now exists am.
Qed.

(** [AddScaledVec] with factor 0 copies [a] into the receiver. *)
Lemma AddScaledVec_zero_spec (X : Extern) v hv a la b lb s :
  vecs s !! v = Some hv ->
  holds s a la ->
  holds s b lb ->
  la <> [] ->
  length la = length lb ->
  operand_fits s v hv (Z.of_nat (length la)) a ->
  operand_checked X s v hv a ->
  operand_checked X s v hv b ->
  exists s', AddScaledVec X v a F32.zero b s = Ok tt s'
             /\ elements (VecPtr v) s' = Ok la s'.
Proof.
  intros Hv Hha Hhb Hl Hlen Hfa Hca Hcb.
  pose proof (length_pos_Z la Hl) as Hn.
  unfold AddScaledVec.
  change (F32.eqb F32.zero F32.one) with false.
  change (F32.eqb F32.zero F32.neg_one) with false. cbv iota.
  step (Len_holds _ _ _ Hha). step (Len_holds _ _ _ Hhb).
  rewrite <- Hlen, Z.eqb_refl. cbn [negb].
  destruct (rawOperand_ok X s v hv a la Hv Hha Hca) as (am & Ham). step Ham.
  destruct (rawOperand_ok X s v hv b lb Hv Hhb Hcb) as (bm & Hbm). step Hbm.
  destruct (reuseAs_sized v hv _ s Hv Hn (operand_sizing s v hv a la Hv Hha Hfa))
    as (s1 & Hre & Hrs).
  step Hre.
  destruct (operand_ready s s1 v hv a la Hv Hrs Hha Hfa) as [Hha1 Hraa].
  pose proof Hrs as (Hv1 & Hwf1 & Hvn1 & _).
  step (getVec_ok _ _ _ Hv1).
  change (F32.eqb F32.zero F32.zero) with true. cbv iota.
  destruct (is_ptr v a) eqn:Hp.
  - exists s1. split; [reflexivity|].
    apply is_ptr_true in Hp. subst a. now apply elements_holds.
  - destruct (CopyVec_spec s1 v _ a la Hv1 Hwf1 Hvn1 Hha1 Hp Hraa) as (s' & Hrun & Hel).
    exists s'. split; [now step Hrun|exact Hel].
Qed.

(** Where the copy agrees with the general formula: [a + 0*b] is [a] when
    every [b[i]] is finite and no [a[i]] is -0. *)
Lemma axpy_formula_zero (la lb : list f32) :
  length la = length lb ->
  Forall (fun y => F32.is_finite y = true) lb ->
  Forall (fun x => x <> F32.neg_zero) la ->
  axpy_formula F32.zero la lb = la.
Proof.
  intros Hlen Hfin. revert la Hlen.
  induction Hfin as [|y lb Hy Hfin IH]; intros [|x la] Hlen Hnz; try discriminate; auto.
  inversion Hnz as [|? ? Hx Hnz']; subst.
  unfold axpy_formula in *. cbn [zip_with].
  rewrite F32_add_zero_keep by (auto using F32_mul_zero_finite).
  f_equal. apply IH; [now inversion Hlen|exact Hnz'].
Qed.




(** ** MulVec by the identity (C6) *)

Lemma loop_pure {A} (body : Z -> A -> M A) (g : Z -> A -> A) s (m : nat) (k : Z) acc :
  (forall j acc', k <= j < k + Z.of_nat m -> body j acc' s = Ok (g j acc') s) ->
  loop m k acc body s = Ok (fold_range m k acc g) s.
Proof.
  revert k acc. induction m as [|m IH]; intros k acc H; [reflexivity|].
  cbn [loop fold_range]. step (H k acc ltac:(lia)).
  apply IH. intros j acc' Hj. apply H. lia.
Qed.

Section IdentityRow.

Variable l : list f32.
Hypothesis Hvalid : Forall F32.valid l.
Hypothesis Hfinite : Forall (fun x => F32.is_finite x = true) l.

Lemma nth_val_Forall (P : f32 -> Prop) (k : Z) :
  Forall P l -> 0 <= k < Z.of_nat (length l) -> P (nth_val l k).
Proof.
  intros HP Hk. rewrite Forall_forall in HP. apply HP.
  apply list_elem_of_lookup. exists (Z.to_nat k). now apply nth_val_lookup.
Qed.

Lemma identity_row_after (i : Z) (m : nat) (k : Z) (f : f32) :
  i < k -> 0 <= k -> k + Z.of_nat m <= Z.of_nat (length l) ->
  f <> F32.neg_zero ->
  fold_range m k f (row_step identity_at l i) = f.
Proof.
  revert k. induction m as [|m IH]; intros k Hik Hk Hm Hf; [reflexivity|].
  cbn [fold_range]. unfold row_step at 1, identity_at.
  replace (i =? k) with false by (symmetry; apply Z.eqb_neq; lia).
  rewrite F32_add_zero_keep; [apply IH; auto; lia|exact Hf|].
  apply F32_mul_zero_finite. apply nth_val_Forall; [exact Hfinite|lia].
Qed.

Lemma identity_row_before (i : Z) (m : nat) (k : Z) :
  0 <= k <= i -> i < k + Z.of_nat m -> k + Z.of_nat m <= Z.of_nat (length l) ->
  fold_range m k F32.zero (row_step identity_at l i) = F32.plus_zero (nth_val l i).
Proof.
  revert k. induction m as [|m IH]; intros k Hk Him Hm; [lia|].
  cbn [fold_range]. unfold row_step at 1, identity_at.
  destruct (Z.eqb_spec i k) as [->|Hne].
  - rewrite F32_mul_one by (apply nth_val_Forall; [exact Hvalid|lia]).
    rewrite F32_add_zero_l.
    apply identity_row_after; [lia|lia|lia|apply plus_zero_not_neg_zero].
  - rewrite F32_add_zero_keep.
    + apply IH; lia.
    + discriminate.
    + apply F32_mul_zero_finite. apply nth_val_Forall; [exact Hfinite|lia].
Qed.

(** Row [i] of the product of the identity with finite values is element
    [i], but for -0, which comes out as +0. *)
Lemma identity_row (i : Z) :
  0 <= i < Z.of_nat (length l) ->
  row_product identity_at l i = F32.plus_zero (nth_val l i).
Proof.
  intros Hi. unfold row_product. apply (identity_row_before i (length l) 0); lia.
Qed.

End IdentityRow.

(** Operands that share no cell with the receiver can be read at any element
    while the receiver is being written. *)
Lemma raw_read_apart s0 hv val k s q h l j i :
  vecs s0 !! q = Some h ->
  holds s0 (VecPtr q) l ->
  apart s0 hv (VecPtr q) ->
  after_writes s0 (base (Data (mat hv))) (cell hv) val k s ->
  k <= vn hv ->
  0 <= j < Z.of_nat (length l) ->
  i = j * Inc (mat h) ->
  index (Data (mat h)) i s = Ok (nth_val l j) s.
Proof.
  intros Hq (h' & Hq' & Hwf & Hn & Hc) (h'' & Hq'' & Hz) (Hv & Hw & Hf & _) Hk Hj ->.
  assert (h' = h) by congruence. assert (h'' = h) by congruence. subst h' h''.
  apply index_get.
  - eapply wf_in_range; eauto. lia.
  - apply Hwf.
  - change (off (Data (mat h)) + j * Inc (mat h)) with (cell h j).
    rewrite Hf.
    + replace j with (Z.of_nat (Z.to_nat j)) at 1 by lia.
      apply Hc. apply nth_val_lookup. lia.
    + destruct Hz as [Hb|Hz]; [now left|right].
      intros j0 Hj0. apply Hz; lia.
Qed.

Lemma AtVec_apart s0 hv val k s a l j :
  holds s0 a l ->
  apart s0 hv a ->
  after_writes s0 (base (Data (mat hv))) (cell hv) val k s ->
  k <= vn hv ->
  0 <= j < Z.of_nat (length l) ->
  AtVec a j s = Ok (nth_val l j) s.
Proof.
  induction a as [q|x IH|vals]; intros Hh Hz HR Hk Hj.
  - pose proof Hh as (h & Hq & Hwf & Hn & Hc).
    cbn [AtVec]. unfold VecDense_AtVec.
    assert (Hg : getVec q s = Ok h s).
    { apply getVec_ok. destruct HR as (Hv & _). now rewrite Hv. }
    step Hg.
    replace ((j <? 0) || (vn h <=? j)) with false
      by (symmetry; apply orb_false_iff; split; [apply Z.ltb_ge|apply Z.leb_gt]; lia).
    unfold at_. step Hg. eapply raw_read_apart; eauto.
  - cbn [AtVec]. apply IH; assumption.
  - cbn in Hh. subst vals. cbn [AtVec]. unfold OtherVec_AtVec.
    replace (j <? 0) with false by (symmetry; apply Z.ltb_ge; lia).
    now rewrite nth_val_lookup.
Qed.

Lemma apart_resized s s1 v hv n a l :
  vecs s !! v = Some hv ->
  resized s v hv n s1 ->
  holds s a l ->
  fits s hv a n ->
  apart s1 (sized s hv n) a.
Proof.
  intros Hv (_ & _ & Hvn & Hq & _ & _ & Hfresh & Hs).
  induction a as [q|x IH|vals]; cbn [holds apart]; [| |auto].
  - intros (h & Hh & Hwf & Hnh & _) Hfit.
    destruct Hfit as [Hz|(Hwfv & Hvnv & (h' & Hh' & Hap))].
    + pose proof (holds_not_zero_size s v hv q h Hv Hz Hh Hwf) as Hne.
      exists h. split; [now apply Hq|]. left. rewrite (Hfresh Hz).
      pose proof (wf_base_lt _ _ Hwf). lia.
    + assert (Hnz : Inc (mat hv) <> 0) by (destruct Hwfv; lia).
      rewrite (Hs Hnz). assert (h' = h) by congruence. subst h'.
      exists h. split; [exact Hh|]. unfold sized.
      replace (Inc (mat hv) =? 0) with false by (symmetry; now apply Z.eqb_neq).
      exact Hap.
  - intros Hh Hfit. apply IH; auto.
Qed.

(** The dispatch of [MulVec] for a matrix read through [At] only: both the
    loop over the raw form of [b] and the loop at the end fill the receiver
    with the nested-loop product. *)
Lemma MulVec_dispatch_other (X : Extern) s1 w h1 r at_ b l bm :
  vecs s1 !! w = Some h1 ->
  wf_vec s1 h1 ->
  vn h1 = r ->
  holds s1 b l ->
  apart s1 h1 b ->
  (forall q, fst (untranspose b) = VecPtr q ->
     exists h, vecs s1 !! q = Some h /\ bm = Some (mat h)) ->
  (rawVectorer (fst (untranspose b)) = None -> bm = None) ->
  let a := OtherMat r (Z.of_nat (length l)) at_ in
  exists s', MulVec_dispatch X w a a false b bm r (Z.of_nat (length l)) s1 = Ok tt s'
             /\ after_writes s1 (base (Data (mat h1))) (cell h1) (row_product at_ l) r s'.
Proof.
  intros Hv1 Hwf1 Hvn1 Hh1 Hap Hsome Hnone a.
  set (c := Z.of_nat (length l)) in *.
  unfold MulVec_dispatch, a.
  assert (Hfill : forall inner : Z -> M f32,
    (forall k s2, 0 <= k < r ->
       after_writes s1 (base (Data (mat h1))) (cell h1)
         (fun i => (fun x => x) (row_product at_ l i)) k s2 ->
       inner k s2 = Ok (row_product at_ l k) s2) ->
    exists s', for_range r (fun i => let* f := inner i in setVec w i f) s1 = Ok tt s'
               /\ after_writes s1 (base (Data (mat h1))) (cell h1) (row_product at_ l) r s').
  { intros inner Hinner.
    apply (fill_loop1 inner (fun i x => setVec w i x) (fun x => x)
             s1 h1 (row_product at_ l) r Hwf1 Hvn1 Hinner).
    intros k s2 x Hk HR. apply (setVec_after s1 w h1 _ k s2 x Hv1 Hwf1 HR). lia. }
  destruct (rawVectorer (fst (untranspose b))) as [q|] eqn:Hq.
  - pose proof (untranspose_raw _ _ Hq) as HbU.
    destruct (Hsome q HbU) as (h & Hqh & Hbmeq). rewrite Hbmeq.
    replace (bool_decide (is_Some (Some (mat h)))) with true by reflexivity.
    cbn [default from_option]. cbv iota.
    pose proof (holds_untranspose _ _ _ Hh1) as Hh2. rewrite HbU in Hh2.
    assert (Hap2 : apart s1 h1 (VecPtr q)).
    { clear - Hap HbU. destruct b as [p|x|vals]; cbn in HbU.
      - now rewrite <- HbU.
      - cbn in Hap. now rewrite <- HbU.
      - discriminate. }
    apply Hfill. intros k s2 Hk HR. unfold row_product.
    replace (Z.to_nat c) with (length l) by (unfold c; lia).
    apply loop_pure. intros j acc Hj. cbn [MAt]. rewrite bind_ret.
    step (raw_read_apart s1 h1 _ k s2 q h l j _ Hqh Hh2 Hap2 HR ltac:(lia)
            ltac:(unfold c in Hj; lia) eq_refl).
    reflexivity.
  - rewrite (Hnone eq_refl).
    replace (bool_decide (is_Some (@None blasVector))) with false by reflexivity.
    cbv iota. unfold MulVec_slow.
    apply Hfill. intros k s2 Hk HR. unfold row_product.
    replace (Z.to_nat c) with (length l) by (unfold c; lia).
    apply loop_pure. intros j acc Hj. cbn [MAt]. rewrite bind_ret.
    step (AtVec_apart s1 h1 _ k s2 b l j Hh1 Hap HR ltac:(lia) ltac:(unfold c in Hj; lia)).
    reflexivity.
Qed.

(** [MulVec] by a matrix read through [At] only, into a receiver other than
    [b]. *)
Lemma MulVec_other_spec (X : Extern) v hv r at_ b l s :
  vecs s !! v = Some hv ->
  holds s b l ->
  l <> [] ->
  1 <= r ->
  Dims b s = Ok (Z.of_nat (length l), 1) s ->
  is_ptr v b = false ->
  fits s hv b r ->
  operand_checked X s v hv b ->
  exists s', MulVec X v (OtherMat r (Z.of_nat (length l)) at_) b s = Ok tt s'
             /\ elements (VecPtr v) s' = Ok (map (row_product at_ l) (seqZ 0 r)) s'.
Proof.
  intros Hv Hh Hl Hr Hd Hp Hfit Hchk.
  unfold MulVec. cbn [MDims]. rewrite bind_ret. step Hd.
  rewrite Z.eqb_refl. change (negb true || negb (1 =? 1)) with false. cbv iota.
  cbn [untransposeM].
  destruct (rawOperand_val X s v hv b l Hv Hh Hchk) as (bm & Hbm & Hsome & Hnone).
  step Hbm.
  assert (Hsz : Inc (mat hv) = 0 \/ (wf_vec s hv /\ vn hv = r)).
  { destruct Hfit as [Hz|(Hwf & Hvn & _)]; [now left|now right]. }
  destruct (reuseAs_sized v hv r s Hv Hr Hsz) as (s1 & Hre & Hrs).
  step Hre. cbn [is_ptrM]. rewrite Hp.
  pose proof (holds_resized _ _ _ _ _ _ _ Hv Hrs Hh) as Hh1.
  pose proof (apart_resized _ _ _ _ _ _ _ Hv Hrs Hh Hfit) as Hap.
  pose proof Hrs as (Hv1 & Hwf1 & Hvn1 & _).
  destruct (MulVec_dispatch_other X s1 v (sized s hv r) r at_ b l bm Hv1 Hwf1 Hvn1 Hh1 Hap)
    as (s' & Hrun & HR).
  - intros q HbU. destruct (Hsome q HbU) as (h & Hqh & Hbmeq). exists h. split; [|exact Hbmeq].
    pose proof (holds_untranspose _ _ _ Hh1) as Hh2. rewrite HbU in Hh2.
    pose proof Hh2 as (h' & Hq' & _).
    pose proof (holds_untranspose _ _ _ Hh) as Hh0. rewrite HbU in Hh0.
    pose proof (header_resized _ _ _ _ _ _ _ _ Hv Hrs Hh0 Hq'). congruence.
  - exact Hnone.
  - exists s'. split; [exact Hrun|].
    rewrite (elements_after s1 v _ _ s' Hv1 Hwf1) by (rewrite Hvn1; exact HR).
    now rewrite Hvn1.
Qed.

(** Writes into a vector leave every well-formed header well-formed. *)
Lemma wf_after s0 bd pos val k s h :
  after_writes s0 bd pos val k s -> wf_vec s0 h -> wf_vec s h.
Proof.
  intros (_ & _ & _ & Hd) [? ? ? ? ? Hcs]. constructor; auto.
  intros p Hp. apply Hd. now apply Hcs.
Qed.

Lemma length_seqZ_map {A} (f : Z -> A) (n : Z) : length (map f (seqZ 0 n)) = Z.to_nat n.
Proof. now rewrite length_map, length_seqZ. Qed.

(** Once filled, the receiver holds the values written. *)
Lemma holds_after s0 w hw val s :
  vecs s0 !! w = Some hw ->
  wf_vec s0 hw ->
  after_writes s0 (base (Data (mat hw))) (cell hw) val (vn hw) s ->
  holds s (VecPtr w) (map val (seqZ 0 (vn hw))).
Proof.
  intros Hw Hwf HR. pose proof (wf_after _ _ _ _ _ _ _ HR Hwf) as Hwf'.
  destruct HR as (Hv & Hc & _). exists hw. split; [now rewrite Hv|]. split; [exact Hwf'|].
  assert (Hn : 1 <= vn hw) by apply Hwf.
  split; [rewrite length_seqZ_map; lia|].
  intros k x Hk. rewrite list_lookup_fmap in Hk.
  destruct (seqZ 0 (vn hw) !! k) as [j|] eqn:Hj; [|discriminate].
  apply lookup_seqZ in Hj as [-> Hlt]. cbn in Hk. inversion Hk; subst x.
  rewrite Z.add_0_l. apply Hc. lia.
Qed.

Lemma Dims_ptr s v h :
  vecs s !! v = Some h -> Inc (mat h) <> 0 -> Dims (VecPtr v) s = Ok (vn h, 1) s.
Proof.
  intros Hv Hi. cbn [Dims]. unfold VecDense_Dims, IsZero.
  unfold bind at 1. unfold bind at 1. rewrite (getVec_ok _ _ _ Hv). cbn [ret].
  replace (Inc (mat h) =? 0) with false by (symmetry; now apply Z.eqb_neq).
  now step (getVec_ok _ _ _ Hv).
Qed.

Lemma getWorkspaceVec_ok n clear s :
  0 <= n ->
  getWorkspaceVec n clear s
  = Ok (length (vecs s))
       (mkState (arrays s ++ [replicate (Z.to_nat n) F32.zero])
                (vecs s ++ [denseHeader (length (arrays s)) n])).
Proof.
  intros Hn. unfold getWorkspaceVec, make, newVec, bind.
  now replace (n <? 0) with false by (symmetry; apply Z.ltb_ge; lia).
Qed.

(** Allocating a buffer and a header leaves the vectors as they were. *)
Lemma holds_alloc s arr h a l :
  holds s a l -> holds (mkState (arrays s ++ [arr]) (vecs s ++ [h])) a l.
Proof.
  induction a as [q|x IH|vals]; cbn [holds]; [|exact IH|auto].
  intros (hq & Hq & Hwf & Hn & Hc).
  pose proof (wf_base_lt _ _ Hwf) as Hlt.
  exists hq. split; [cbn; now apply lookup_app_l_Some|]. split.
  - destruct Hwf as [? ? ? ? ? Hcs]. constructor; auto.
    intros p Hp. rewrite get_cell_app_alloc by exact Hlt. now apply Hcs.
  - split; [exact Hn|]. intros k x Hk. rewrite get_cell_app_alloc by exact Hlt. now apply Hc.
Qed.

Lemma isolatedWorkspace_ok v a l s :
  holds s a l ->
  l <> [] ->
  isolatedWorkspace v a s
  = Ok (length (vecs s),
        (CopyVec v (VecPtr (length (vecs s)));; putWorkspaceVec (length (vecs s))))
       (mkState (arrays s ++ [replicate (Z.to_nat (Z.of_nat (length l))) F32.zero])
                (vecs s ++ [denseHeader (length (arrays s)) (Z.of_nat (length l))])).
Proof.
  intros Hh Hl. pose proof (length_pos_Z l Hl) as Hn.
  unfold isolatedWorkspace. step (Len_holds _ _ _ Hh).
  replace (Z.of_nat (length l) =? 0) with false by (symmetry; apply Z.eqb_neq; lia).
  now step (getWorkspaceVec_ok (Z.of_nat (length l)) false s ltac:(lia)).
Qed.

(** [MulVec] by a matrix read through [At] only, into [b] itself: the
    product is computed into a workspace and copied back. *)
Lemma MulVec_other_self_spec (X : Extern) v hv at_ l s :
  vecs s !! v = Some hv ->
  holds s (VecPtr v) l ->
  l <> [] ->
  exists s', MulVec X v (OtherMat (Z.of_nat (length l)) (Z.of_nat (length l)) at_)
               (VecPtr v) s = Ok tt s'
             /\ elements (VecPtr v) s'
                = Ok (map (row_product at_ l) (seqZ 0 (Z.of_nat (length l)))) s'.
Proof.
  intros Hv Hh Hl.
  pose proof Hh as (h & Hq & Hwf & Hvn & Hc). assert (h = hv) by congruence. subst h.
  pose proof (length_pos_Z l Hl) as Hn.
  assert (Hnz : Inc (mat hv) <> 0) by (destruct Hwf; lia).
  unfold MulVec. cbn [MDims]. rewrite bind_ret.
  step (Dims_ptr s v hv Hv Hnz). rewrite Hvn.
  rewrite Z.eqb_refl. change (negb true || negb (1 =? 1)) with false. cbv iota.
  cbn [untransposeM].
  assert (Hck : operand_checked X s v hv (VecPtr v)) by (left; cbn; apply Nat.eqb_refl).
  destruct (rawOperand_val X s v hv (VecPtr v) l Hv Hh Hck) as (bm & Hbm & Hsome & Hnone).
  step Hbm.
  destruct (reuseAs_sized v hv _ s Hv Hn (or_intror (conj Hwf Hvn))) as (s1 & Hre & Hrs).
  step Hre.
  assert (s1 = s) by (destruct Hrs as (_ & _ & _ & _ & _ & _ & _ & Hs); now apply Hs).
  subst s1. cbn [is_ptrM is_ptr]. rewrite Nat.eqb_refl.
  step (isolatedWorkspace_ok v (VecPtr v) l s Hh Hl). cbv iota.
  set (n := Z.of_nat (length l)) in *.
  set (w := length (vecs s)). set (hw := denseHeader (length (arrays s)) n).
  set (s3 := mkState (arrays s ++ [replicate (Z.to_nat n) F32.zero]) (vecs s ++ [hw])).
  pose proof (lookup_lt_Some _ _ _ Hv) as Hvlt.
  pose proof (wf_base_lt _ _ Hwf) as Hblt.
  assert (Hv3 : vecs s3 !! v = Some hv) by (cbn; now apply lookup_app_l_Some).
  assert (Hw3 : vecs s3 !! w = Some hw).
  { cbn. unfold w. rewrite lookup_app_r by lia. now rewrite Nat.sub_diag. }
  assert (Hwfw : wf_vec s3 hw).
  { apply (wf_denseHeader s3 _ n (replicate (Z.to_nat n) F32.zero)); [lia| |].
    - cbn. rewrite lookup_app_r by lia. now rewrite Nat.sub_diag.
    - rewrite length_replicate. lia. }
  pose proof (holds_alloc s (replicate (Z.to_nat n) F32.zero) hw _ _ Hh) as Hh3. fold s3 in Hh3.
  assert (Hap : apart s3 hw (VecPtr v)).
  { exists hv. split; [exact Hv3|left]. cbn. lia. }
  destruct (MulVec_dispatch_other X s3 w hw n at_ (VecPtr v) l bm Hw3 Hwfw eq_refl Hh3 Hap)
    as (s4 & Hrun & HR).
  { intros q HbU. destruct (Hsome q HbU) as (h & Hqh & Hbmeq). exists h.
    split; [cbn; now apply lookup_app_l_Some|exact Hbmeq]. }
  { exact Hnone. }
  unfold defer. fold n in Hrun. rewrite Hrun.
  pose proof (holds_after s3 w hw _ s4 Hw3 Hwfw HR) as Hhw4.
  assert (Hwf3 : wf_vec s3 hv) by (destruct Hh3 as (h & Hq3 & Hwf3 & _); congruence).
  pose proof (wf_after _ _ _ _ _ _ _ HR Hwf3) as Hwf4.
  assert (Hv4 : vecs s4 !! v = Some hv) by (destruct HR as (Hvs & _); now rewrite Hvs).
  assert (Hw4 : vecs s4 !! w = Some hw) by (destruct HR as (Hvs & _); now rewrite Hvs).
  destruct (CopyVec_spec s4 v hv (VecPtr w) (map (row_product at_ l) (seqZ 0 (vn hw)))
              Hv4 Hwf4) as (s5 & Hcopy & Hel).
  - rewrite length_seqZ_map. cbn [vn hw denseHeader]. lia.
  - exact Hhw4.
  - cbn. apply Nat.eqb_neq. unfold w. lia.
  - exists hw. split; [exact Hw4|left]. cbn. lia.
  - exists s5. split; [|exact Hel].
    unfold bind. rewrite Hcopy. reflexivity.
Qed.

Lemma identity_rows (l : list f32) :
  Forall F32.valid l ->
  Forall (fun x => F32.is_finite x = true) l ->
  map (row_product identity_at l) (seqZ 0 (Z.of_nat (length l))) = map F32.plus_zero l.
Proof.
  intros Hval Hfin. rewrite <- (map_nth_val_fun F32.plus_zero l).
  apply map_ext_in. intros i Hi. apply list_elem_of_In, elem_of_seqZ in Hi.
  apply identity_row; [exact Hval|exact Hfin|lia].
Qed.




(** ** SliceVec (C7) *)

Lemma AtVec_ptr_cell s v h m x :
  vecs s !! v = Some h ->
  0 <= m < vn h ->
  in_range (Data (mat h)) (m * Inc (mat h)) = true ->
  0 <= off (Data (mat h)) ->
  get_cell s (base (Data (mat h))) (cell h m) = Some x ->
  AtVec (VecPtr v) m s = Ok x s.
Proof.
  intros Hv Hm Hr Ho Hc. cbn [AtVec]. unfold VecDense_AtVec.
  step (getVec_ok _ _ _ Hv).
  replace ((m <? 0) || (vn h <=? m)) with false
    by (symmetry; apply orb_false_iff; split; [apply Z.ltb_ge|apply Z.leb_gt]; lia).
  unfold at_. step (getVec_ok _ _ _ Hv). now apply index_get.
Qed.

Lemma wf_sliceable s h : wf_vec s h -> sliceable s h.
Proof.
  intros Hwf. pose proof Hwf as [Hi Hn Hl Ho Hc Hcs]. constructor; auto.
  - lia.
  - intros _. nia.
  - intros m Hm. eapply wf_in_range; eauto.
Qed.

Lemma Cap_sliceable s v h c :
  vecs s !! v = Some h -> sliceable s h -> Cap v s = Ok c s ->
  forall k, 1 <= k <= c ->
    1 <= Inc (mat h) /\ (k - 1) * Inc (mat h) + 1 <= cap (Data (mat h)).
Proof.
  intros Hv [Hi Hcap Ho Hcs _] HC k Hk.
  unfold Cap, IsZero in HC. unfold bind at 1 in HC. unfold bind at 1 in HC.
  rewrite (getVec_ok _ _ _ Hv) in HC. cbn [ret] in HC.
  destruct (Inc (mat h) =? 0) eqn:Hz; [inversion HC; lia|].
  apply Z.eqb_neq in Hz.
  rewrite (bind_ok _ _ _ _ _ (getVec_ok _ _ _ Hv)) in HC. inversion HC as [HC']. clear HC.
  split; [lia|].
  destruct (Z.le_gt_cases 1 (cap (Data (mat h)))) as [Hpos|Hneg].
  - rewrite Z.quot_div_nonneg in HC' by lia.
    pose proof (Z.mul_div_le (cap (Data (mat h)) - 1) (Inc (mat h)) ltac:(lia)).
    assert (k - 1 <= (cap (Data (mat h)) - 1) / Inc (mat h)) by lia.
    nia.
  - assert (Inc (mat h) = 1) by lia.
    replace (Inc (mat h)) with 1 in HC' by lia. rewrite Z.quot_1_r in HC'. lia.
Qed.

(** C7.  [v.SliceVec(i, k)] panics with [ErrIndexOutOfRange] exactly when
    [i < 0], [k <= i] or [k] exceeds the capacity of [v].  Otherwise it
    returns a view of length [k - i] on the storage of [v]: element [j] of
    the view is element [i + j] of [v], and setting element [j] of the view
    sets element [i + j] of [v]. *)
Theorem SliceVec_view v hv i k c s :
  vecs s !! v = Some hv ->
  Cap v s = Ok c s ->
  (SliceVec v i k s = Panic ErrIndexOutOfRange s <-> i < 0 \/ k <= i \/ c < k)
  /\ (sliceable s hv -> 0 <= i -> i < k -> k <= c ->
      exists w s',
        SliceVec v i k s = Ok w s'
        /\ vecs s' !! w = Some (sliceHeader hv i k)
        /\ vecs s' !! v = Some hv
        /\ Len (VecPtr w) s' = Ok (k - i) s'
        /\ (forall j, 0 <= j < k - i ->
              exists x, AtVec (VecPtr w) j s' = Ok x s'
                        /\ get_cell s' (base (Data (mat hv))) (cell hv (i + j)) = Some x
                        /\ (i + j < vn hv -> AtVec (VecPtr v) (i + j) s' = Ok x s'))
        /\ (forall j x, 0 <= j < k - i ->
              exists s'', VecDense_SetVec w j x s' = Ok tt s''
                          /\ get_cell s'' (base (Data (mat hv))) (cell hv (i + j)) = Some x
                          /\ AtVec (VecPtr w) j s'' = Ok x s''
                          /\ (i + j < vn hv -> AtVec (VecPtr v) (i + j) s'' = Ok x s''))).
Proof.
  intros Hv HC. split.
  - unfold SliceVec.
    destruct ((i <? 0) || (k <=? i)) eqn:Hik.
    + split; [intros _|reflexivity].
      apply orb_true_iff in Hik as [H|H]; [apply Z.ltb_lt in H|apply Z.leb_le in H]; lia.
    + apply orb_false_iff in Hik as [H1 H2]. apply Z.ltb_ge in H1. apply Z.leb_gt in H2.
      step HC. destruct (c <? k) eqn:Hck.
      * apply Z.ltb_lt in Hck. split; [intros _; lia|reflexivity].
      * apply Z.ltb_ge in Hck. split; [|lia].
        step (getVec_ok _ _ _ Hv). unfold bind, reslice, newVec.
        destruct ((0 <=? i * Inc (mat hv)) && _ && _); cbn; discriminate.
  - intros Hsl Hi Hik Hkc.
    pose proof (Cap_sliceable s v hv c Hv Hsl HC) as Hcap.
    destruct (Hcap k ltac:(lia)) as [Hinc Hkcap].
    pose proof Hsl as [_ _ Ho Hcs Hel].
    set (hw := sliceHeader hv i k).
    set (s' := mkState (arrays s) (vecs s ++ [hw])).
    exists (length (vecs s)), s'.
    assert (Hrun : SliceVec v i k s = Ok (length (vecs s)) s').
    { unfold SliceVec.
      replace ((i <? 0) || (k <=? i)) with false
        by (symmetry; apply orb_false_iff; split; [apply Z.ltb_ge|apply Z.leb_gt]; lia).
      step HC. replace (c <? k) with false by (symmetry; apply Z.ltb_ge; lia).
      step (getVec_ok _ _ _ Hv). unfold bind, reslice, newVec.
      replace ((0 <=? i * Inc (mat hv)) && (i * Inc (mat hv) <=? (k - 1) * Inc (mat hv) + 1)
               && ((k - 1) * Inc (mat hv) + 1 <=? cap (Data (mat hv)))) with true; [reflexivity|].
      symmetry. repeat (apply andb_true_iff; split); apply Z.leb_le; nia. }
    assert (Hw' : vecs s' !! length (vecs s) = Some hw).
    { cbn. rewrite lookup_app_r by lia. now rewrite Nat.sub_diag. }
    assert (Hv' : vecs s' !! v = Some hv) by (cbn; now apply lookup_app_l_Some).
    assert (Hcell : forall j, 0 <= j < k - i ->
              cell hw j = cell hv (i + j)
              /\ in_range (Data (mat hw)) (j * Inc (mat hw)) = true
              /\ is_Some (get_cell s (base (Data (mat hv))) (cell hv (i + j)))).
    { intros j Hj. split; [unfold cell, hw; cbn; lia|]. split.
      - unfold in_range, hw. cbn. apply andb_true_iff.
        split; [apply Z.leb_le|apply Z.ltb_lt]; nia.
      - apply Hcs. unfold cell. nia. }
    assert (Hread : forall s1 j x, 0 <= j < k - i ->
              vecs s1 = vecs s' ->
              get_cell s1 (base (Data (mat hv))) (cell hv (i + j)) = Some x ->
              AtVec (VecPtr (length (vecs s))) j s1 = Ok x s1
              /\ (i + j < vn hv -> AtVec (VecPtr v) (i + j) s1 = Ok x s1)).
    { intros s1 j x Hj Hvs Hx. destruct (Hcell j Hj) as (Hce & Hr & _). split.
      - apply (AtVec_ptr_cell s1 _ hw j x); [now rewrite Hvs|cbn; lia|exact Hr|cbn; nia|].
        now rewrite Hce.
      - intros Hlt. apply (AtVec_ptr_cell s1 v hv (i + j) x); [now rewrite Hvs|lia| |exact Ho|exact Hx].
        apply Hel. lia. }
    split; [exact Hrun|]. split; [exact Hw'|]. split; [exact Hv'|].
    split; [now apply (Len_ptr s' _ hw)|]. split.
    + intros j Hj. destruct (Hcell j Hj) as (Hce & Hr & [x Hx]).
      exists x. destruct (Hread s' j x Hj eq_refl Hx) as [H1 H2]. auto.
    + intros j x Hj. destruct (Hcell j Hj) as (Hce & Hr & Hsome).
      destruct (store_get (Data (mat hw)) (j * Inc (mat hw)) x s') as (s'' & Hst & Hvs & _ & Hc' & _).
      * exact Hr.
      * cbn. nia.
      * change (off (Data (mat hw)) + j * Inc (mat hw)) with (cell hw j). now rewrite Hce.
      * change (off (Data (mat hw)) + j * Inc (mat hw)) with (cell hw j) in Hc'.
        rewrite Hce in Hc'. change (base (Data (mat hw))) with (base (Data (mat hv))) in Hc'.
        exists s''. destruct (Hread s'' j x Hj Hvs Hc') as [H1 H2].
        split; [|auto]. unfold VecDense_SetVec. step (getVec_ok _ _ _ Hw').
        replace ((j <? 0) || (vn hw <=? j)) with false
          by (symmetry; apply orb_false_iff; split; [apply Z.ltb_ge|apply Z.leb_gt]; cbn; lia).
        unfold setVec. now step (getVec_ok _ _ _ Hw').
Qed.

(** C7 on [[1, 2, 3, 4]]: the view [SliceVec(1, 3)]. *)
Lemma SliceVec_view_witness :
  (SliceVec 0%nat 1 3 store_1234 = Panic ErrIndexOutOfRange store_1234
   <-> 1 < 0 \/ 3 <= 1 \/ 4 < 3)
  /\ exists w s', SliceVec 0%nat 1 3 store_1234 = Ok w s'
                  /\ Len (VecPtr w) s' = Ok 2 s'.
Proof.
  destruct (SliceVec_view 0%nat (denseHeader 0 4) 1 3 4 store_1234 eq_refl eq_refl)
    as [Hiff Hok].
  split; [exact Hiff|].
  destruct Hok as (w & s' & Hrun & _ & _ & Hlen & _).
  - apply wf_sliceable. eapply wf_denseHeader; [lia|reflexivity|cbn; lia].
  - lia.
  - lia.
  - lia.
  - exists w, s'. split; [exact Hrun|exact Hlen].
Defined.

(** ** The invariant of vector headers (C3) *)

Lemma preserved_ret {A} (a : A) (Q : A -> Prop) : Q a -> preserved (ret a) Q.
Proof. intros HQ s Hs. now split. Qed.

Lemma preserved_panic {A} e (Q : A -> Prop) : preserved (panic e) Q.
Proof. intros s Hs. exact Hs. Qed.

Lemma preserved_bind {A B} (c : M A) (k : A -> M B) (Q : A -> Prop) (R : B -> Prop) :
  preserved c Q -> (forall a, Q a -> preserved (k a) R) -> preserved (bind c k) R.
Proof.
  intros Hc Hk s Hs. unfold bind. specialize (Hc s Hs).
  destruct (c s) as [a s'|e s']; [|exact Hc]. destruct Hc as [Hs' Ha]. now apply Hk.
Qed.

Lemma preserved_bind_T {A B} (c : M A) (k : A -> M B) (R : B -> Prop) :
  preserved c (fun _ => True) -> (forall a, preserved (k a) R) -> preserved (bind c k) R.
Proof. intros Hc Hk. eapply preserved_bind; [exact Hc|]. intros a _. apply Hk. Qed.

Lemma preserved_weaken {A} (c : M A) (Q : A -> Prop) :
  preserved c Q -> preserved c (fun _ => True).
Proof.
  intros Hc s Hs. specialize (Hc s Hs). destruct (c s); [|exact Hc]. now destruct Hc.
Qed.

Lemma preserved_loop {A} (body : Z -> A -> M A) (k : nat) (i : Z) (acc : A) :
  (forall j x, preserved (body j x) (fun _ => True)) ->
  preserved (loop k i acc body) (fun _ => True).
Proof.
  intros Hb. revert i acc. induction k as [|k IH]; intros i acc; cbn [loop].
  - now apply preserved_ret.
  - apply preserved_bind_T; [apply Hb|]. intros a. apply IH.
Qed.

Lemma preserved_for_range (n : Z) (body : Z -> M unit) :
  (forall j, preserved (body j) (fun _ => True)) ->
  preserved (for_range n body) (fun _ => True).
Proof. intros Hb. unfold for_range. apply preserved_loop. intros j x. apply Hb. Qed.

Lemma preserved_defer {A} (d : M unit) (body : M A) :
  preserved d (fun _ => True) -> preserved body (fun _ => True) ->
  preserved (defer d body) (fun _ => True).
Proof.
  intros Hd Hb s Hs. unfold defer. specialize (Hb s Hs).
  destruct (body s) as [a s1|e s1].
  - destruct Hb as [Hs1 _]. specialize (Hd s1 Hs1). destruct (d s1); [|exact Hd].
    split; [apply Hd|exact I].
  - specialize (Hd s1 Hb). destruct (d s1); [apply Hd|exact Hd].
Qed.

(** A computation that touches the backing arrays only. *)
Lemma preserved_arrays {A} (c : M A) :
  (forall s, vecs (res_state (c s)) = vecs s) -> preserved c (fun _ => True).
Proof.
  intros Hc s Hs. specialize (Hc s). unfold store_ok in *.
  destruct (c s) as [a s'|e s']; cbn in Hc; rewrite Hc; auto.
Qed.

Lemma preserved_index d i : preserved (index d i) (fun _ => True).
Proof.
  apply preserved_arrays. intros s. unfold index.
  destruct (in_range d i); [|reflexivity].
  destruct (arrays s !! base d) as [arr|]; [|reflexivity].
  now destruct (arr !! Z.to_nat (off d + i)).
Qed.

Lemma preserved_store d i x : preserved (store d i x) (fun _ => True).
Proof.
  apply preserved_arrays. intros s. unfold store.
  destruct (in_range d i); [|reflexivity].
  destruct (arrays s !! base d) as [arr|]; [|reflexivity].
  now destruct (Z.to_nat (off d + i) <? length arr)%nat.
Qed.

Lemma preserved_reslice d lo hi : preserved (reslice d lo hi) (fun _ => 0 <= lo <= hi).
Proof.
  intros s Hs. unfold reslice.
  destruct ((0 <=? lo) && (lo <=? hi) && (hi <=? cap d)) eqn:H; [|exact Hs].
  split; [exact Hs|]. apply andb_true_iff in H as [H _]. apply andb_true_iff in H as [H1 H2].
  apply Z.leb_le in H1, H2. lia.
Qed.

Lemma preserved_make n : preserved (make n) (fun _ => 0 <= n).
Proof.
  intros s Hs. unfold make. destruct (n <? 0) eqn:H; [exact Hs|].
  apply Z.ltb_ge in H. now split.
Qed.

Lemma preserved_getVec p : preserved (getVec p) header_ok.
Proof.
  intros s Hs. unfold getVec. destruct (vecs s !! p) as [h|] eqn:Hp; [|exact Hs].
  split; [exact Hs|]. unfold store_ok in Hs. rewrite Forall_lookup in Hs. eauto.
Qed.

Lemma preserved_putVec p h : header_ok h -> preserved (putVec p h) (fun _ => True).
Proof.
  intros Hh s Hs. unfold putVec. destruct (vecs s !! p) as [h0|] eqn:Hp; [|exact Hs].
  split; [|exact I]. unfold store_ok in *. cbn. now apply Forall_insert.
Qed.

Lemma preserved_newVec h : header_ok h -> preserved (newVec h) (fun _ => True).
Proof.
  intros Hh s Hs. unfold newVec. split; [|exact I]. unfold store_ok in *. cbn.
  apply Forall_app. split; [exact Hs|]. now constructor.
Qed.

Lemma preserved_sliceLit vals : preserved (sliceLit vals) (fun _ => True).
Proof. apply preserved_arrays. reflexivity. Qed.

Create HintDb pres.

Lemma preserved_getVec_T p : preserved (getVec p) (fun _ => True).
Proof. eapply preserved_weaken, preserved_getVec. Qed.

Lemma preserved_reslice_T d lo hi : preserved (reslice d lo hi) (fun _ => True).
Proof. eapply preserved_weaken, preserved_reslice. Qed.

Lemma preserved_make_T n : preserved (make n) (fun _ => True).
Proof. eapply preserved_weaken, preserved_make. Qed.

#[local] Hint Resolve preserved_index preserved_store preserved_getVec_T
  preserved_reslice_T preserved_make_T preserved_sliceLit : pres.
#[local] Hint Extern 1 (header_ok _) => split; cbn; lia : pres.
#[local] Hint Extern 2 (preserved (putVec _ _) _) => apply preserved_putVec : pres.
#[local] Hint Extern 2 (preserved (newVec _) _) => apply preserved_newVec : pres.
#[local] Hint Extern 3 (preserved (fun s => Ok _ (mkState _ (vecs s))) _) =>
  apply preserved_arrays; reflexivity : pres.

Ltac pres_step :=
  match goal with
  | |- preserved (bind _ _) _ => apply preserved_bind_T; [|intros]
  | |- preserved (ret _) _ => apply preserved_ret; exact I
  | |- preserved (panic _) _ => apply preserved_panic
  | |- preserved (for_range _ _) _ => apply preserved_for_range; intros
  | |- preserved (loop _ _ _ _) _ => apply preserved_loop; intros
  | |- preserved (defer _ _) _ => apply preserved_defer
  | |- preserved (if ?b then _ else _) _ => destruct b
  | |- preserved (let (_, _) := ?x in _) _ => destruct x
  | |- preserved (match ?x with _ => _ end) _ => destruct x
  | |- preserved _ _ => solve [auto with pres]
  end.

Ltac pres := cbv zeta; repeat pres_step.

Lemma preserved_IsZero v : preserved (IsZero v) (fun _ => True).
Proof. unfold IsZero. pres. Qed.
Lemma preserved_RawVector v : preserved (RawVector v) (fun _ => True).
Proof. unfold RawVector. pres. Qed.
#[local] Hint Resolve preserved_IsZero preserved_RawVector : pres.

Lemma preserved_Cap v : preserved (Cap v) (fun _ => True).
Proof. unfold Cap. pres. Qed.
Lemma preserved_at v i : preserved (at_ v i) (fun _ => True).
Proof. unfold at_. pres. Qed.
Lemma preserved_setVec v i x : preserved (setVec v i x) (fun _ => True).
Proof. unfold setVec. pres. Qed.
#[local] Hint Resolve preserved_Cap preserved_at preserved_setVec : pres.

Lemma preserved_VecDense_AtVec v i : preserved (VecDense_AtVec v i) (fun _ => True).
Proof. unfold VecDense_AtVec. pres. Qed.
Lemma preserved_VecDense_At v i j : preserved (VecDense_At v i j) (fun _ => True).
Proof. unfold VecDense_At. pres. Qed.
Lemma preserved_VecDense_Dims v : preserved (VecDense_Dims v) (fun _ => True).
Proof. unfold VecDense_Dims. pres. Qed.
Lemma preserved_VecDense_SetVec v i x : preserved (VecDense_SetVec v i x) (fun _ => True).
Proof. unfold VecDense_SetVec. pres. Qed.
Lemma preserved_OtherVec_AtVec vals i : preserved (OtherVec_AtVec vals i) (fun _ => True).
Proof. unfold OtherVec_AtVec. pres. Qed.
#[local] Hint Resolve preserved_VecDense_AtVec preserved_VecDense_At preserved_VecDense_Dims
  preserved_VecDense_SetVec preserved_OtherVec_AtVec : pres.

Lemma preserved_Len_nonneg a : preserved (Len a) (fun n => 0 <= n).
Proof.
  induction a as [p|x IH|vals]; cbn [Len]; [|exact IH|apply preserved_ret; lia].
  unfold VecDense_Len. eapply preserved_bind; [apply preserved_getVec|].
  intros h [Hn _]. now apply preserved_ret.
Qed.

Lemma preserved_Len a : preserved (Len a) (fun _ => True).
Proof. eapply preserved_weaken, preserved_Len_nonneg. Qed.

Lemma preserved_AtVec a i : preserved (AtVec a i) (fun _ => True).
Proof. induction a; cbn [AtVec]; auto with pres. Qed.

Lemma preserved_Dims a : preserved (Dims a) (fun _ => True).
Proof. induction a; cbn [Dims]; pres. Qed.

Lemma preserved_At a : forall i j, preserved (At a i j) (fun _ => True).
Proof. induction a; intros i j; cbn [At]; pres. Qed.

Lemma preserved_GenMat_At g i j : preserved (GenMat_At g i j) (fun _ => True).
Proof. unfold GenMat_At. pres. Qed.
#[local] Hint Resolve preserved_Len preserved_AtVec preserved_Dims preserved_At
  preserved_GenMat_At : pres.

Lemma preserved_MDims a : preserved (MDims a) (fun _ => True).
Proof. induction a; cbn [MDims]; pres. Qed.

Lemma preserved_MAt X a : forall i j, preserved (MAt X a i j) (fun _ => True).
Proof.
  induction a; intros i j; cbn [MAt]; pres.
  apply preserved_arrays. intros s. now destruct (triAt X t i j (arrays s)).
Qed.
#[local] Hint Resolve preserved_MDims preserved_MAt : pres.

Lemma preserved_checkOverlap X v a : preserved (checkOverlap X v a) (fun _ => True).
Proof. unfold checkOverlap. pres. Qed.
Lemma preserved_asGeneral v : preserved (asGeneral v) (fun _ => True).
Proof. unfold asGeneral. pres. Qed.
#[local] Hint Resolve preserved_checkOverlap preserved_asGeneral : pres.

Lemma preserved_ScalUnitary alpha x : preserved (ScalUnitary alpha x) (fun _ => True).
Proof. unfold ScalUnitary. pres. Qed.
Lemma preserved_ScalUnitaryTo d alpha x : preserved (ScalUnitaryTo d alpha x) (fun _ => True).
Proof. unfold ScalUnitaryTo. pres. Qed.
Lemma preserved_ScalInc alpha x n i : preserved (ScalInc alpha x n i) (fun _ => True).
Proof. unfold ScalInc. pres. Qed.
Lemma preserved_ScalIncTo d i alpha x n j : preserved (ScalIncTo d i alpha x n j) (fun _ => True).
Proof. unfold ScalIncTo. pres. Qed.
Lemma preserved_AxpyUnitaryTo d alpha x y : preserved (AxpyUnitaryTo d alpha x y) (fun _ => True).
Proof. unfold AxpyUnitaryTo. pres. Qed.
Lemma preserved_AxpyInc alpha x y n ix iy i j :
  preserved (AxpyInc alpha x y n ix iy i j) (fun _ => True).
Proof. unfold AxpyInc. pres. Qed.
Lemma preserved_AxpyIncTo d id i alpha x y n ix iy jx jy :
  preserved (AxpyIncTo d id i alpha x y n ix iy jx jy) (fun _ => True).
Proof. unfold AxpyIncTo. pres. Qed.
Lemma preserved_DotUnitary x y : preserved (DotUnitary x y) (fun _ => True).
Proof. unfold DotUnitary. pres. Qed.
Lemma preserved_DotInc x y n ix iy i j : preserved (DotInc x y n ix iy i j) (fun _ => True).
Proof. unfold DotInc. pres. Qed.
Lemma preserved_blas_Copy n x y : preserved (blas_Copy n x y) (fun _ => True).
Proof. unfold blas_Copy. pres. Qed.
Lemma preserved_blas_Scal n alpha x : preserved (blas_Scal n alpha x) (fun _ => True).
Proof. unfold blas_Scal. pres. Qed.
#[local] Hint Resolve preserved_ScalUnitary preserved_ScalUnitaryTo preserved_ScalInc
  preserved_ScalIncTo preserved_AxpyUnitaryTo preserved_AxpyInc preserved_AxpyIncTo
  preserved_DotUnitary preserved_DotInc preserved_blas_Copy preserved_blas_Scal : pres.

Lemma preserved_reuseAs v r : preserved (reuseAs v r) (fun _ => True).
Proof.
  unfold reuseAs. destruct (r =? 0); [apply preserved_panic|].
  apply preserved_bind_T; [auto with pres|]. intros z.
  apply preserved_bind_T; [auto with pres|]. intros h.
  destruct z; [|pres].
  unfold use. eapply preserved_bind; [apply preserved_make|].
  intros d Hr. cbv beta in Hr. apply preserved_putVec. split; cbn; lia.
Qed.

Lemma preserved_NewVecDense n data : preserved (NewVecDense n data) (fun _ => True).
Proof.
  unfold NewVecDense. destruct (n <? 0) eqn:Hn; [apply preserved_panic|].
  apply Z.ltb_ge in Hn. destruct data as [d|].
  - destruct (negb (len d =? n)); [apply preserved_panic|].
    apply preserved_newVec. split; cbn; lia.
  - apply preserved_bind_T; [auto with pres|]. intros d.
    apply preserved_newVec. split; cbn; lia.
Qed.

Lemma preserved_SliceVec v i k : preserved (SliceVec v i k) (fun _ => True).
Proof.
  intros s Hs. unfold SliceVec.
  destruct ((i <? 0) || (k <=? i)) eqn:Hik; [exact Hs|].
  apply orb_false_iff in Hik as [Hi Hk]. apply Z.ltb_ge in Hi. apply Z.leb_gt in Hk.
  unfold bind, Cap, IsZero, bind, getVec, ret.
  destruct (vecs s !! v) as [h|] eqn:Hv; [|exact Hs].
  assert (Hh : header_ok h).
  { unfold store_ok in Hs. rewrite Forall_lookup in Hs. eauto. }
  destruct (Inc (mat h) =? 0) eqn:Hz.
  - replace (0 <? k) with true by (symmetry; apply Z.ltb_lt; lia). exact Hs.
  - rewrite Hv. apply Z.eqb_neq in Hz.
    destruct (_ <? k); [exact Hs|]. rewrite Hv. unfold reslice, panic.
    destruct (_ && _ && _); [|exact Hs]. unfold newVec. split; [|exact I].
    unfold store_ok in *. cbn. apply Forall_app. split; [exact Hs|].
    constructor; [|constructor]. split; cbn; [lia|contradiction].
Qed.

Lemma preserved_Reset v : preserved (Reset v) (fun _ => True).
Proof. unfold Reset. pres. Qed.

Lemma preserved_CopyVec v a : preserved (CopyVec v a) (fun _ => True).
Proof. unfold CopyVec, VecDense_Len. pres. Qed.

#[local] Hint Resolve preserved_reuseAs preserved_NewVecDense preserved_SliceVec
  preserved_Reset preserved_CopyVec : pres.

(** In [CloneVec] the length of the receiver is set before its stride;
    nothing can panic in between. *)
Lemma preserved_CloneVec v a : preserved (CloneVec v a) (fun _ => True).
Proof.
  unfold CloneVec. destruct (is_ptr v a); [now apply preserved_ret|].
  eapply preserved_bind; [apply preserved_Len_nonneg|]. intros al Hal. cbv beta in Hal.
  apply preserved_bind_T; [auto with pres|]. intros h.
  assert (Hblock : preserved
            (putVec v (mkVecDense (mat h) al);;
             (let* d := use (Data (mat h)) al in
              putVec v (mkVecDense (mkBlasVector 1 d) al);;
              ret d)) (fun _ => True)).
  { intros s Hs. unfold bind, putVec, use, make. cbn [vecs arrays].
    destruct (vecs s !! v) as [h0|] eqn:Hv; [|exact Hs].
    replace (al <? 0) with false by (symmetry; apply Z.ltb_ge; lia).
    cbn [vecs arrays].
    rewrite list_lookup_insert_eq by (eapply lookup_lt_Some; eauto).
    cbn. split; [|exact I]. unfold store_ok in *. cbn.
    rewrite list_insert_insert_eq. apply Forall_insert; [exact Hs|]. split; cbn; lia. }
  intros s Hs. specialize (Hblock s Hs). revert Hblock. unfold bind at 1 2 3 4.
  unfold bind at 1 2.
  destruct (putVec v (mkVecDense (mat h) al) s) as [[] s1|e s1]; [|auto].
  destruct (use (Data (mat h)) al s1) as [d s2|e s2]; [|auto].
  destruct (putVec v (mkVecDense (mkBlasVector 1 d) al) s2) as [[] s3|e s3]; [|auto].
  cbn [ret]. intros [Hs3 _].
  assert (Hrest : preserved
            (match rawVectorer a with
             | Some pa => let* amat := RawVector pa in blas_Copy al amat (mkBlasVector 1 d)
             | None => for_range al (fun i => let* x := AtVec a i in VecDense_SetVec v i x)
             end) (fun _ => True)) by pres.
  exact (Hrest s3 Hs3).
Qed.

Lemma preserved_VecDenseCopyOf a : preserved (VecDenseCopyOf a) (fun _ => True).
Proof.
  unfold VecDenseCopyOf. apply preserved_bind_T.
  - apply preserved_newVec. split; cbn; [lia|reflexivity].
  - intros v. apply preserved_bind_T; [apply preserved_CloneVec|]. intros _. now apply preserved_ret.
Qed.

Lemma preserved_ScaleVec X v alpha a : preserved (ScaleVec X v alpha a) (fun _ => True).
Proof. unfold ScaleVec. pres. Qed.

Lemma preserved_AddVec X v a b : preserved (AddVec X v a b) (fun _ => True).
Proof. unfold AddVec. pres. Qed.

Lemma preserved_SubVec X v a b : preserved (SubVec X v a b) (fun _ => True).
Proof. unfold SubVec. pres. Qed.

Lemma preserved_MulElemVec X v a b : preserved (MulElemVec X v a b) (fun _ => True).
Proof. unfold MulElemVec. pres. Qed.

Lemma preserved_DivElemVec X v a b : preserved (DivElemVec X v a b) (fun _ => True).
Proof. unfold DivElemVec. pres. Qed.

Lemma preserved_rawOperand X v a : preserved (rawOperand X v a) (fun _ => True).
Proof. unfold rawOperand. pres. Qed.

#[local] Hint Resolve preserved_CloneVec preserved_VecDenseCopyOf preserved_ScaleVec
  preserved_AddVec preserved_SubVec preserved_MulElemVec preserved_DivElemVec
  preserved_rawOperand : pres.

Lemma preserved_AddScaledVec X v a alpha b :
  preserved (AddScaledVec X v a alpha b) (fun _ => True).
Proof. unfold AddScaledVec. pres. Qed.

Lemma preserved_getWorkspaceVec l clear : preserved (getWorkspaceVec l clear) (fun _ => True).
Proof.
  unfold getWorkspaceVec. eapply preserved_bind; [apply preserved_make|].
  intros d Hl. cbv beta in Hl. apply preserved_newVec. split; cbn; lia.
Qed.

(** The workspace comes with a closure that keeps the invariant too. *)
Lemma preserved_isolatedWorkspace v a :
  preserved (isolatedWorkspace v a) (fun p => preserved (snd p) (fun _ => True)).
Proof.
  unfold isolatedWorkspace. apply preserved_bind_T; [auto with pres|]. intros l.
  destruct (l =? 0); [apply preserved_panic|].
  apply preserved_bind_T; [apply preserved_getWorkspaceVec|]. intros w.
  apply preserved_ret. cbn [snd]. unfold putWorkspaceVec. pres.
Qed.

Lemma preserved_MulVec_slow X v a b r c : preserved (MulVec_slow X v a b r c) (fun _ => True).
Proof. unfold MulVec_slow. pres. Qed.
#[local] Hint Resolve preserved_MulVec_slow : pres.

Lemma preserved_MulVec_dispatch X v a aU trans b bm r c :
  preserved (MulVec_dispatch X v a aU trans b bm r c) (fun _ => True).
Proof. unfold MulVec_dispatch. pres. Qed.
#[local] Hint Resolve preserved_MulVec_dispatch : pres.

Lemma preserved_MulVec X v a b : preserved (MulVec X v a b) (fun _ => True).
Proof.
  unfold MulVec. apply preserved_bind_T; [auto with pres|]. intros [r c].
  apply preserved_bind_T; [auto with pres|]. intros [br bc].
  destruct (negb (c =? br) || negb (bc =? 1)); [apply preserved_panic|].
  destruct (untransposeM a) as [aU trans].
  apply preserved_bind_T; [auto with pres|]. intros bm.
  apply preserved_bind_T; [auto with pres|]. intros _.
  destruct (is_ptrM v aU); [|destruct (is_ptr v b); [|auto with pres]].
  - eapply preserved_bind; [apply preserved_isolatedWorkspace|].
    intros [w restore] Hrestore. apply preserved_defer; [exact Hrestore|auto with pres].
  - eapply preserved_bind; [apply preserved_isolatedWorkspace|].
    intros [w restore] Hrestore. apply preserved_defer; [exact Hrestore|auto with pres].
Qed.

(** With a positive row stride, the header of a column view is in order
    also between the assignment of its stride and that of its data. *)
Lemma preserved_ColViewOf v rm j :
  1 <= Stride rm -> preserved (ColViewOf v rm j) (fun _ => True).
Proof.
  intros Hst. unfold ColViewOf.
  destruct ((Cols rm <=? j) || (j <? 0)) eqn:Hj; [apply preserved_panic|].
  apply orb_false_iff in Hj as [_ Hj]. apply Z.ltb_ge in Hj.
  apply preserved_bind_T; [auto with pres|]. intros z.
  eapply preserved_bind; [apply preserved_getVec|]. intros h [Hn _].
  destruct (negb z && negb (vn h =? Rows rm)); [apply preserved_panic|].
  apply preserved_bind_T; [apply preserved_putVec; split; cbn; lia|]. intros _.
  eapply preserved_bind; [apply preserved_reslice|]. intros d Hd. cbv beta in Hd.
  apply preserved_putVec. split; cbn; nia.
Qed.

Lemma preserved_RowViewOf v rm i : preserved (RowViewOf v rm i) (fun _ => True).
Proof.
  unfold RowViewOf.
  destruct ((Rows rm <=? i) || (i <? 0)) eqn:Hi; [apply preserved_panic|].
  apply preserved_bind_T; [auto with pres|]. intros z.
  eapply preserved_bind; [apply preserved_getVec|]. intros h [Hn _].
  destruct (negb z && negb (vn h =? Cols rm)); [apply preserved_panic|].
  apply preserved_bind_T; [apply preserved_putVec; split; cbn; lia|]. intros _.
  eapply preserved_bind; [apply preserved_reslice|]. intros d Hd. cbv beta in Hd.
  apply preserved_putVec. split; cbn; lia.
Qed.

Lemma preserved_state {A} (c : M A) s :
  preserved c (fun _ => True) -> store_ok s -> store_ok (res_state (c s)).
Proof.
  intros Hc Hs. specialize (Hc s Hs). destruct (c s); [apply Hc|exact Hc].
Qed.

Lemma run_store_ok X c s : call_ok c -> store_ok s -> store_ok (run X c s).
Proof.
  intros Hc Hs. destruct c; cbn [run]; apply preserved_state; try exact Hs;
    first [ solve [auto with pres]
          | apply preserved_AddScaledVec
          | apply preserved_MulVec
          | apply preserved_ColViewOf; exact Hc
          | apply preserved_RowViewOf ].
Qed.

Lemma reachable_store_ok X s : reachable X s -> store_ok s.
Proof.
  induction 1 as [|s c Hr IH Hc]; [constructor|]. now apply run_store_ok.
Qed.




(** ** DivElemVec (C2) *)

(** Away from the strided loop, [DivElemVec] leaves the quotients of the
    operands as they were before the call, also when the receiver is one of
    them: in the loop for strides 1, and in the element-wise loop for
    operands without a raw form. *)
Lemma DivElemVec_unit_spec (X : Extern) v hv a la b lb s :
  vecs s !! v = Some hv ->
  holds s a la ->
  holds s b lb ->
  la <> [] ->
  length la = length lb ->
  operand_ok X s v hv (Z.of_nat (length la)) a ->
  operand_ok X s v hv (Z.of_nat (length la)) b ->
  unit_fast_path s hv (Z.of_nat (length la)) a b ->
  exists s', DivElemVec X v a b s = Ok tt s'
             /\ elements (VecPtr v) s' = Ok (zip_with F32.div la lb) s'.
Proof.
  intros Hv Hha Hhb Hl Hlen Hoka Hokb Hunit.
  pose proof (length_pos_Z la Hl) as Hn.
  unfold DivElemVec. step (Len_holds _ _ _ Hha). step (Len_holds _ _ _ Hhb).
  rewrite <- Hlen, Z.eqb_refl. cbn [negb].
  destruct Hoka as [Hfa Hca]. destruct Hokb as [Hfb Hcb].
  destruct (reuseAs_sized v hv _ s Hv Hn (operand_sizing s v hv a la Hv Hha Hfa))
    as (s1 & Hre & Hrs).
  step Hre.
  destruct (operand_ready s s1 v hv a la Hv Hrs Hha Hfa) as [Hha1 Hraa].
  assert (Hfb' : operand_fits s v hv (Z.of_nat (length lb)) b) by now rewrite <- Hlen.
  assert (Hcb' : operand_checked X s v (sized s hv (Z.of_nat (length lb))) b)
    by now rewrite <- Hlen.
  assert (Hrs' : resized s v hv (Z.of_nat (length lb)) s1) by now rewrite <- Hlen.
  destruct (operand_ready s s1 v hv b lb Hv Hrs' Hhb Hfb') as [Hhb1 Hrab].
  rewrite <- Hlen in Hrab.
  pose proof Hrs as (Hv1 & Hwf1 & Hvn1 & _).
  set (n := Z.of_nat (length la)) in *. set (h1 := sized s hv n) in *.
  assert (Hfill : forall rd1 rd2 : Z -> M f32,
    (forall k s2, 0 <= k < n ->
       after_writes s1 (base (Data (mat h1))) (cell h1)
         (fun i => F32.div (nth_val la i) (nth_val lb i)) k s2 ->
       rd1 k s2 = Ok (nth_val la k) s2 /\ rd2 k s2 = Ok (nth_val lb k) s2) ->
    exists s', for_range n (fun i =>
                 let* x := rd1 i in let* y := rd2 i in setVec v i (F32.div x y)) s1
               = Ok tt s'
               /\ elements (VecPtr v) s' = Ok (zip_with F32.div la lb) s').
  { intros rd1 rd2 Hrd.
    destruct (fill_loop2 rd1 rd2 (fun i x => setVec v i x)
                F32.div s1 h1 (nth_val la) (nth_val lb) n Hwf1 Hvn1 Hrd) as (s' & Hrun & HR).
    - intros k s2 x Hk HR. apply (setVec_after s1 v h1 _ k s2 x Hv1 Hwf1 HR). lia.
    - exists s'. split; [exact Hrun|].
      rewrite (elements_after s1 v h1 _ s' Hv1 Hwf1) by (rewrite Hvn1; exact HR).
      rewrite Hvn1. unfold n. now rewrite (map_nth_val_fun2 F32.div la lb Hlen). }
  assert (Hslow :
    exists s', for_range n (fun i =>
                 let* x := AtVec a i in let* y := AtVec b i in setVec v i (F32.div x y)) s1
               = Ok tt s'
               /\ elements (VecPtr v) s' = Ok (zip_with F32.div la lb) s').
  { apply Hfill. intros k s2 Hk HR. split.
    - apply (AtVec_after s1 h1 _ k s2 a la Hha1 Hraa HR). exact Hk.
    - apply (AtVec_after s1 h1 _ k s2 b lb Hhb1 Hrab HR). unfold n in Hk. lia. }
  destruct (untranspose a) as [aU ta] eqn:Ea. destruct (untranspose b) as [bU tb] eqn:Eb.
  cbv zeta.
  destruct (rawVectorer aU) as [qa|] eqn:Hqa; [|exact Hslow].
  destruct (rawVectorer bU) as [qb|] eqn:Hqb; [|exact Hslow].
  assert (HaU : fst (untranspose a) = VecPtr qa) by (apply untranspose_raw; now rewrite Ea).
  assert (HbU : fst (untranspose b) = VecPtr qb) by (apply untranspose_raw; now rewrite Eb).
  pose proof (holds_untranspose _ _ _ Hha1) as Hha2. rewrite HaU in Hha2.
  pose proof (holds_untranspose _ _ _ Hhb1) as Hhb2. rewrite HbU in Hhb2.
  pose proof (reads_ahead_untranspose _ _ _ Hraa) as Hraa2. rewrite HaU in Hraa2.
  pose proof (reads_ahead_untranspose _ _ _ Hrab) as Hrab2. rewrite HbU in Hrab2.
  pose proof Hha2 as (ha & Hpa & Hwfa & Hvna & _). pose proof Hhb2 as (hb & Hpb & Hwfb & Hvnb & _).
  pose proof (holds_untranspose _ _ _ Hha) as Hha0. rewrite HaU in Hha0.
  pose proof (holds_untranspose _ _ _ Hhb) as Hhb0. rewrite HbU in Hhb0.
  pose proof (header_resized _ _ _ _ _ _ _ _ Hv Hrs Hha0 Hpa) as Hpa0.
  pose proof (header_resized _ _ _ _ _ _ _ _ Hv Hrs' Hhb0 Hpb) as Hpb0.
  destruct (Hunit qa qb ha hb HaU HbU Hpa0 Hpb0) as (Hi1 & Hia & Hib). fold h1 in Hi1.
  unfold RawVector. unfold bind at 1. unfold bind at 1. rewrite (getVec_ok _ _ _ Hpa).
  cbn [ret]. unfold bind at 1. unfold bind at 1. rewrite (getVec_ok _ _ _ Hpb). cbn [ret].
  step (check_step X s s1 v hv a la qa ha Hv Hrs Hha Hca HaU Hpa).
  step (check_step X s s1 v hv b lb qb hb Hv Hrs' Hhb Hcb' HbU Hpb).
  step (getVec_ok _ _ _ Hv1). fold h1.
  rewrite Hi1, Hia, Hib. cbn [Z.eqb Pos.eqb andb].
  rewrite (wf_unit_len _ _ Hwfa Hia), Hvna. fold n.
  apply Hfill. intros k s2 Hk HR. split.
  - apply (raw_read_after s1 h1 _ k s2 qa ha la _ Hpa Hha2 Hraa2 HR); [lia|nia].
  - apply (raw_read_after s1 h1 _ k s2 qb hb lb _ Hpb Hhb2 Hrab2 HR); [unfold n in Hk; lia|nia].
Qed.

(** C2 at a self-assigned receiver of stride 2.  The quotients of
    [[8, 8]] by [[2, 2]] are [[4, 4]]; [DivElemVec] leaves [[2, 2]] in the
    receiver: after the strided loop it runs the element-wise loop as well,
    which divides the quotients by [b] once more.  With stride 1 the first
    loop returns, and the self-assigned division of [[5, 10, 15, 20]] by
    [[5, 5, 5, 5]] gives [[1, 2, 3, 4]]. *)
Theorem DivElemVec_strided_self :
  returned (div_column_self emptyState) = Some (map F32.of_Z [2; 2])
  /\ zip_with F32.div (map F32.of_Z [8; 8]) (map F32.of_Z [2; 2]) = map F32.of_Z [4; 4]
  /\ returned (div_dense_self emptyState) = Some (map F32.of_Z [1; 2; 3; 4]).
Proof. repeat split; reflexivity. Qed.

(** * Further properties of the vector engine *)

(** ** The element-wise operations as one procedure *)

Lemma AddVec_elementwise X v a b :
  AddVec X v a b = elementwise X F32.add (axpy_fast F32.one) v a b.
Proof. reflexivity. Qed.

Lemma SubVec_elementwise X v a b :
  SubVec X v a b = elementwise X F32.sub (axpy_fast F32.neg_one) v a b.
Proof. reflexivity. Qed.

Lemma MulElemVec_elementwise X v a b :
  MulElemVec X v a b = elementwise X F32.mul (mul_fast v) v a b.
Proof. reflexivity. Qed.

Lemma DivElemVec_elementwise X v a b :
  DivElemVec X v a b = elementwise X F32.div (div_fast v a b) v a b.
Proof. reflexivity. Qed.

(** ** More float32 arithmetic *)

Lemma F32_mul_neg_one_finite (s : bool) (m : positive) (e : Z) :
  F32.valid (S754_finite s m e) ->
  F32.mul F32.neg_one (S754_finite s m e) = S754_finite (negb s) m e.
Proof.
  unfold F32.valid, valid_binary, bounded, canonical_mantissa.
  intros H. apply andb_true_iff in H as [Hc He].
  apply Z.eqb_eq in Hc. apply Z.leb_le in He.
  unfold F32.mul, F32.neg_one, SFmul, binary_round_aux.
  change (Pos.mul 8388608 m) with (Nat.iter 23 xO m).
  assert (Hd : Z.pos (digits2_pos (Nat.iter 23 xO m)) = Z.pos (digits2_pos m) + 23)
    by (rewrite digits2_pos_shift; reflexivity).
  unfold shr_fexp at 1. unfold Zdigits2. rewrite Hd.
  replace (Z.pos (digits2_pos m) + 23 + (-23 + e)) with (Z.pos (digits2_pos m) + e) by lia.
  rewrite Hc. replace (e - (-23 + e)) with 23 by lia.
  unfold shr, shr_record_of_loc.
  change (SpecFloat.iter_pos shr_1 23 ?r) with (Nat.iter 23 shr_1 r).
  rewrite shr_1_shift. cbn [shr_m loc_of_shr_record round_nearest_even].
  replace (-23 + e + 23) with e by lia.
  unfold shr_fexp, Zdigits2. rewrite Hc, Z.sub_diag. cbn [shr shr_record_of_loc shr_m].
  apply Z.leb_le in He. unfold F32.emax, F32.prec in *. rewrite He. reflexivity.
Qed.

(** Multiplying by -1 changes the sign and nothing else. *)
Lemma F32_mul_neg_one (x : f32) : F32.valid x -> F32.mul F32.neg_one x = SFopp x.
Proof.
  destruct x as [s|s| |s m e]; intros H; try reflexivity.
  now apply F32_mul_neg_one_finite.
Qed.

(** Subtracting is adding the opposite. *)
Lemma F32_sub_add_opp (x y : f32) : F32.sub x y = F32.add x (SFopp y).
Proof.
  destruct x as [sx|sx| |sx mx ex], y as [sy|sy| |sy my ey]; try reflexivity;
    destruct sx, sy; reflexivity.
Qed.

(** What the kernels compute for the factor -1 is the difference. *)
Lemma F32_axpy_neg_one (x y : f32) :
  F32.valid y -> F32.add (F32.mul F32.neg_one y) x = F32.sub x y.
Proof.
  intros Hy. rewrite (F32_mul_neg_one y Hy), F32_add_comm. symmetry. apply F32_sub_add_opp.
Qed.

(** ... and for the factor 1, the sum. *)
Lemma F32_axpy_one (x y : f32) :
  F32.valid y -> F32.add (F32.mul F32.one y) x = F32.add x y.
Proof. intros Hy. rewrite (F32_mul_one y Hy). apply F32_add_comm. Qed.

(** ** Operands and the receiver while it is written *)

Lemma after_writes_ext s0 bd pos val val' k s :
  (forall j, 0 <= j < k -> val j = val' j) ->
  after_writes s0 bd pos val k s -> after_writes s0 bd pos val' k s.
Proof.
  intros He (Hv & Hw & Hf & Hd). split; [exact Hv|]. split; [|split; [exact Hf|exact Hd]].
  intros j Hj. rewrite <- He by exact Hj. now apply Hw.
Qed.

Lemma apart_vecs s s' hv a : vecs s' = vecs s -> apart s hv a -> apart s' hv a.
Proof.
  intros Hv. induction a as [q|x IH|vals]; cbn [apart]; auto.
  intros (h & Hq & H). exists h. now rewrite Hv.
Qed.

Lemma reads_ahead_vecs s s' hv a :
  vecs s' = vecs s -> reads_ahead s hv a -> reads_ahead s' hv a.
Proof.
  intros Hv. induction a as [q|x IH|vals]; cbn [reads_ahead]; auto.
  intros (h & Hq & H). exists h. now rewrite Hv.
Qed.

(** An operand that shares no cell with the vector being written holds what
    it held. *)
Lemma holds_after_apart s0 hv val k s a l :
  holds s0 a l -> apart s0 hv a ->
  after_writes s0 (base (Data (mat hv))) (cell hv) val k s -> k <= vn hv ->
  holds s a l.
Proof.
  intros Hh Hap HR Hk. induction a as [q|x IH|vals]; cbn [holds apart] in *; [|auto|auto].
  destruct Hh as (h & Hq & Hwf & Hn & Hc). destruct Hap as (h' & Hq' & Hap).
  assert (h' = h) by congruence. subst h'.
  exists h. pose proof (wf_after _ _ _ _ _ _ _ HR Hwf) as Hwf'.
  destruct HR as (Hv & _ & Hf & _).
  split; [now rewrite Hv|]. split; [exact Hwf'|]. split; [exact Hn|].
  intros i x Hi. rewrite Hf; [now apply Hc|].
  destruct Hap as [Hb|Hap]; [now left|right].
  intros j Hj. apply Hap; [lia|]. apply lookup_lt_Some in Hi. lia.
Qed.

Lemma raw_cases (a b : Vector) :
  (exists qa qb, fst (untranspose a) = VecPtr qa /\ fst (untranspose b) = VecPtr qb)
  \/ rawVectorer (fst (untranspose a)) = None
  \/ rawVectorer (fst (untranspose b)) = None.
Proof.
  destruct (rawVectorer (fst (untranspose a))) as [qa|] eqn:Ha; [|now right; left].
  destruct (rawVectorer (fst (untranspose b))) as [qb|] eqn:Hb; [|now right; right].
  left. exists qa, qb. split; now apply untranspose_raw.
Qed.

(** ** The element-wise procedure *)

Section ElementwiseSpec.

Context (X : Extern) (g : f32 -> f32 -> f32)
        (fast : VecDense -> blasVector -> blasVector -> Z -> M unit)
        (v : ptr) (hv : VecDense) (a b : Vector) (la lb : list f32) (s : State).

Hypothesis Hv : vecs s !! v = Some hv.
Hypothesis Hha : holds s a la.
Hypothesis Hhb : holds s b lb.
Hypothesis Hl : la <> [].
Hypothesis Hlen : length la = length lb.
Hypothesis Hoka : operand_ok X s v hv (Z.of_nat (length la)) a.
Hypothesis Hokb : operand_ok X s v hv (Z.of_nat (length la)) b.

(** Lengths agree and the receiver is sized: the call goes on from a store
    where the operands are ready. *)
Lemma elementwise_sized :
  exists s1, ready s v hv a la b lb s1
             /\ elementwise X g fast v a b s
                = elementwise_body X g fast v a b (Z.of_nat (length la)) s1.
Proof.
  pose proof (length_pos_Z la Hl) as Hn.
  unfold elementwise. step (Len_holds _ _ _ Hha). step (Len_holds _ _ _ Hhb).
  rewrite <- Hlen, Z.eqb_refl. cbn [negb].
  destruct Hoka as [Hfa Hca]. destruct Hokb as [Hfb Hcb].
  destruct (reuseAs_sized v hv _ s Hv Hn (operand_sizing s v hv a la Hv Hha Hfa))
    as (s1 & Hre & Hrs).
  step Hre. exists s1. split; [|reflexivity].
  destruct (operand_ready s s1 v hv a la Hv Hrs Hha Hfa) as [Hha1 Hraa].
  assert (Hfb' : operand_fits s v hv (Z.of_nat (length lb)) b) by now rewrite <- Hlen.
  assert (Hrs' : resized s v hv (Z.of_nat (length lb)) s1) by now rewrite <- Hlen.
  destruct (operand_ready s s1 v hv b lb Hv Hrs' Hhb Hfb') as [Hhb1 Hrab].
  rewrite <- Hlen in Hrab. exact (conj Hrs (conj Hha1 (conj Hhb1 (conj Hraa Hrab)))).
Qed.

(** Without raw forms for both operands, the element-wise loop fills the
    receiver. *)
Lemma elementwise_slow s1 :
  ready s v hv a la b lb s1 ->
  rawVectorer (fst (untranspose a)) = None \/ rawVectorer (fst (untranspose b)) = None ->
  exists s', elementwise_body X g fast v a b (Z.of_nat (length la)) s1 = Ok tt s'
             /\ after_writes s1 (base (Data (mat (sized s hv (Z.of_nat (length la))))))
                  (cell (sized s hv (Z.of_nat (length la))))
                  (fun i => g (nth_val la i) (nth_val lb i)) (Z.of_nat (length la)) s'.
Proof.
  intros (Hrs & Hha1 & Hhb1 & Hraa & Hrab) Hnone.
  pose proof Hrs as (Hv1 & Hwf1 & Hvn1 & _).
  set (n := Z.of_nat (length la)) in *. set (h1 := sized s hv n) in *.
  assert (Hslow :
    exists s', for_range n (fun i =>
                 let* x := AtVec a i in let* y := AtVec b i in setVec v i (g x y)) s1
               = Ok tt s'
               /\ after_writes s1 (base (Data (mat h1))) (cell h1)
                    (fun i => g (nth_val la i) (nth_val lb i)) n s').
  { apply (fill_loop2 (fun i => AtVec a i) (fun i => AtVec b i) (fun i x => setVec v i x)
             g s1 h1 (nth_val la) (nth_val lb) n Hwf1 Hvn1).
    - intros k s2 Hk HR. split.
      + apply (AtVec_after s1 h1 _ k s2 a la Hha1 Hraa HR). exact Hk.
      + apply (AtVec_after s1 h1 _ k s2 b lb Hhb1 Hrab HR). unfold n in Hk. lia.
    - intros k s2 x Hk HR. apply (setVec_after s1 v h1 _ k s2 x Hv1 Hwf1 HR). lia. }
  unfold elementwise_body.
  destruct (untranspose a) as [aU ta] eqn:Ea. destruct (untranspose b) as [bU tb] eqn:Eb.
  cbn [fst] in Hnone.
  destruct (rawVectorer aU) as [qa|] eqn:Hqa; [|exact Hslow].
  destruct (rawVectorer bU) as [qb|] eqn:Hqb; [|exact Hslow].
  destruct Hnone; discriminate.
Qed.

(** With raw forms for both, the overlap checks pass and the code for raw
    forms runs on the headers of the operands. *)
Lemma elementwise_raw s1 qa qb :
  ready s v hv a la b lb s1 ->
  fst (untranspose a) = VecPtr qa ->
  fst (untranspose b) = VecPtr qb ->
  exists ha hb,
    vecs s1 !! qa = Some ha /\ vecs s !! qa = Some ha
    /\ holds s1 (VecPtr qa) la
    /\ reads_ahead s1 (sized s hv (Z.of_nat (length la))) (VecPtr qa)
    /\ vecs s1 !! qb = Some hb /\ vecs s !! qb = Some hb
    /\ holds s1 (VecPtr qb) lb
    /\ reads_ahead s1 (sized s hv (Z.of_nat (length la))) (VecPtr qb)
    /\ elementwise_body X g fast v a b (Z.of_nat (length la)) s1
       = fast (sized s hv (Z.of_nat (length la))) (mat ha) (mat hb) (Z.of_nat (length la)) s1.
Proof.
  intros (Hrs & Hha1 & Hhb1 & Hraa & Hrab) HaU HbU.
  destruct Hoka as [Hfa Hca]. destruct Hokb as [Hfb Hcb].
  assert (Hcb' : operand_checked X s v (sized s hv (Z.of_nat (length lb))) b)
    by now rewrite <- Hlen.
  assert (Hrs' : resized s v hv (Z.of_nat (length lb)) s1) by now rewrite <- Hlen.
  pose proof Hrs as (Hv1 & Hwf1 & Hvn1 & _).
  pose proof (holds_untranspose _ _ _ Hha1) as Hha2. rewrite HaU in Hha2.
  pose proof (holds_untranspose _ _ _ Hhb1) as Hhb2. rewrite HbU in Hhb2.
  pose proof (reads_ahead_untranspose _ _ _ Hraa) as Hraa2. rewrite HaU in Hraa2.
  pose proof (reads_ahead_untranspose _ _ _ Hrab) as Hrab2. rewrite HbU in Hrab2.
  pose proof Hha2 as (ha & Hpa & _). pose proof Hhb2 as (hb & Hpb & _).
  pose proof (holds_untranspose _ _ _ Hha) as Hha0. rewrite HaU in Hha0.
  pose proof (holds_untranspose _ _ _ Hhb) as Hhb0. rewrite HbU in Hhb0.
  exists ha, hb.
  split; [exact Hpa|]. split; [exact (header_resized _ _ _ _ _ _ _ _ Hv Hrs Hha0 Hpa)|].
  split; [exact Hha2|]. split; [exact Hraa2|].
  split; [exact Hpb|]. split; [exact (header_resized _ _ _ _ _ _ _ _ Hv Hrs' Hhb0 Hpb)|].
  split; [exact Hhb2|]. split; [exact Hrab2|].
  unfold elementwise_body.
  destruct (untranspose a) as [aU ta] eqn:Ea. destruct (untranspose b) as [bU tb] eqn:Eb.
  cbn [fst] in HaU, HbU. subst aU bU. cbn [rawVectorer].
  unfold RawVector. unfold bind at 1. unfold bind at 1. rewrite (getVec_ok _ _ _ Hpa).
  cbn [ret]. unfold bind at 1. unfold bind at 1. rewrite (getVec_ok _ _ _ Hpb). cbn [ret].
  assert (HaU' : fst (untranspose a) = VecPtr qa) by now rewrite Ea.
  assert (HbU' : fst (untranspose b) = VecPtr qb) by now rewrite Eb.
  step (check_step X s s1 v hv a la qa ha Hv Hrs Hha Hca HaU' Hpa).
  step (check_step X s s1 v hv b lb qb hb Hv Hrs' Hhb Hcb' HbU' Hpb).
  now step (getVec_ok _ _ _ Hv1).
Qed.

(** Once the receiver is filled with the values [g a[i] b[i]], it reads back
    as such, and an operand other than the receiver holds what it held. *)
Lemma elementwise_filled s1 s' :
  ready s v hv a la b lb s1 ->
  after_writes s1 (base (Data (mat (sized s hv (Z.of_nat (length la))))))
    (cell (sized s hv (Z.of_nat (length la))))
    (fun i => g (nth_val la i) (nth_val lb i)) (Z.of_nat (length la)) s' ->
  elements (VecPtr v) s' = Ok (zip_with g la lb) s'
  /\ (is_ptr v a = false -> elements a s' = Ok la s')
  /\ (is_ptr v b = false -> elements b s' = Ok lb s').
Proof.
  intros (Hrs & Hha1 & Hhb1 & Hraa & Hrab) HR.
  pose proof Hrs as (Hv1 & Hwf1 & Hvn1 & _).
  destruct Hoka as [Hfa _]. destruct Hokb as [Hfb _].
  split; [|split].
  - rewrite (elements_after s1 v _ _ s' Hv1 Hwf1) by (rewrite Hvn1; exact HR).
    rewrite Hvn1. now rewrite (map_nth_val_fun2 g la lb Hlen).
  - intros Hp. destruct Hfa as [Hp'|(_ & Hfit)]; [congruence|].
    apply elements_holds.
    apply (holds_after_apart s1 _ _ _ s' a la Hha1
             (apart_resized _ _ _ _ _ _ _ Hv Hrs Hha Hfit) HR). lia.
  - intros Hp. destruct Hfb as [Hp'|(_ & Hfit)]; [congruence|].
    apply elements_holds.
    apply (holds_after_apart s1 _ _ _ s' b lb Hhb1
             (apart_resized _ _ _ _ _ _ _ Hv Hrs Hhb Hfit) HR). lia.
Qed.

(** The procedure as a whole, given that the code for raw forms fills the
    receiver with the values [g a[i] b[i]]. *)
Lemma elementwise_spec :
  (forall s1 qa qb ha hb,
     ready s v hv a la b lb s1 ->
     vecs s1 !! qa = Some ha -> holds s1 (VecPtr qa) la ->
     reads_ahead s1 (sized s hv (Z.of_nat (length la))) (VecPtr qa) ->
     vecs s1 !! qb = Some hb -> holds s1 (VecPtr qb) lb ->
     reads_ahead s1 (sized s hv (Z.of_nat (length la))) (VecPtr qb) ->
     exists s', fast (sized s hv (Z.of_nat (length la))) (mat ha) (mat hb)
                  (Z.of_nat (length la)) s1 = Ok tt s'
                /\ after_writes s1 (base (Data (mat (sized s hv (Z.of_nat (length la))))))
                     (cell (sized s hv (Z.of_nat (length la))))
                     (fun i => g (nth_val la i) (nth_val lb i)) (Z.of_nat (length la)) s') ->
  exists s', elementwise X g fast v a b s = Ok tt s'
             /\ elements (VecPtr v) s' = Ok (zip_with g la lb) s'
             /\ (is_ptr v a = false -> elements a s' = Ok la s')
             /\ (is_ptr v b = false -> elements b s' = Ok lb s').
Proof.
  intros Hfast. destruct elementwise_sized as (s1 & Hrd & Hrun). rewrite Hrun.
  assert (exists s', elementwise_body X g fast v a b (Z.of_nat (length la)) s1 = Ok tt s'
            /\ after_writes s1 (base (Data (mat (sized s hv (Z.of_nat (length la))))))
                 (cell (sized s hv (Z.of_nat (length la))))
                 (fun i => g (nth_val la i) (nth_val lb i)) (Z.of_nat (length la)) s')
    as (s' & Hbody & HR).
  { destruct (raw_cases a b) as [(qa & qb & HaU & HbU)|Hnone].
    - destruct (elementwise_raw s1 qa qb Hrd HaU HbU)
        as (ha & hb & Hpa & _ & Hha2 & Hraa2 & Hpb & _ & Hhb2 & Hrab2 & Heq).
      rewrite Heq. now apply (Hfast s1 qa qb).
    - now apply elementwise_slow. }
  exists s'. split; [exact Hbody|]. now apply (elementwise_filled s1).
Qed.

End ElementwiseSpec.

(** The loops over raw forms. *)

Lemma unit_fill (g : f32 -> f32 -> f32) (wr : Z -> f32 -> M unit)
    s1 h1 qa ha la qb hb lb :
  wf_vec s1 h1 ->
  vn h1 = Z.of_nat (length la) ->
  length la = length lb ->
  Inc (mat h1) = 1 -> Inc (mat ha) = 1 -> Inc (mat hb) = 1 ->
  vecs s1 !! qa = Some ha -> holds s1 (VecPtr qa) la -> reads_ahead s1 h1 (VecPtr qa) ->
  vecs s1 !! qb = Some hb -> holds s1 (VecPtr qb) lb -> reads_ahead s1 h1 (VecPtr qb) ->
  (forall k s x, 0 <= k < Z.of_nat (length la) ->
     after_writes s1 (base (Data (mat h1))) (cell h1)
       (fun i => g (nth_val la i) (nth_val lb i)) k s ->
     exists s2, wr k x s = Ok tt s2
                /\ is_Some (get_cell s (base (Data (mat h1))) (cell h1 k))
                /\ vecs s2 = vecs s
                /\ get_cell s2 (base (Data (mat h1))) (cell h1 k) = Some x
                /\ (forall b p, b <> base (Data (mat h1)) \/ p <> cell h1 k ->
                      get_cell s2 b p = get_cell s b p)) ->
  exists s',
    for_range (len (Data (mat ha))) (fun i =>
      let* x := index (Data (mat ha)) i in
      let* y := index (Data (mat hb)) i in
      wr i (g x y)) s1 = Ok tt s'
    /\ after_writes s1 (base (Data (mat h1))) (cell h1)
         (fun i => g (nth_val la i) (nth_val lb i)) (Z.of_nat (length la)) s'.
Proof.
  intros Hwf1 Hvn1 Hlen Hi1 Hia Hib Hqa Hha Hraa Hqb Hhb Hrab Hwr.
  assert (Hwfa : wf_vec s1 ha /\ vn ha = Z.of_nat (length la)).
  { destruct Hha as (h & Hq & Hwf & Hvn & _). assert (h = ha) by congruence. now subst h. }
  destruct Hwfa as [Hwfa Hvna].
  rewrite (wf_unit_len _ _ Hwfa Hia), Hvna.
  apply (fill_loop2 (fun i => index (Data (mat ha)) i) (fun i => index (Data (mat hb)) i)
           wr g s1 h1 (nth_val la) (nth_val lb) _ Hwf1 Hvn1); [|exact Hwr].
  intros k s2 Hk HR. split.
  - apply (raw_read_after s1 h1 _ k s2 qa ha la _ Hqa Hha Hraa HR); [lia|nia].
  - apply (raw_read_after s1 h1 _ k s2 qb hb lb _ Hqb Hhb Hrab HR); [lia|nia].
Qed.

(** The running indices of the strided loop are the element number times
    the strides. *)
Lemma strided_loop_steps (g : f32 -> f32 -> f32) v amat bmat (m : nat) (k : Z) s :
  loop m k (k * Inc amat, k * Inc bmat) (fun i '(ia, ib) =>
    let* x := index (Data amat) ia in
    let* y := index (Data bmat) ib in
    setVec v i (g x y) ;;
    ret (ia + Inc amat, ib + Inc bmat)) s
  = match loop m k tt (fun i _ =>
            let* x := index (Data amat) (i * Inc amat) in
            let* y := index (Data bmat) (i * Inc bmat) in
            setVec v i (g x y)) s with
    | Ok _ s' => Ok ((k + Z.of_nat m) * Inc amat, (k + Z.of_nat m) * Inc bmat) s'
    | Panic e s' => Panic e s'
    end.
Proof.
  set (bp := fun (i : Z) '(ia, ib) =>
    let* x := index (Data amat) ia in
    let* y := index (Data bmat) ib in
    setVec v i (g x y) ;;
    ret (ia + Inc amat, ib + Inc bmat)).
  set (b' := fun (i : Z) (_ : unit) =>
    let* x := index (Data amat) (i * Inc amat) in
    let* y := index (Data bmat) (i * Inc bmat) in
    setVec v i (g x y)).
  revert k s.
  assert (Hstep : forall k s,
    bp k (k * Inc amat, k * Inc bmat) s
    = match b' k tt s with
      | Ok _ s' => Ok ((k + 1) * Inc amat, (k + 1) * Inc bmat) s'
      | Panic e s' => Panic e s'
      end).
  { intros k s. unfold bp, b', bind.
    destruct (index (Data amat) (k * Inc amat) s) as [x s1|e s1]; [|reflexivity].
    destruct (index (Data bmat) (k * Inc bmat) s1) as [y s2|e s2]; [|reflexivity].
    destruct (setVec v k (g x y) s2) as [[] s3|e s3]; [|reflexivity].
    unfold ret. f_equal. f_equal; lia. } induction m as [|m IH]; intros k s.
  - cbn [loop ret]. now rewrite Z.add_0_r.
  - cbn [loop]. unfold bind. rewrite Hstep.
    destruct (b' k tt s) as [[] s1|e s1]; [|reflexivity].
    rewrite IH. now replace (k + 1 + Z.of_nat m) with (k + Z.of_nat (S m)) by lia.
Qed.

Lemma strided_fill (g : f32 -> f32 -> f32) s1 v h1 qa ha la qb hb lb :
  vecs s1 !! v = Some h1 ->
  wf_vec s1 h1 ->
  vn h1 = Z.of_nat (length la) ->
  length la = length lb ->
  vecs s1 !! qa = Some ha -> holds s1 (VecPtr qa) la -> reads_ahead s1 h1 (VecPtr qa) ->
  vecs s1 !! qb = Some hb -> holds s1 (VecPtr qb) lb -> reads_ahead s1 h1 (VecPtr qb) ->
  exists s' r,
    strided_loop g v (mat ha) (mat hb) (Z.of_nat (length la)) s1 = Ok r s'
    /\ after_writes s1 (base (Data (mat h1))) (cell h1)
         (fun i => g (nth_val la i) (nth_val lb i)) (Z.of_nat (length la)) s'.
Proof.
  intros Hv1 Hwf1 Hvn1 Hlen Hqa Hha Hraa Hqb Hhb Hrab.
  destruct (fill_loop2 (fun i => index (Data (mat ha)) (i * Inc (mat ha)))
              (fun i => index (Data (mat hb)) (i * Inc (mat hb)))
              (fun i x => setVec v i x) g s1 h1 (nth_val la) (nth_val lb) _ Hwf1 Hvn1)
    as (s' & Hrun & HR).
  - intros k s2 Hk HR. split.
    + apply (raw_read_after s1 h1 _ k s2 qa ha la _ Hqa Hha Hraa HR); [lia|nia].
    + apply (raw_read_after s1 h1 _ k s2 qb hb lb _ Hqb Hhb Hrab HR); [lia|nia].
  - intros k s2 x Hk HR. apply (setVec_after s1 v h1 _ k s2 x Hv1 Hwf1 HR). lia.
  - exists s'. eexists. split; [|exact HR].
    unfold strided_loop.
    change (0, 0) with (0 * Inc (mat ha), 0 * Inc (mat hb)).
    rewrite strided_loop_steps. unfold for_range in Hrun. now rewrite Hrun.
Qed.

(** ** AddVec, SubVec, MulElemVec *)

Lemma axpy_fast_fill (g : f32 -> f32 -> f32) alpha s1 h1 qa ha la qb hb lb :
  (forall x y, F32.valid y -> F32.add (F32.mul alpha y) x = g x y) ->
  Forall F32.valid lb ->
  wf_vec s1 h1 ->
  vn h1 = Z.of_nat (length la) ->
  length la = length lb ->
  vecs s1 !! qa = Some ha -> holds s1 (VecPtr qa) la -> reads_ahead s1 h1 (VecPtr qa) ->
  vecs s1 !! qb = Some hb -> holds s1 (VecPtr qb) lb -> reads_ahead s1 h1 (VecPtr qb) ->
  exists s', axpy_fast alpha h1 (mat ha) (mat hb) (Z.of_nat (length la)) s1 = Ok tt s'
             /\ after_writes s1 (base (Data (mat h1))) (cell h1)
                  (fun i => g (nth_val la i) (nth_val lb i)) (Z.of_nat (length la)) s'.
Proof.
  intros Hg Hval Hwf1 Hvn1 Hlen Hpa Hha Hraa Hpb Hhb Hrab.
  destruct (axpy_to_spec alpha s1 h1 qa ha la qb hb lb Hwf1 Hvn1 Hlen
              Hpa Hha Hraa Hpb Hhb Hrab) as (s' & Hrun & HR).
  exists s'. split; [exact Hrun|]. eapply after_writes_ext; [|exact HR].
  intros j Hj. cbv beta. apply Hg. apply nth_val_Forall; [exact Hval|lia].
Qed.

(** [AddVec] leaves [a[i] + b[i]] in the receiver, in the kernel for strides
    1, in the strided kernel and in the element-wise loop, also when the
    receiver is [a] or [b] itself; an operand other than the receiver is
    left as it was. *)
Theorem AddVec_sums (X : Extern) v hv a la b lb s :
  vecs s !! v = Some hv ->
  holds s a la ->
  holds s b lb ->
  la <> [] ->
  length la = length lb ->
  Forall F32.valid lb ->
  operand_ok X s v hv (Z.of_nat (length la)) a ->
  operand_ok X s v hv (Z.of_nat (length la)) b ->
  exists s', AddVec X v a b s = Ok tt s'
             /\ elements (VecPtr v) s' = Ok (zip_with F32.add la lb) s'
             /\ (is_ptr v a = false -> elements a s' = Ok la s')
             /\ (is_ptr v b = false -> elements b s' = Ok lb s').
Proof.
  intros Hv Hha Hhb Hl Hlen Hval Hoka Hokb. rewrite AddVec_elementwise.
  apply (elementwise_spec X F32.add _ v hv a b la lb s Hv Hha Hhb Hl Hlen Hoka Hokb).
  intros s1 qa qb ha hb ((_ & Hwf1 & Hvn1 & _) & _) Hpa Hha2 Hraa Hpb Hhb2 Hrab.
  apply (axpy_fast_fill F32.add F32.one s1 _ qa ha la qb hb lb); auto.
  intros x y. apply F32_axpy_one.
Qed.

(** [SubVec] leaves [a[i] - b[i]] in the receiver: the kernels compute
    [(-1) * b[i] + a[i]], which is the same float32; aliasing as for
    [AddVec]. *)
Theorem SubVec_differences (X : Extern) v hv a la b lb s :
  vecs s !! v = Some hv ->
  holds s a la ->
  holds s b lb ->
  la <> [] ->
  length la = length lb ->
  Forall F32.valid lb ->
  operand_ok X s v hv (Z.of_nat (length la)) a ->
  operand_ok X s v hv (Z.of_nat (length la)) b ->
  exists s', SubVec X v a b s = Ok tt s'
             /\ elements (VecPtr v) s' = Ok (zip_with F32.sub la lb) s'
             /\ (is_ptr v a = false -> elements a s' = Ok la s')
             /\ (is_ptr v b = false -> elements b s' = Ok lb s').
Proof.
  intros Hv Hha Hhb Hl Hlen Hval Hoka Hokb. rewrite SubVec_elementwise.
  apply (elementwise_spec X F32.sub _ v hv a b la lb s Hv Hha Hhb Hl Hlen Hoka Hokb).
  intros s1 qa qb ha hb ((_ & Hwf1 & Hvn1 & _) & _) Hpa Hha2 Hraa Hpb Hhb2 Hrab.
  apply (axpy_fast_fill F32.sub F32.neg_one s1 _ qa ha la qb hb lb); auto.
  intros x y. apply F32_axpy_neg_one.
Qed.

Lemma unit_strides (x y z : Z) :
  (x =? 1) && (y =? 1) && (z =? 1) = true -> x = 1 /\ y = 1 /\ z = 1.
Proof.
  intros H. apply andb_true_iff in H as [H Hz]. apply andb_true_iff in H as [Hx Hy].
  apply Z.eqb_eq in Hx, Hy, Hz. auto.
Qed.

(** [MulElemVec] leaves [a[i] * b[i]] in the receiver, for strides 1 and for
    any other strides, also when the receiver is [a] or [b] itself. *)
Theorem MulElemVec_products (X : Extern) v hv a la b lb s :
  vecs s !! v = Some hv ->
  holds s a la ->
  holds s b lb ->
  la <> [] ->
  length la = length lb ->
  operand_ok X s v hv (Z.of_nat (length la)) a ->
  operand_ok X s v hv (Z.of_nat (length la)) b ->
  exists s', MulElemVec X v a b s = Ok tt s'
             /\ elements (VecPtr v) s' = Ok (zip_with F32.mul la lb) s'
             /\ (is_ptr v a = false -> elements a s' = Ok la s')
             /\ (is_ptr v b = false -> elements b s' = Ok lb s').
Proof.
  intros Hv Hha Hhb Hl Hlen Hoka Hokb. rewrite MulElemVec_elementwise.
  apply (elementwise_spec X F32.mul _ v hv a b la lb s Hv Hha Hhb Hl Hlen Hoka Hokb).
  intros s1 qa qb ha hb ((Hv1 & Hwf1 & Hvn1 & _) & _) Hpa Hha2 Hraa Hpb Hhb2 Hrab.
  unfold mul_fast.
  destruct ((Inc (mat (sized s hv (Z.of_nat (length la)))) =? 1)
            && (Inc (mat ha) =? 1) && (Inc (mat hb) =? 1)) eqn:Hinc.
  - apply unit_strides in Hinc as (Hi1 & Hia & Hib).
    apply (unit_fill F32.mul (fun i x => store (Data (mat (sized s hv (Z.of_nat (length la))))) i x)
             s1 _ qa ha la qb hb lb); auto.
    intros k s2 x Hk HR. apply (store_after s1 _ _ k s2 _ x Hwf1 HR); lia.
  - destruct (strided_fill F32.mul s1 v _ qa ha la qb hb lb Hv1 Hwf1 Hvn1 Hlen
                Hpa Hha2 Hraa Hpb Hhb2 Hrab) as (s' & r & Hrun & HR).
    exists s'. split; [now step Hrun|exact HR].
Qed.

(** ** DivElemVec on strided operands *)

Lemma length_zip_with_same (g : f32 -> f32 -> f32) (la lb : list f32) :
  length la = length lb -> length (zip_with g la lb) = length la.
Proof. intros H. rewrite length_zip_with. lia. Qed.

(** In its strided branch [DivElemVec] runs the strided loop and then the
    element-wise loop.  The second loop reads the operands again: an operand
    other than the receiver still holds its values, so that the quotients
    are written a second time; an operand that is the receiver itself now
    holds the quotients, which are divided once more. *)
Theorem DivElemVec_strided (X : Extern) v hv a la b lb s qa qb ha hb :
  vecs s !! v = Some hv ->
  holds s a la ->
  holds s b lb ->
  la <> [] ->
  length la = length lb ->
  operand_ok X s v hv (Z.of_nat (length la)) a ->
  operand_ok X s v hv (Z.of_nat (length la)) b ->
  fst (untranspose a) = VecPtr qa ->
  fst (untranspose b) = VecPtr qb ->
  vecs s !! qa = Some ha ->
  vecs s !! qb = Some hb ->
  Inc (mat (sized s hv (Z.of_nat (length la)))) <> 1
  \/ Inc (mat ha) <> 1 \/ Inc (mat hb) <> 1 ->
  exists s', DivElemVec X v a b s = Ok tt s'
             /\ elements (VecPtr v) s'
                = Ok (div_twice (is_ptr v a) (is_ptr v b) la lb) s'
             /\ (is_ptr v a = false -> is_ptr v b = false ->
                 div_twice (is_ptr v a) (is_ptr v b) la lb = zip_with F32.div la lb).
Proof.
  intros Hv Hha Hhb Hl Hlen Hoka Hokb HaU HbU Hqa Hqb Hstr.
  rewrite DivElemVec_elementwise.
  destruct (elementwise_sized X F32.div (div_fast v a b) v hv a b la lb s
              Hv Hha Hhb Hl Hlen Hoka Hokb) as (s1 & Hrd & Hrun).
  rewrite Hrun.
  destruct (elementwise_raw X F32.div (div_fast v a b) v hv a b la lb s
              Hv Hha Hhb Hlen Hoka Hokb s1 qa qb Hrd HaU HbU)
    as (ha' & hb' & Hpa & Hqa' & Hha2 & Hraa2 & Hpb & Hqb' & Hhb2 & Hrab2 & Heq).
  assert (ha' = ha) by congruence. assert (hb' = hb) by congruence. subst ha' hb'.
  rewrite Heq. clear Heq Hrun.
  destruct Hrd as (Hrs & Hha1 & Hhb1 & Hraa & Hrab).
  pose proof Hrs as (Hv1 & Hwf1 & Hvn1 & _).
  set (n := Z.of_nat (length la)) in *. set (h1 := sized s hv n) in *.
  unfold div_fast.
  replace ((Inc (mat h1) =? 1) && (Inc (mat ha) =? 1) && (Inc (mat hb) =? 1)) with false.
  2:{ symmetry. apply not_true_is_false. intros H. apply unit_strides in H. lia. }
  destruct (strided_fill F32.div s1 v h1 qa ha la qb hb lb Hv1 Hwf1 Hvn1 Hlen
              Hpa Hha2 Hraa2 Hpb Hhb2 Hrab2) as (s2 & r & Hrun2 & HR2).
  fold n in Hrun2, HR2. step Hrun2.
  set (q := zip_with F32.div la lb).
  assert (Hq : holds s2 (VecPtr v) q).
  { assert (HR2' : after_writes s1 (base (Data (mat h1))) (cell h1)
                     (fun i => F32.div (nth_val la i) (nth_val lb i)) (vn h1) s2)
      by (rewrite Hvn1; exact HR2).
    pose proof (holds_after s1 v h1 _ s2 Hv1 Hwf1 HR2') as H.
    rewrite Hvn1 in H. unfold n in H.
    now rewrite (map_nth_val_fun2 F32.div la lb Hlen) in H. }
  assert (Hlq : length q = length la) by now apply length_zip_with_same.
  pose proof (wf_after _ _ _ _ _ _ _ HR2 Hwf1) as Hwf2.
  assert (Hvs2 : vecs s2 = vecs s1) by apply HR2.
  assert (Hv2 : vecs s2 !! v = Some h1) by now rewrite Hvs2.
  assert (Hop : forall c lc, holds s c lc -> holds s1 c lc ->
            operand_ok X s v hv n c -> length lc = length la ->
            holds s2 c (if is_ptr v c then q else lc)).
  { intros c lc Hc Hc1 [Hfit _] Hlc. destruct (is_ptr v c) eqn:Hp.
    - apply is_ptr_true in Hp. now subst c.
    - destruct Hfit as [Hp'|(_ & Hfit)]; [congruence|].
      exact (holds_after_apart s1 h1 _ n s2 c lc Hc1
               (apart_resized s s1 v hv n c lc Hv Hrs Hc Hfit) HR2 ltac:(lia)). }
  pose proof (Hop a la Hha Hha1 Hoka eq_refl) as Hha3.
  pose proof (Hop b lb Hhb Hhb1 Hokb ltac:(lia)) as Hhb3.
  set (la2 := if is_ptr v a then q else la) in *.
  set (lb2 := if is_ptr v b then q else lb) in *.
  assert (Hla2 : length la2 = length la) by (unfold la2; destruct (is_ptr v a); auto).
  assert (Hlb2 : length lb2 = length la) by (unfold lb2; destruct (is_ptr v b); auto; lia).
  destruct (fill_loop2 (fun i => AtVec a i) (fun i => AtVec b i) (fun i x => setVec v i x)
              F32.div s2 h1 (nth_val la2) (nth_val lb2) n Hwf2 Hvn1) as (s3 & Hrun3 & HR3).
  - intros k s4 Hk HR. split.
    + apply (AtVec_after s2 h1 _ k s4 a la2 Hha3 (reads_ahead_vecs _ _ _ _ Hvs2 Hraa) HR). lia.
    + apply (AtVec_after s2 h1 _ k s4 b lb2 Hhb3 (reads_ahead_vecs _ _ _ _ Hvs2 Hrab) HR). lia.
  - intros k s4 x Hk HR. apply (setVec_after s2 v h1 _ k s4 x Hv2 Hwf2 HR). lia.
  - exists s3. split; [exact Hrun3|]. split.
    + rewrite (elements_after s2 v h1 _ s3 Hv2 Hwf2) by (rewrite Hvn1; exact HR3).
      rewrite Hvn1. unfold n. rewrite <- Hla2.
      now rewrite (map_nth_val_fun2 F32.div la2 lb2 ltac:(lia)).
    + intros Hp1 Hp2. unfold div_twice. now rewrite Hp1, Hp2.
Qed.

(** ** Building the scenarios *)

Lemma wf_header s h arr :
  1 <= Inc (mat h) ->
  1 <= vn h ->
  len (Data (mat h)) = (vn h - 1) * Inc (mat h) + 1 ->
  0 <= off (Data (mat h)) ->
  len (Data (mat h)) <= cap (Data (mat h)) ->
  arrays s !! base (Data (mat h)) = Some arr ->
  off (Data (mat h)) + cap (Data (mat h)) <= Z.of_nat (length arr) ->
  wf_vec s h.
Proof.
  intros Hi Hn Hl Ho Hc Harr Hlen. constructor; auto.
  intros p Hp. unfold get_cell.
  replace (p <? 0) with false by (symmetry; apply Z.ltb_ge; lia).
  rewrite Harr. apply lookup_lt_is_Some_2. lia.
Qed.

Lemma holds_header s q h l arr :
  vecs s !! q = Some h ->
  wf_vec s h ->
  vn h = Z.of_nat (length l) ->
  arrays s !! base (Data (mat h)) = Some arr ->
  (forall k x, l !! k = Some x -> arr !! Z.to_nat (cell h (Z.of_nat k)) = Some x) ->
  holds s (VecPtr q) l.
Proof.
  intros Hq Hwf Hn Harr Hc. exists h. split; [exact Hq|]. split; [exact Hwf|].
  split; [exact Hn|]. intros k x Hk. unfold get_cell.
  replace (cell h (Z.of_nat k) <? 0) with false.
  - rewrite Harr. now apply Hc.
  - symmetry. apply Z.ltb_ge. unfold cell. destruct Hwf. nia.
Qed.

(** Lookups in a store that is written out. *)
Ltac by_lookup :=
  let q := fresh "q" in let h := fresh "h" in
  let Hq := fresh "Hq" in let Hh := fresh "Hh" in
  intros q h Hq Hh; cbn in Hq; inversion Hq; subst q;
  cbn in Hh; inversion Hh; subst h; reflexivity.

(** The cells of a vector that is written out. *)
Ltac by_cells :=
  let x := fresh "x" in let H := fresh "H" in
  intros k x;
  do 8 (try (destruct k as [|k]; [cbn; intros H; inversion H; subst; reflexivity|]));
  cbn; intros H; discriminate H.

(** An operand of an operation whose receiver is zero-size. *)
Ltac into_zero_size :=
  split; [right; split; [reflexivity|now left]|right; by_lookup].

Lemma holds_store_axpy :
  holds store_axpy (VecPtr 0%nat) [F32.of_Z 2; F32.neg_one]
  /\ holds store_axpy (VecPtr 1%nat) [F32.one; F32.one].
Proof.
  split; (eapply holds_dense; [reflexivity|reflexivity|reflexivity|discriminate|auto]).
Qed.

Lemma holds_store_column :
  holds store_column (VecPtr 0%nat) (map F32.of_Z [8; 8])
  /\ holds store_column (VecPtr 1%nat) (map F32.of_Z [2; 2]).
Proof.
  split.
  - eapply holds_header; [reflexivity| |reflexivity|reflexivity|by_cells].
    eapply wf_header; [| | | | |reflexivity|]; cbn; lia.
  - eapply holds_dense; [reflexivity|reflexivity|reflexivity|discriminate|auto].
Qed.

(** [AddVec], [SubVec] and [MulElemVec] on [a = [2, -1]] and [b = [1, 1]],
    into a zero-size receiver. *)
Lemma AddVec_sums_witness :
  exists s', AddVec plainExtern 2%nat (VecPtr 0%nat) (VecPtr 1%nat) store_axpy = Ok tt s'
             /\ elements (VecPtr 2%nat) s' = Ok [F32.of_Z 3; F32.zero] s'
             /\ elements (VecPtr 0%nat) s' = Ok [F32.of_Z 2; F32.neg_one] s'.
Proof.
  destruct holds_store_axpy as [Ha Hb].
  destruct (AddVec_sums plainExtern 2%nat zeroVecDense
              (VecPtr 0%nat) [F32.of_Z 2; F32.neg_one]
              (VecPtr 1%nat) [F32.one; F32.one] store_axpy eq_refl Ha Hb)
    as (s' & Hrun & Hel & Hka & _).
  - discriminate.
  - reflexivity.
  - repeat constructor.
  - into_zero_size.
  - into_zero_size.
  - exists s'. split; [exact Hrun|]. split; [exact Hel|]. now apply Hka.
Defined.

Lemma SubVec_differences_witness :
  exists s', SubVec plainExtern 2%nat (VecPtr 0%nat) (VecPtr 1%nat) store_axpy = Ok tt s'
             /\ elements (VecPtr 2%nat) s' = Ok [F32.one; F32.of_Z (-2)] s'.
Proof.
  destruct holds_store_axpy as [Ha Hb].
  destruct (SubVec_differences plainExtern 2%nat zeroVecDense
              (VecPtr 0%nat) [F32.of_Z 2; F32.neg_one]
              (VecPtr 1%nat) [F32.one; F32.one] store_axpy eq_refl Ha Hb)
    as (s' & Hrun & Hel & _).
  - discriminate.
  - reflexivity.
  - repeat constructor.
  - into_zero_size.
  - into_zero_size.
  - exists s'. split; [exact Hrun|exact Hel].
Defined.

Lemma MulElemVec_products_witness :
  exists s', MulElemVec plainExtern 2%nat (VecPtr 0%nat) (VecPtr 1%nat) store_axpy = Ok tt s'
             /\ elements (VecPtr 2%nat) s' = Ok [F32.of_Z 2; F32.neg_one] s'.
Proof.
  destruct holds_store_axpy as [Ha Hb].
  destruct (MulElemVec_products plainExtern 2%nat zeroVecDense
              (VecPtr 0%nat) [F32.of_Z 2; F32.neg_one]
              (VecPtr 1%nat) [F32.one; F32.one] store_axpy eq_refl Ha Hb)
    as (s' & Hrun & Hel & _).
  - discriminate.
  - reflexivity.
  - into_zero_size.
  - into_zero_size.
  - exists s'. split; [exact Hrun|exact Hel].
Defined.

(** [DivElemVec] on the column [[8, 8]] of stride 2 and [b = [2, 2]]: into
    the column itself the quotients are divided twice; into a zero-size
    receiver they are right. *)
Lemma DivElemVec_strided_witness :
  (exists s', DivElemVec plainExtern 0%nat (VecPtr 0%nat) (VecPtr 1%nat) store_column
              = Ok tt s'
              /\ elements (VecPtr 0%nat) s' = Ok (map F32.of_Z [2; 2]) s')
  /\ (exists s', DivElemVec plainExtern 2%nat (VecPtr 0%nat) (VecPtr 1%nat) store_column
                 = Ok tt s'
                 /\ elements (VecPtr 2%nat) s' = Ok (map F32.of_Z [4; 4]) s').
Proof.
  destruct holds_store_column as [Ha Hb]. split.
  - destruct (DivElemVec_strided plainExtern 0%nat (colHeader matrix_8181 0)
                (VecPtr 0%nat) (map F32.of_Z [8; 8]) (VecPtr 1%nat) (map F32.of_Z [2; 2])
                store_column 0%nat 1%nat (colHeader matrix_8181 0) (denseHeader 1 2)
                eq_refl Ha Hb) as (s' & Hrun & Hel & _).
    + discriminate.
    + reflexivity.
    + split; left; reflexivity.
    + split; [right; split; [reflexivity|right]|right; by_lookup].
      split; [eapply wf_header; [| | | | |reflexivity|]; cbn; lia|].
      split; [reflexivity|]. exists (denseHeader 1 2). split; [reflexivity|left; cbn; lia].
    + reflexivity.
    + reflexivity.
    + reflexivity.
    + reflexivity.
    + left. cbn. lia.
    + exists s'. split; [exact Hrun|exact Hel].
  - destruct (DivElemVec_strided plainExtern 2%nat zeroVecDense
                (VecPtr 0%nat) (map F32.of_Z [8; 8]) (VecPtr 1%nat) (map F32.of_Z [2; 2])
                store_column 0%nat 1%nat (colHeader matrix_8181 0) (denseHeader 1 2)
                eq_refl Ha Hb) as (s' & Hrun & Hel & _).
    + discriminate.
    + reflexivity.
    + into_zero_size.
    + into_zero_size.
    + reflexivity.
    + reflexivity.
    + reflexivity.
    + reflexivity.
    + right. left. cbn. lia.
    + exists s'. split; [exact Hrun|exact Hel].
Defined.

(** [DivElemVec] on [a = [2, -1]] and [b = [1, 1]], both of stride 1, into a
    zero-size receiver. *)
Lemma DivElemVec_unit_spec_witness :
  exists s', DivElemVec plainExtern 2%nat (VecPtr 0%nat) (VecPtr 1%nat) store_axpy = Ok tt s'
             /\ elements (VecPtr 2%nat) s' = Ok [F32.of_Z 2; F32.neg_one] s'.
Proof.
  destruct holds_store_axpy as [Ha Hb].
  destruct (DivElemVec_unit_spec plainExtern 2%nat zeroVecDense
              (VecPtr 0%nat) [F32.of_Z 2; F32.neg_one]
              (VecPtr 1%nat) [F32.one; F32.one] store_axpy eq_refl Ha Hb)
    as (s' & Hrun & Hel).
  - discriminate.
  - reflexivity.
  - into_zero_size.
  - into_zero_size.
  - intros qa qb ha hb Hqa Hqb Hha Hhb. cbn in Hqa, Hqb. inversion Hqa; subst qa.
    inversion Hqb; subst qb. cbn in Hha, Hhb. inversion Hha; subst ha.
    inversion Hhb; subst hb. repeat split.
  - exists s'. split; [exact Hrun|exact Hel].
Defined.

(** ** ScaleVec with any factor *)

(** [ScaleVec] leaves [alpha * a[i]] in the receiver, whether it scales the
    receiver in place ([x[i] *= alpha]) or from another vector, through the
    kernels or the element-wise loop. *)
Theorem ScaleVec_scales (X : Extern) v hv a l alpha s :
  vecs s !! v = Some hv ->
  holds s a l ->
  l <> [] ->
  is_ptr v a = true
  \/ (is_ptr v a = false
      /\ fits s hv a (Z.of_nat (length l))
      /\ check_passes X s (sized s hv (Z.of_nat (length l))) a) ->
  exists s', ScaleVec X v alpha a s = Ok tt s'
             /\ elements (VecPtr v) s' = Ok (map (F32.mul alpha) l) s'.
Proof. apply ScaleVec_spec. Qed.

(** [ScaleVec] by 3 of [[2, -1]], in place. *)
Lemma ScaleVec_scales_witness :
  exists s', ScaleVec plainExtern 0%nat (F32.of_Z 3) (VecPtr 0%nat) store_2_m1 = Ok tt s'
             /\ elements (VecPtr 0%nat) s' = Ok [F32.of_Z 6; F32.of_Z (-3)] s'.
Proof.
  destruct (ScaleVec_scales plainExtern 0%nat (denseHeader 0 2) (VecPtr 0%nat)
              [F32.of_Z 2; F32.neg_one] (F32.of_Z 3) store_2_m1 eq_refl holds_store_2_m1
              ltac:(discriminate) (or_introl eq_refl)) as (s' & Hrun & Hel).
  exists s'. split; [exact Hrun|exact Hel].
Defined.

(** ** AddScaledVec with a general factor *)

(** Once the receiver is filled with the values [g a[i] b[i]], it reads back
    as such, and an operand other than the receiver holds what it held. *)
Lemma filled_result (g : f32 -> f32 -> f32) s v hv a la b lb s1 s' :
  vecs s !! v = Some hv ->
  holds s a la ->
  holds s b lb ->
  length la = length lb ->
  operand_fits s v hv (Z.of_nat (length la)) a ->
  operand_fits s v hv (Z.of_nat (length la)) b ->
  resized s v hv (Z.of_nat (length la)) s1 ->
  after_writes s1 (base (Data (mat (sized s hv (Z.of_nat (length la))))))
    (cell (sized s hv (Z.of_nat (length la))))
    (fun i => g (nth_val la i) (nth_val lb i)) (Z.of_nat (length la)) s' ->
  elements (VecPtr v) s' = Ok (zip_with g la lb) s'
  /\ (is_ptr v a = false -> elements a s' = Ok la s')
  /\ (is_ptr v b = false -> elements b s' = Ok lb s').
Proof.
  intros Hv Hha Hhb Hlen Hfa Hfb Hrs HR.
  pose proof Hrs as (Hv1 & Hwf1 & Hvn1 & _).
  split; [|split].
  - rewrite (elements_after s1 v _ _ s' Hv1 Hwf1) by (rewrite Hvn1; exact HR).
    rewrite Hvn1. now rewrite (map_nth_val_fun2 g la lb Hlen).
  - intros Hp. destruct Hfa as [Hp'|(_ & Hfit)]; [congruence|].
    apply elements_holds.
    apply (holds_after_apart s1 _ _ _ s' a la (holds_resized _ _ _ _ _ _ _ Hv Hrs Hha)
             (apart_resized _ _ _ _ _ _ _ Hv Hrs Hha Hfit) HR). lia.
  - intros Hp. destruct Hfb as [Hp'|(_ & Hfit)]; [congruence|].
    apply elements_holds.
    apply (holds_after_apart s1 _ _ _ s' b lb (holds_resized _ _ _ _ _ _ _ Hv Hrs Hhb)
             (apart_resized _ _ _ _ _ _ _ Hv Hrs Hhb Hfit) HR). lia.
Qed.

(** The header of a raw operand once the receiver is sized. *)
Lemma raw_header_resized s s1 v hv n a l q h :
  vecs s !! v = Some hv ->
  resized s v hv n s1 ->
  holds s a l ->
  holds s1 a l ->
  fst (untranspose a) = VecPtr q ->
  vecs s !! q = Some h ->
  vecs s1 !! q = Some h /\ holds s1 (VecPtr q) l.
Proof.
  intros Hv Hrs Hh Hh1 HaU Hq.
  pose proof (holds_untranspose _ _ _ Hh1) as Hh2. rewrite HaU in Hh2.
  pose proof (holds_untranspose _ _ _ Hh) as Hh0. rewrite HaU in Hh0.
  split; [|exact Hh2]. destruct Hh2 as (h' & Hq' & _).
  pose proof (header_resized _ _ _ _ _ _ _ _ Hv Hrs Hh0 Hq'). congruence.
Qed.

(** For a factor other than 0, 1 and -1, and unless both operands are the
    receiver itself, [AddScaledVec] leaves [a[i] + alpha * b[i]] in the
    receiver: in the element-wise loop, in the kernels that accumulate into
    the receiver when it is [a], and in the kernels that write into it
    otherwise. *)
Theorem AddScaledVec_general (X : Extern) v hv a la b lb alpha s :
  vecs s !! v = Some hv ->
  holds s a la ->
  holds s b lb ->
  la <> [] ->
  length la = length lb ->
  F32.eqb alpha F32.one = false ->
  F32.eqb alpha F32.neg_one = false ->
  F32.eqb alpha F32.zero = false ->
  is_ptr v a && is_ptr v b = false ->
  operand_fits s v hv (Z.of_nat (length la)) a ->
  operand_fits s v hv (Z.of_nat (length la)) b ->
  operand_checked X s v hv a ->
  operand_checked X s v hv b ->
  exists s', AddScaledVec X v a alpha b s = Ok tt s'
             /\ elements (VecPtr v) s' = Ok (axpy_formula alpha la lb) s'
             /\ (is_ptr v a = false -> elements a s' = Ok la s')
             /\ (is_ptr v b = false -> elements b s' = Ok lb s').
Proof.
  intros Hv Hha Hhb Hl Hlen H1 Hm1 H0 Hself Hfa Hfb Hca Hcb.
  pose proof (length_pos_Z la Hl) as Hn.
  unfold AddScaledVec. rewrite H1, Hm1.
  step (Len_holds _ _ _ Hha). step (Len_holds _ _ _ Hhb).
  rewrite <- Hlen, Z.eqb_refl. cbn [negb].
  destruct (rawOperand_val X s v hv a la Hv Hha Hca) as (am & Ham & Hsa & Hna). step Ham.
  destruct (rawOperand_val X s v hv b lb Hv Hhb Hcb) as (bm & Hbm & Hsb & Hnb). step Hbm.
  cbv zeta.
  destruct (reuseAs_sized v hv _ s Hv Hn (operand_sizing s v hv a la Hv Hha Hfa))
    as (s1 & Hre & Hrs).
  step Hre.
  destruct (operand_ready s s1 v hv a la Hv Hrs Hha Hfa) as [Hha1 Hraa].
  assert (Hfb' : operand_fits s v hv (Z.of_nat (length lb)) b) by now rewrite <- Hlen.
  assert (Hrs' : resized s v hv (Z.of_nat (length lb)) s1) by now rewrite <- Hlen.
  destruct (operand_ready s s1 v hv b lb Hv Hrs' Hhb Hfb') as [Hhb1 Hrab].
  rewrite <- Hlen in Hrab.
  pose proof Hrs as (Hv1 & Hwf1 & Hvn1 & _).
  step (getVec_ok _ _ _ Hv1). rewrite H0, Hself.
  set (n := Z.of_nat (length la)) in *. set (h1 := sized s hv n) in *.
  set (gf := fun x y => F32.add x (F32.mul alpha y)).
  enough (exists s',
    (if negb (bool_decide (is_Some am) && bool_decide (is_Some bm))
     then for_range n (fun i =>
            let* x := AtVec a i in let* y := AtVec b i in
            setVec v i (F32.add x (F32.mul alpha y)))
     else if is_ptr v a && negb (is_ptr v b)
          then if (Inc (mat h1) =? 1) && (Inc (default zeroBlasVector bm) =? 1)
               then AxpyUnitaryTo (Data (mat h1)) alpha (Data (default zeroBlasVector bm))
                      (Data (default zeroBlasVector am))
               else AxpyInc alpha (Data (default zeroBlasVector bm)) (Data (mat h1)) n
                      (Inc (default zeroBlasVector bm)) (Inc (mat h1)) 0 0
          else if (Inc (mat h1) =? 1) && (Inc (default zeroBlasVector am) =? 1)
                  && (Inc (default zeroBlasVector bm) =? 1)
               then AxpyUnitaryTo (Data (mat h1)) alpha (Data (default zeroBlasVector bm))
                      (Data (default zeroBlasVector am))
               else AxpyIncTo (Data (mat h1)) (Inc (mat h1)) 0 alpha
                      (Data (default zeroBlasVector bm)) (Data (default zeroBlasVector am))
                      n (Inc (default zeroBlasVector bm)) (Inc (default zeroBlasVector am)) 0 0)
      s1 = Ok tt s'
    /\ after_writes s1 (base (Data (mat h1))) (cell h1)
         (fun i => gf (nth_val la i) (nth_val lb i)) n s') as (s' & Hrun & HR).
  { exists s'. split; [exact Hrun|].
    apply (filled_result gf s v hv a la b lb s1 s' Hv Hha Hhb Hlen Hfa Hfb Hrs HR). }
  destruct (raw_cases a b) as [(qa & qb & HaU & HbU)|Hnone].
  - destruct (Hsa qa HaU) as (ha & Hqa & Ham'). destruct (Hsb qb HbU) as (hb & Hqb & Hbm').
    rewrite Ham', Hbm'.
    replace (bool_decide (is_Some (Some (mat ha)))) with true by reflexivity.
    replace (bool_decide (is_Some (Some (mat hb)))) with true by reflexivity.
    cbn [andb negb default from_option]. unfold id. cbv iota.
    destruct (raw_header_resized s s1 v hv n a la qa ha Hv Hrs Hha Hha1 HaU Hqa) as [Hpa Hha2].
    destruct (raw_header_resized s s1 v hv n b lb qb hb Hv Hrs Hhb Hhb1 HbU Hqb) as [Hpb Hhb2].
    pose proof (reads_ahead_untranspose _ _ _ Hraa) as Hraa2. rewrite HaU in Hraa2.
    pose proof (reads_ahead_untranspose _ _ _ Hrab) as Hrab2. rewrite HbU in Hrab2.
    destruct (axpy_to_spec alpha s1 h1 qa ha la qb hb lb Hwf1 Hvn1 Hlen
                Hpa Hha2 Hraa2 Hpb Hhb2 Hrab2) as (s' & Hrun & HR).
    fold n in Hrun, HR.
    assert (HR' : after_writes s1 (base (Data (mat h1))) (cell h1)
                    (fun i => gf (nth_val la i) (nth_val lb i)) n s').
    { eapply after_writes_ext; [|exact HR]. intros j Hj. apply F32_add_comm. }
    destruct (is_ptr v a) eqn:Hp.
    + cbn [andb] in Hself. rewrite Hself. cbn [andb negb]. cbv iota.
      apply is_ptr_true in Hp. subst a. cbn in HaU. inversion HaU; subst qa.
      assert (ha = h1) by congruence. subst ha.
      destruct ((Inc (mat h1) =? 1) && (Inc (mat hb) =? 1)) eqn:Hinc.
      * exists s'. split; [|exact HR'].
        apply andb_true_iff in Hinc as [Hi1 Hib]. rewrite Hi1, Hib in Hrun. exact Hrun.
      * unfold AxpyInc.
        apply (fill_loop2 (fun i => index (Data (mat hb)) (0 + i * Inc (mat hb)))
                 (fun i => index (Data (mat h1)) (0 + i * Inc (mat h1)))
                 (fun i x => store (Data (mat h1)) (0 + i * Inc (mat h1)) x)
                 (fun x y => F32.add y (F32.mul alpha x))
                 s1 h1 (nth_val lb) (nth_val la) n Hwf1 Hvn1).
        -- intros k s2 Hk HR2. split.
           ++ apply (raw_read_after s1 h1 _ k s2 qb hb lb _ Hpb Hhb2 Hrab2 HR2);
                [unfold n in Hk; lia|nia].
           ++ apply (raw_read_after s1 h1 _ k s2 v h1 la _ Hpa Hha2 Hraa2 HR2); [lia|nia].
        -- intros k s2 x Hk HR2. apply (store_after s1 h1 _ k s2 _ x Hwf1 HR2); [lia|nia].
    + cbn [andb]. cbv iota. exists s'. split; [exact Hrun|exact HR'].
  - assert (Hfast : bool_decide (is_Some am) && bool_decide (is_Some bm) = false).
    { destruct Hnone as [Ha|Hb]; [now rewrite (Hna Ha)|rewrite (Hnb Hb)].
      apply andb_false_r. }
    rewrite Hfast. cbn [negb]. cbv iota.
    apply (fill_loop2 (fun i => AtVec a i) (fun i => AtVec b i) (fun i x => setVec v i x)
             gf s1 h1 (nth_val la) (nth_val lb) n Hwf1 Hvn1).
    + intros k s2 Hk HR. split.
      * apply (AtVec_after s1 h1 _ k s2 a la Hha1 Hraa HR). exact Hk.
      * apply (AtVec_after s1 h1 _ k s2 b lb Hhb1 Hrab HR). unfold n in Hk. lia.
    + intros k s2 x Hk HR. apply (setVec_after s1 v h1 _ k s2 x Hv1 Hwf1 HR). lia.
Qed.

(** [AddScaledVec] with the factor 2 on [a = [2, -1]] and [b = [1, 1]], into
    a zero-size receiver. *)
Lemma AddScaledVec_general_witness :
  exists s', AddScaledVec plainExtern 2%nat (VecPtr 0%nat) (F32.of_Z 2) (VecPtr 1%nat)
               store_axpy = Ok tt s'
             /\ elements (VecPtr 2%nat) s' = Ok [F32.of_Z 4; F32.one] s'.
Proof.
  destruct holds_store_axpy as [Ha Hb].
  destruct (AddScaledVec_general plainExtern 2%nat zeroVecDense
              (VecPtr 0%nat) [F32.of_Z 2; F32.neg_one]
              (VecPtr 1%nat) [F32.one; F32.one] (F32.of_Z 2) store_axpy eq_refl Ha Hb)
    as (s' & Hrun & Hel & _).
  - discriminate.
  - reflexivity.
  - reflexivity.
  - reflexivity.
  - reflexivity.
  - reflexivity.
  - right. split; [reflexivity|now left].
  - right. split; [reflexivity|now left].
  - right. by_lookup.
  - right. by_lookup.
  - exists s'. split; [exact Hrun|exact Hel].
Defined.

(** ** Reset, and receivers that have a size *)

(** [Reset] leaves the vector zero-size: [IsZero] holds, the length, the
    dimensions and the capacity are 0; the backing arrays and the other
    vectors are as they were; and the vector then takes any positive length
    as a receiver. *)
Theorem Reset_zero_size v h s :
  vecs s !! v = Some h ->
  0 <= cap (Data (mat h)) ->
  exists s', Reset v s = Ok tt s'
             /\ IsZero v s' = Ok true s'
             /\ Len (VecPtr v) s' = Ok 0 s'
             /\ Dims (VecPtr v) s' = Ok (0, 0) s'
             /\ VecDense_Caps v s' = Ok (0, 0) s'
             /\ Cap v s' = Ok 0 s'
             /\ arrays s' = arrays s
             /\ (forall q, q <> v -> vecs s' !! q = vecs s !! q)
             /\ (forall r, 1 <= r ->
                   exists s'', reuseAs v r s' = Ok tt s''
                               /\ Len (VecPtr v) s'' = Ok r s''
                               /\ IsZero v s'' = Ok false s'').
Proof.
  intros Hv Hcap. unfold Reset. step (getVec_ok _ _ _ Hv).
  unfold reslice.
  replace ((0 <=? 0) && (0 <=? 0) && (0 <=? cap (Data (mat h)))) with true
    by (symmetry; apply andb_true_iff; split; [reflexivity|apply Z.leb_le; lia]).
  rewrite bind_ret. unfold putVec. rewrite Hv.
  set (d := mkSlice (base (Data (mat h))) (off (Data (mat h)) + 0) (0 - 0)
              (cap (Data (mat h)) - 0)).
  set (h0 := mkVecDense (mkBlasVector 0 d) 0).
  set (s' := mkState (arrays s) (<[v := h0]> (vecs s))).
  pose proof (lookup_lt_Some _ _ _ Hv) as Hlt.
  assert (Hv' : vecs s' !! v = Some h0) by (cbn; now apply list_lookup_insert_eq).
  assert (Hz : IsZero v s' = Ok true s').
  { unfold IsZero. now step (getVec_ok _ _ _ Hv'). }
  exists s'. split; [reflexivity|]. split; [exact Hz|].
  split; [now rewrite (Len_ptr s' v h0 Hv')|].
  split; [cbn [Dims]; unfold VecDense_Dims; now step Hz|].
  split; [unfold VecDense_Caps; now step Hz|].
  split; [unfold Cap; now step Hz|].
  split; [reflexivity|].
  split; [intros q Hq; cbn; now rewrite list_lookup_insert_ne by congruence|].
  intros r Hr. unfold reuseAs.
  replace (r =? 0) with false by (symmetry; apply Z.eqb_neq; lia).
  step Hz. step (getVec_ok _ _ _ Hv'). unfold use, make, bind.
  replace (r <? 0) with false by (symmetry; apply Z.ltb_ge; lia).
  unfold putVec. cbn [vecs arrays]. rewrite Hv'.
  eexists. split; [reflexivity|].
  assert (Hv'' : forall a, (<[v := a]> (vecs s')) !! v = Some a).
  { intros a. apply list_lookup_insert_eq. exact (lookup_lt_Some _ _ _ Hv'). }
  split.
  - cbn [Len]. unfold VecDense_Len, getVec, bind. cbn [vecs]. now rewrite Hv''.
  - unfold IsZero, getVec, bind. cbn [vecs]. now rewrite Hv''.
Qed.

(** [Reset] of the vector [[2, -1]], which then takes the length 5. *)
Lemma Reset_zero_size_witness :
  exists s', Reset 0%nat store_2_m1 = Ok tt s'
             /\ IsZero 0%nat s' = Ok true s'
             /\ Dims (VecPtr 0%nat) s' = Ok (0, 0) s'
             /\ exists s'', reuseAs 0%nat 5 s' = Ok tt s''
                            /\ Len (VecPtr 0%nat) s'' = Ok 5 s''.
Proof.
  destruct (Reset_zero_size 0%nat (denseHeader 0 2) store_2_m1 eq_refl ltac:(cbn; lia))
    as (s' & Hrun & Hz & _ & Hd & _ & _ & _ & _ & Hre).
  exists s'. split; [exact Hrun|]. split; [exact Hz|]. split; [exact Hd|].
  destruct (Hre 5 ltac:(lia)) as (s'' & Hr & Hl & _).
  exists s''. split; [exact Hr|exact Hl].
Defined.

Lemma reuseAs_mismatch v hv r s :
  vecs s !! v = Some hv -> Inc (mat hv) <> 0 -> r <> 0 -> vn hv <> r ->
  reuseAs v r s = Panic ErrShape s.
Proof.
  intros Hv Hi Hr Hn. unfold reuseAs.
  replace (r =? 0) with false by (symmetry; now apply Z.eqb_neq).
  unfold IsZero. unfold bind at 1. unfold bind at 1. rewrite (getVec_ok _ _ _ Hv).
  cbn [ret]. step (getVec_ok _ _ _ Hv).
  replace (Inc (mat hv) =? 0) with false by (symmetry; now apply Z.eqb_neq).
  now rewrite neqb_true by congruence.
Qed.

(** A receiver that has a size other than the length of the result is
    rejected with [ErrShape], and nothing is written: by [AddVec], [SubVec],
    [MulElemVec], [DivElemVec], by [ScaleVec] from another vector, and, once
    the overlap checks that come first have passed, by [AddScaledVec] and
    [MulVec]. *)
Theorem sized_receiver_mismatch (X : Extern) (v : ptr) (hv : VecDense) (a b : Vector)
    (n : Z) (s : State) :
  vecs s !! v = Some hv ->
  Inc (mat hv) <> 0 ->
  vn hv <> n ->
  n <> 0 ->
  Len a s = Ok n s ->
  Len b s = Ok n s ->
  AddVec X v a b s = Panic ErrShape s
  /\ SubVec X v a b s = Panic ErrShape s
  /\ MulElemVec X v a b s = Panic ErrShape s
  /\ DivElemVec X v a b s = Panic ErrShape s
  /\ (forall alpha, is_ptr v a = false -> ScaleVec X v alpha a s = Panic ErrShape s)
  /\ (forall alpha am bm,
        rawOperand X v a s = Ok am s ->
        rawOperand X v b s = Ok bm s ->
        AddScaledVec X v a alpha b s = Panic ErrShape s)
  /\ (forall m c y bm,
        MDims m s = Ok (n, c) s ->
        Dims y s = Ok (c, 1) s ->
        rawOperand X v y s = Ok bm s ->
        MulVec X v m y s = Panic ErrShape s).
Proof.
  intros Hv Hi Hne Hn Ha Hb.
  pose proof (reuseAs_mismatch v hv n s Hv Hi Hn Hne) as Hre.
  assert (Hbind : forall (k : unit -> M unit), bind (reuseAs v n) k s = Panic ErrShape s)
    by (intros k; unfold bind; now rewrite Hre).
  assert (HE : forall g fast, elementwise X g fast v a b s = Panic ErrShape s).
  { intros g fast. unfold elementwise. step Ha. step Hb. rewrite Z.eqb_refl. cbn [negb].
    apply Hbind. }
  assert (HA : AddVec X v a b s = Panic ErrShape s) by (rewrite AddVec_elementwise; apply HE).
  assert (HS : SubVec X v a b s = Panic ErrShape s) by (rewrite SubVec_elementwise; apply HE).
  split; [exact HA|]. split; [exact HS|].
  split; [rewrite MulElemVec_elementwise; apply HE|].
  split; [rewrite DivElemVec_elementwise; apply HE|].
  split; [|split].
  - intros alpha Hp. unfold ScaleVec. step Ha. rewrite Hp. apply Hbind.
  - intros alpha am bm Hra Hrb. unfold AddScaledVec.
    destruct (F32.eqb alpha F32.one); [exact HA|].
    destruct (F32.eqb alpha F32.neg_one); [exact HS|].
    step Ha. step Hb. rewrite Z.eqb_refl. cbn [negb]. step Hra. step Hrb. cbv zeta.
    apply Hbind.
  - intros m c y bm Hm Hd Hr. unfold MulVec. step Hm. step Hd.
    rewrite Z.eqb_refl. change (negb true || negb (1 =? 1)) with false.
    destruct (untransposeM m) as [aU trans]. cbv beta iota. step Hr. apply Hbind.
Qed.

(** A receiver of length 2 for operands of length 3. *)
Lemma sized_receiver_mismatch_witness :
  let a := VecPtr 1%nat in
  AddVec plainExtern 0%nat a a store_2_3 = Panic ErrShape store_2_3
  /\ DivElemVec plainExtern 0%nat a a store_2_3 = Panic ErrShape store_2_3
  /\ ScaleVec plainExtern 0%nat (F32.of_Z 2) a store_2_3 = Panic ErrShape store_2_3
  /\ AddScaledVec plainExtern 0%nat a (F32.of_Z 2) a store_2_3 = Panic ErrShape store_2_3
  /\ MulVec plainExtern 0%nat (OtherMat 3 3 (fun _ _ => F32.one)) a store_2_3
     = Panic ErrShape store_2_3.
Proof.
  intros a.
  destruct (sized_receiver_mismatch plainExtern 0%nat (denseHeader 0 2) a a 3 store_2_3)
    as (H1 & _ & _ & H4 & H5 & H6 & H7);
    [reflexivity|cbn; lia|cbn; lia|lia|reflexivity|reflexivity|].
  refine (conj H1 (conj H4 (conj (H5 _ eq_refl) (conj _ _)))).
  - eapply H6; reflexivity.
  - eapply (H7 _ 3 a); reflexivity.
Defined.

(** ** AddScaledVec of a vector with itself *)

(** [v.AddScaledVec(v, alpha, v)] scales [v] in place by [alpha + 1]: it
    leaves [v[i] * (alpha + 1)], which need not be the float32
    [v[i] + alpha * v[i]] of the general formula: for [alpha = 2^-24] and
    [v[i] = 1 + 2^-23] the first is [v[i]] and the second is the next
    float32. *)
Theorem AddScaledVec_self (X : Extern) v hv l alpha s :
  (vecs s !! v = Some hv ->
   holds s (VecPtr v) l ->
   l <> [] ->
   F32.eqb alpha F32.one = false ->
   F32.eqb alpha F32.neg_one = false ->
   F32.eqb alpha F32.zero = false ->
   exists s', AddScaledVec X v (VecPtr v) alpha (VecPtr v) s = Ok tt s'
              /\ elements (VecPtr v) s'
                 = Ok (map (fun x => F32.mul x (F32.add alpha F32.one)) l) s')
  /\ F32.mul f32_above_one (F32.add f32_tiny F32.one)
     <> F32.add f32_above_one (F32.mul f32_tiny f32_above_one).
Proof.
  split; [|discriminate].
  intros Hv Hh Hl H1 Hm1 H0.
  pose proof (length_pos_Z l Hl) as Hn.
  pose proof Hh as (h & Hq & Hwf & Hvn & Hc). assert (h = hv) by congruence. subst h.
  assert (Hck : operand_checked X s v hv (VecPtr v)) by (left; cbn; apply Nat.eqb_refl).
  unfold AddScaledVec. rewrite H1, Hm1.
  step (Len_holds _ _ _ Hh). step (Len_holds _ _ _ Hh). rewrite Z.eqb_refl. cbn [negb].
  destruct (rawOperand_ok X s v hv (VecPtr v) l Hv Hh Hck) as (am & Ham).
  step Ham. step Ham. cbv zeta.
  destruct (reuseAs_sized v hv _ s Hv Hn (or_intror (conj Hwf Hvn))) as (s1 & Hre & Hrs).
  step Hre.
  assert (s1 = s).
  { destruct Hrs as (_ & _ & _ & _ & _ & _ & _ & Hs). apply Hs. destruct Hwf. lia. }
  subst s1. step (getVec_ok _ _ _ Hv). rewrite H0.
  cbn [is_ptr]. rewrite Nat.eqb_refl. cbn [andb]. cbv iota.
  set (n := Z.of_nat (length l)) in *.
  assert (Hra : reads_ahead s hv (VecPtr v)) by (apply reads_ahead_self; [exact Hv|apply Hwf]).
  destruct (fill_loop1 (fun i => index (Data (mat hv)) (i * Inc (mat hv)))
              (fun i x => store (Data (mat hv)) (i * Inc (mat hv)) x)
              (fun x => F32.mul x (F32.add alpha F32.one))
              s hv (nth_val l) n Hwf Hvn) as (s' & Hrun & HR).
  - intros k s1 Hk HR. apply (raw_read_after s hv _ k s1 v hv l _ Hv Hh Hra HR); [lia|nia].
  - intros k s1 x Hk HR. apply (store_after s hv _ k s1 _ x Hwf HR); [lia|nia].
  - exists s'. split; [exact Hrun|].
    rewrite (elements_after s v hv _ s' Hv Hwf) by (rewrite Hvn; exact HR).
    rewrite Hvn. unfold n.
    now rewrite (map_nth_val_fun (fun x => F32.mul x (F32.add alpha F32.one))).
Qed.

(** [v.AddScaledVec(v, 2^-24, v)] on [v = [1 + 2^-23]] leaves [v] as it
    was. *)
Lemma AddScaledVec_self_witness :
  exists s', AddScaledVec plainExtern 0%nat (VecPtr 0%nat) f32_tiny (VecPtr 0%nat)
               store_above_one = Ok tt s'
             /\ elements (VecPtr 0%nat) s' = Ok [f32_above_one] s'.
Proof.
  destruct (AddScaledVec_self plainExtern 0%nat (denseHeader 0 1) [f32_above_one] f32_tiny
              store_above_one) as [H _].
  destruct H as (s' & Hrun & Hel).
  - reflexivity.
  - eapply holds_dense; [reflexivity|reflexivity|reflexivity|discriminate|auto].
  - discriminate.
  - reflexivity.
  - reflexivity.
  - reflexivity.
  - exists s'. split; [exact Hrun|exact Hel].
Defined.

(** ** MulVec by a matrix read through At *)

(** For every [r]x[c] matrix read through [At] only and every [b] of length
    [c], [MulVec] leaves in the receiver the nested-loop product
    [sum_j A[i,j] * b[j]], accumulated from zero in the order of [j]: in the
    loop over the raw form of [b], in the loop at the end, and, when the
    receiver is [b] itself, through a workspace that is copied back. *)
Theorem MulVec_opaque (X : Extern) v hv r at_ b l s :
  vecs s !! v = Some hv ->
  holds s b l ->
  l <> [] ->
  (is_ptr v b = true /\ r = Z.of_nat (length l))
  \/ (is_ptr v b = false
      /\ 1 <= r
      /\ Dims b s = Ok (Z.of_nat (length l), 1) s
      /\ fits s hv b r
      /\ operand_checked X s v hv b) ->
  exists s', MulVec X v (OtherMat r (Z.of_nat (length l)) at_) b s = Ok tt s'
             /\ elements (VecPtr v) s' = Ok (map (row_product at_ l) (seqZ 0 r)) s'.
Proof.
  intros Hv Hh Hl [(Hp & ->)|(Hp & Hr & Hd & Hfit & Hchk)].
  - apply is_ptr_true in Hp. subst b. now apply (MulVec_other_self_spec X v hv).
  - now apply (MulVec_other_spec X v hv).
Qed.

(** The matrix with rows [1 2] and [3 4] times [b = [2, 1]], into [b]
    itself. *)
Lemma MulVec_opaque_witness :
  exists s', MulVec plainExtern 0%nat (OtherMat 2 2 at_1234) (VecPtr 0%nat) store_2_1
             = Ok tt s'
             /\ elements (VecPtr 0%nat) s' = Ok [F32.of_Z 4; F32.of_Z 10] s'.
Proof.
  destruct (MulVec_opaque plainExtern 0%nat (denseHeader 0 2) 2 at_1234 (VecPtr 0%nat)
              [F32.of_Z 2; F32.one] store_2_1) as (s' & Hrun & Hel).
  - reflexivity.
  - eapply holds_dense; [reflexivity|reflexivity|reflexivity|discriminate|auto].
  - discriminate.
  - left. split; reflexivity.
  - exists s'. split; [exact Hrun|exact Hel].
Defined.

(** ** Views: slices of slices, and vectors over given storage *)

Lemma Cap_ptr s v h :
  vecs s !! v = Some h ->
  Cap v s = Ok (if Inc (mat h) =? 0 then 0
                else Z.quot (cap (Data (mat h)) - 1) (Inc (mat h)) + 1) s.
Proof.
  intros Hv. unfold Cap, IsZero. unfold bind at 1. unfold bind at 1.
  rewrite (getVec_ok _ _ _ Hv). cbn [ret].
  destruct (Inc (mat h) =? 0); [reflexivity|]. now step (getVec_ok _ _ _ Hv).
Qed.

(** The capacity, in elements, of storage of [c] cells read with stride
    [inc]. *)
Lemma quot_cap (c inc k : Z) :
  1 <= inc -> 1 <= c ->
  (k <= Z.quot (c - 1) inc + 1 <-> (k - 1) * inc + 1 <= c).
Proof.
  intros Hi Hc. rewrite Z.quot_div_nonneg by lia.
  pose proof (Z.mul_div_le (c - 1) inc ltac:(lia)).
  pose proof (Z.mul_succ_div_gt (c - 1) inc ltac:(lia)).
  split; intros H1; nia.
Qed.

(** A slice of a slice is a slice of the vector itself, at the indices
    shifted by the start of the first slice: the two calls return the same
    view or panic alike.  So a view can be sliced again beyond its own
    length, up to the capacity of the vector it was taken from. *)
Theorem SliceVec_compose v hv i k i' k' w s s1 :
  vecs s !! v = Some hv ->
  0 <= Inc (mat hv) ->
  SliceVec v i k s = Ok w s1 ->
  0 <= i' ->
  SliceVec w i' k' s1 = SliceVec v (i + i') (i + k') s1.
Proof.
  intros Hv Hinc Hrun Hi'.
  unfold SliceVec in Hrun.
  destruct ((i <? 0) || (k <=? i)) eqn:Hik; [discriminate|].
  apply orb_false_iff in Hik as [Hi Hk]. apply Z.ltb_ge in Hi. apply Z.leb_gt in Hk.
  rewrite (bind_ok _ _ _ _ _ (Cap_ptr s v hv Hv)) in Hrun.
  destruct (Inc (mat hv) =? 0) eqn:Hz.
  { replace (0 <? k) with true in Hrun by (symmetry; apply Z.ltb_lt; lia). discriminate. }
  apply Z.eqb_neq in Hz.
  destruct (Z.quot (cap (Data (mat hv)) - 1) (Inc (mat hv)) + 1 <? k) eqn:Hck; [discriminate|].
  apply Z.ltb_ge in Hck.
  rewrite (bind_ok _ _ _ _ _ (getVec_ok _ _ _ Hv)) in Hrun.
  unfold bind, reslice in Hrun.
  destruct ((0 <=? i * Inc (mat hv)) && (i * Inc (mat hv) <=? (k - 1) * Inc (mat hv) + 1)
            && ((k - 1) * Inc (mat hv) + 1 <=? cap (Data (mat hv)))) eqn:Hrs; [|discriminate].
  apply andb_true_iff in Hrs as [Hrs Hr3]. apply Z.leb_le in Hr3.
  cbn in Hrun. inversion Hrun as [[Hw Hs1]]. clear Hrun.
  set (inc := Inc (mat hv)) in *. set (c := cap (Data (mat hv))) in *.
  set (hw := mkVecDense
               (mkBlasVector inc
                  (mkSlice (base (Data (mat hv))) (off (Data (mat hv)) + i * inc)
                     ((k - 1) * inc + 1 - i * inc) (c - i * inc))) (k - i)) in *.
  assert (Hc1 : 1 <= c) by nia.
  assert (Hcw : 1 <= c - i * inc) by nia.
  set (s1' := mkState (arrays s) (vecs s ++ [hw])).
  assert (Hw1 : vecs s1' !! length (vecs s) = Some hw).
  { cbn. rewrite lookup_app_r by lia. now rewrite Nat.sub_diag. }
  assert (Hv1 : vecs s1' !! v = Some hv) by (cbn; now apply lookup_app_l_Some).
  unfold SliceVec.
  replace ((i + i' <? 0) || (i + k' <=? i + i')) with ((i' <? 0) || (k' <=? i')).
  2:{ f_equal.
      - replace (i' <? 0) with false by (symmetry; apply Z.ltb_ge; lia).
        symmetry. apply Z.ltb_ge. lia.
      - destruct (Z.leb_spec k' i'), (Z.leb_spec (i + k') (i + i')); auto; lia. }
  destruct ((i' <? 0) || (k' <=? i')) eqn:Hik'; [reflexivity|].
  apply orb_false_iff in Hik' as [_ Hk']. apply Z.leb_gt in Hk'.
  step (Cap_ptr s1' _ hw Hw1). step (Cap_ptr s1' v hv Hv1).
  cbn [mat Inc Data cap hw]. fold inc c.
  replace (inc =? 0) with false by (symmetry; apply Z.eqb_neq; lia).
  pose proof (quot_cap (c - i * inc) inc k' ltac:(lia) Hcw) as Hq1.
  pose proof (quot_cap c inc (i + k') ltac:(lia) Hc1) as Hq2.
  destruct (Z.ltb_spec (Z.quot (c - i * inc - 1) inc + 1) k') as [Hlt|Hge];
    destruct (Z.ltb_spec (Z.quot (c - 1) inc + 1) (i + k')) as [Hlt2|Hge2];
    try reflexivity; try (exfalso; nia).
  step (getVec_ok _ _ _ Hw1). step (getVec_ok _ _ _ Hv1).
  cbn [mat Inc Data cap off base hw]. fold inc c.
  unfold bind, reslice. cbn [cap off base]. fold c.
  replace ((0 <=? i' * inc) && (i' * inc <=? (k' - 1) * inc + 1)
           && ((k' - 1) * inc + 1 <=? c - i * inc)) with true
    by (symmetry; repeat (apply andb_true_iff; split); apply Z.leb_le; nia).
  replace ((0 <=? (i + i') * inc) && ((i + i') * inc <=? (i + k' - 1) * inc + 1)
           && ((i + k' - 1) * inc + 1 <=? c)) with true
    by (symmetry; repeat (apply andb_true_iff; split); apply Z.leb_le; nia).
  unfold ret, newVec.
  replace (off (Data (mat hv)) + (i + i') * inc)
    with (off (Data (mat hv)) + i * inc + i' * inc) by nia.
  replace ((i + k' - 1) * inc + 1 - (i + i') * inc)
    with ((k' - 1) * inc + 1 - i' * inc) by nia.
  replace (c - (i + i') * inc) with (c - i * inc - i' * inc) by nia.
  replace (i + k' - (i + i')) with (k' - i') by lia.
  reflexivity.
Qed.

(** The view [SliceVec(1, 3)] of [[1, 2, 3, 4]], sliced again beyond its
    length, is the view [SliceVec(2, 4)] of the vector. *)
Lemma SliceVec_compose_witness :
  exists w s1, SliceVec 0%nat 1 3 store_1234 = Ok w s1
               /\ SliceVec w 1 3 s1 = SliceVec 0%nat 2 4 s1.
Proof.
  eexists _, _. split; [reflexivity|].
  apply (SliceVec_compose 0%nat (denseHeader 0 4) 1 3 1 3 _ store_1234);
    [reflexivity|cbn; lia|reflexivity|lia].
Defined.

(** [NewVecDense(len(d), d)] wraps the storage it is given: nothing is
    allocated or copied, the vector reads back as the contents of [d], and
    what is set through the vector is seen in [d]. *)
Theorem NewVecDense_wraps_storage (d : Slice) (l : list f32) (s : State) :
  len d = Z.of_nat (length l) ->
  0 <= off d ->
  (forall k x, l !! k = Some x -> get_cell s (base d) (off d + Z.of_nat k) = Some x) ->
  exists v s', NewVecDense (len d) (Some d) s = Ok v s'
               /\ arrays s' = arrays s
               /\ Len (VecPtr v) s' = Ok (len d) s'
               /\ elements (VecPtr v) s' = Ok l s'
               /\ (forall i x, 0 <= i < len d ->
                     exists s'', VecDense_SetVec v i x s' = Ok tt s''
                                 /\ index d i s'' = Ok x s''
                                 /\ AtVec (VecPtr v) i s'' = Ok x s'').
Proof.
  intros Hlen Hoff Hc. unfold NewVecDense.
  replace (len d <? 0) with false by (symmetry; apply Z.ltb_ge; lia).
  rewrite Z.eqb_refl. cbn [negb]. unfold newVec.
  set (h := mkVecDense (mkBlasVector 1 d) (len d)).
  set (s' := mkState (arrays s) (vecs s ++ [h])).
  exists (length (vecs s)), s'.
  assert (Hv : vecs s' !! length (vecs s) = Some h).
  { cbn. rewrite lookup_app_r by lia. now rewrite Nat.sub_diag. }
  assert (Hr : forall m, 0 <= m < len d -> in_range (Data (mat h)) (m * Inc (mat h)) = true).
  { intros m Hm. unfold in_range. cbn. apply andb_true_iff.
    split; [apply Z.leb_le|apply Z.ltb_lt]; lia. }
  split; [reflexivity|]. split; [reflexivity|].
  split; [exact (Len_ptr s' _ h Hv)|]. split.
  - unfold elements. step (Len_ptr s' _ h Hv). cbn [vn h]. rewrite Hlen, Nat2Z.id.
    rewrite (readFrom_ok _ (nth_val l) (length l) 0 s'); [now rewrite map_nth_val|].
    intros j Hj. apply (AtVec_ptr_cell s' _ h j); [exact Hv|cbn; lia|apply Hr; lia|exact Hoff|].
    unfold cell. cbn [mat Inc Data h]. rewrite Z.mul_1_r.
    replace j with (Z.of_nat (Z.to_nat j)) at 1 by lia.
    apply (Hc (Z.to_nat j)). apply nth_val_lookup. lia.
  - intros i x Hi.
    assert (Hsome : is_Some (get_cell s' (base d) (off d + i * 1))).
    { destruct (lookup_lt_is_Some_2 l (Z.to_nat i) ltac:(lia)) as [y Hy].
      apply Hc in Hy. exists y. rewrite Z.mul_1_r.
      now replace (Z.of_nat (Z.to_nat i)) with i in Hy by lia. }
    destruct (store_get d (i * 1) x s' (Hr i Hi) Hoff Hsome) as (s'' & Hst & Hvs & _ & Hx & _).
    exists s''. split; [|split].
    + unfold VecDense_SetVec. step (getVec_ok _ _ _ Hv). cbn [vn h].
      replace ((i <? 0) || (len d <=? i)) with false
        by (symmetry; apply orb_false_iff; split; [apply Z.ltb_ge|apply Z.leb_gt]; lia).
      unfold setVec. now step (getVec_ok _ _ _ Hv).
    + rewrite Z.mul_1_r in Hx. apply index_get; [|exact Hoff|exact Hx].
      rewrite <- (Z.mul_1_r i). exact (Hr i Hi).
    + apply (AtVec_ptr_cell s'' _ h i); [now rewrite Hvs|cbn; lia|apply Hr; lia|exact Hoff|].
      exact Hx.
Qed.

(** [NewVecDense(2, d)] over [d = [2, -1]]. *)
Lemma NewVecDense_wraps_storage_witness :
  exists v s', NewVecDense 2 (Some (mkSlice 0 0 2 2)) (mkState [[F32.of_Z 2; F32.neg_one]] [])
               = Ok v s'
               /\ arrays s' = [[F32.of_Z 2; F32.neg_one]]
               /\ elements (VecPtr v) s' = Ok [F32.of_Z 2; F32.neg_one] s'.
Proof.
  destruct (NewVecDense_wraps_storage (mkSlice 0 0 2 2) [F32.of_Z 2; F32.neg_one]
              (mkState [[F32.of_Z 2; F32.neg_one]] []))
    as (v & s' & Hrun & Harr & _ & Hel & _).
  - reflexivity.
  - cbn; lia.
  - by_cells.
  - exists v, s'. split; [exact Hrun|]. split; [exact Harr|exact Hel].
Defined.

(** ** Column and row views of a raw matrix *)

Lemma GenMat_At_in (g : blasGeneral) (i j : Z) :
  0 <= i < Rows g -> 0 <= j < Cols g ->
  GenMat_At g i j = index (gen_Data g) (i * Stride g + j).
Proof.
  intros Hi Hj. unfold GenMat_At.
  replace ((i <? 0) || (Rows g <=? i)) with false
    by (symmetry; apply orb_false_iff; split; [apply Z.ltb_ge|apply Z.leb_gt]; lia).
  now replace ((j <? 0) || (Cols g <=? j)) with false
    by (symmetry; apply orb_false_iff; split; [apply Z.ltb_ge|apply Z.leb_gt]; lia).
Qed.

(** A vector whose elements are cells of a matrix reads and writes the
    entries of the matrix. *)
Lemma view_of_matrix s v h rm (pos : Z -> Z) m :
  vecs s !! v = Some h ->
  wf_gen s rm ->
  base (Data (mat h)) = base (gen_Data rm) ->
  0 <= off (Data (mat h)) ->
  0 <= m < vn h ->
  in_range (Data (mat h)) (m * Inc (mat h)) = true ->
  cell h m = off (gen_Data rm) + pos m ->
  in_range (gen_Data rm) (pos m) = true ->
  (exists x, AtVec (VecPtr v) m s = Ok x s /\ index (gen_Data rm) (pos m) s = Ok x s)
  /\ (forall x, exists s'', VecDense_SetVec v m x s = Ok tt s''
                            /\ index (gen_Data rm) (pos m) s'' = Ok x s'').
Proof.
  intros Hv Hwg Hb Ho Hm Hr Hc Hrg.
  pose proof Hwg as [_ _ _ _ Hog Hcap Hcells].
  assert (Hsome : is_Some (get_cell s (base (Data (mat h))) (cell h m))).
  { rewrite Hb, Hc. apply Hcells. unfold in_range in Hrg.
    apply andb_true_iff in Hrg as [H1 H2]. apply Z.leb_le in H1. apply Z.ltb_lt in H2. lia. }
  split.
  - destruct Hsome as [x Hx]. exists x. split.
    + now apply (AtVec_ptr_cell s v h m x).
    + apply index_get; [exact Hrg|exact Hog|]. now rewrite <- Hc, <- Hb.
  - intros x.
    destruct (store_get (Data (mat h)) (m * Inc (mat h)) x s Hr Ho Hsome)
      as (s'' & Hst & Hvs & _ & Hx & _).
    exists s''. split.
    + unfold VecDense_SetVec. step (getVec_ok _ _ _ Hv).
      replace ((m <? 0) || (vn h <=? m)) with false
        by (symmetry; apply orb_false_iff; split; [apply Z.ltb_ge|apply Z.leb_gt]; lia).
      unfold setVec. now step (getVec_ok _ _ _ Hv).
    + apply index_get; [exact Hrg|exact Hog|].
      change (off (Data (mat h)) + m * Inc (mat h)) with (cell h m) in Hx.
      now rewrite <- Hc, <- Hb.
Qed.

(** [v.ColViewOf(m, j)] panics with [ErrColAccess] when [j] is not a column
    of [m], and with [ErrShape] when [v] has a size other than the number of
    rows; the store is left as it was.  Otherwise [v] becomes column [j] of
    [m], on the storage of [m]: nothing is allocated, element [i] of [v] is
    entry [(i, j)] of [m], and setting it sets the entry. *)
Theorem ColViewOf_view v hv rm j s :
  vecs s !! v = Some hv ->
  (j < 0 \/ Cols rm <= j -> ColViewOf v rm j s = Panic ErrColAccess s)
  /\ (0 <= j < Cols rm -> Inc (mat hv) <> 0 -> vn hv <> Rows rm ->
      ColViewOf v rm j s = Panic ErrShape s)
  /\ (0 <= j < Cols rm -> Inc (mat hv) = 0 \/ vn hv = Rows rm -> wf_gen s rm ->
      exists s', ColViewOf v rm j s = Ok tt s'
                 /\ arrays s' = arrays s
                 /\ Len (VecPtr v) s' = Ok (Rows rm) s'
                 /\ (forall i, 0 <= i < Rows rm ->
                       exists x, AtVec (VecPtr v) i s' = Ok x s'
                                 /\ GenMat_At rm i j s' = Ok x s')
                 /\ (forall i x, 0 <= i < Rows rm ->
                       exists s'', VecDense_SetVec v i x s' = Ok tt s''
                                   /\ GenMat_At rm i j s'' = Ok x s'')).
Proof.
  intros Hv.
  assert (Hz : IsZero v s = Ok (Inc (mat hv) =? 0) s)
    by (unfold IsZero; now step (getVec_ok _ _ _ Hv)).
  split; [|split].
  - intros Hj. unfold ColViewOf.
    replace ((Cols rm <=? j) || (j <? 0)) with true; [reflexivity|].
    symmetry. apply orb_true_iff.
    destruct Hj; [right; apply Z.ltb_lt|left; apply Z.leb_le]; lia.
  - intros Hj Hi Hn. unfold ColViewOf.
    replace ((Cols rm <=? j) || (j <? 0)) with false
      by (symmetry; apply orb_false_iff; split; [apply Z.leb_gt|apply Z.ltb_ge]; lia).
    step Hz. step (getVec_ok _ _ _ Hv).
    replace (Inc (mat hv) =? 0) with false by (symmetry; now apply Z.eqb_neq).
    now rewrite neqb_true.
  - intros Hj Hok Hwg. pose proof Hwg as [Hr Hc Hst Hl Hog Hcap Hcells].
    unfold ColViewOf.
    replace ((Cols rm <=? j) || (j <? 0)) with false
      by (symmetry; apply orb_false_iff; split; [apply Z.leb_gt|apply Z.ltb_ge]; lia).
    step Hz. step (getVec_ok _ _ _ Hv).
    replace (negb (Inc (mat hv) =? 0) && negb (vn hv =? Rows rm)) with false.
    2:{ symmetry. apply andb_false_iff. destruct Hok as [H0|Hn]; [left|right].
        - rewrite H0. reflexivity.
        - rewrite Hn, Z.eqb_refl. reflexivity. }
    pose proof (lookup_lt_Some _ _ _ Hv) as Hlt.
    unfold putVec at 1. unfold bind at 1. rewrite Hv.
    unfold reslice.
    replace ((0 <=? j) && (j <=? (Rows rm - 1) * Stride rm + j + 1)
             && ((Rows rm - 1) * Stride rm + j + 1 <=? cap (gen_Data rm))) with true
      by (symmetry; repeat (apply andb_true_iff; split); apply Z.leb_le; nia).
    rewrite bind_ret. unfold putVec. cbn [vecs arrays].
    rewrite list_lookup_insert_eq by exact Hlt.
    set (h := mkVecDense (mkBlasVector (Stride rm) _) (Rows rm)).
    set (s' := mkState (arrays s) _).
    assert (Hv' : vecs s' !! v = Some h).
    { cbn. apply list_lookup_insert_eq. now rewrite length_insert. }
    assert (Hwg' : wf_gen s' rm) by (constructor; auto).
    assert (Hview : forall i, 0 <= i < Rows rm ->
              (exists x, AtVec (VecPtr v) i s' = Ok x s'
                         /\ index (gen_Data rm) (i * Stride rm + j) s' = Ok x s')
              /\ (forall x, exists s'', VecDense_SetVec v i x s' = Ok tt s''
                                        /\ index (gen_Data rm) (i * Stride rm + j) s''
                                           = Ok x s'')).
    { intros i Hi.
      apply (view_of_matrix s' v h rm (fun m => m * Stride rm + j) i Hv' Hwg');
        [reflexivity|cbn; lia|cbn; lia| |unfold cell; cbn; lia|].
      - unfold in_range. cbn. apply andb_true_iff.
        split; [apply Z.leb_le|apply Z.ltb_lt]; nia.
      - unfold in_range. apply andb_true_iff.
        split; [apply Z.leb_le|apply Z.ltb_lt]; nia. }
    exists s'. split; [reflexivity|]. split; [reflexivity|].
    split; [exact (Len_ptr s' v h Hv')|]. split.
    + intros i Hi. rewrite (GenMat_At_in rm i j Hi Hj). apply (Hview i Hi).
    + intros i x Hi. rewrite (GenMat_At_in rm i j Hi Hj). apply (Hview i Hi).
Qed.

(** [v.RowViewOf(m, i)] panics with [ErrRowAccess] when [i] is not a row of
    [m], and with [ErrShape] when [v] has a size other than the number of
    columns; the store is left as it was.  Otherwise [v] becomes row [i] of
    [m], of stride 1, on the storage of [m]: element [k] of [v] is entry
    [(i, k)] of [m], and setting it sets the entry. *)
Theorem RowViewOf_view v hv rm i s :
  vecs s !! v = Some hv ->
  (i < 0 \/ Rows rm <= i -> RowViewOf v rm i s = Panic ErrRowAccess s)
  /\ (0 <= i < Rows rm -> Inc (mat hv) <> 0 -> vn hv <> Cols rm ->
      RowViewOf v rm i s = Panic ErrShape s)
  /\ (0 <= i < Rows rm -> Inc (mat hv) = 0 \/ vn hv = Cols rm -> wf_gen s rm ->
      exists s', RowViewOf v rm i s = Ok tt s'
                 /\ arrays s' = arrays s
                 /\ Len (VecPtr v) s' = Ok (Cols rm) s'
                 /\ (forall k, 0 <= k < Cols rm ->
                       exists x, AtVec (VecPtr v) k s' = Ok x s'
                                 /\ GenMat_At rm i k s' = Ok x s')
                 /\ (forall k x, 0 <= k < Cols rm ->
                       exists s'', VecDense_SetVec v k x s' = Ok tt s''
                                   /\ GenMat_At rm i k s'' = Ok x s'')).
Proof.
  intros Hv.
  assert (Hz : IsZero v s = Ok (Inc (mat hv) =? 0) s)
    by (unfold IsZero; now step (getVec_ok _ _ _ Hv)).
  split; [|split].
  - intros Hi. unfold RowViewOf.
    replace ((Rows rm <=? i) || (i <? 0)) with true; [reflexivity|].
    symmetry. apply orb_true_iff.
    destruct Hi; [right; apply Z.ltb_lt|left; apply Z.leb_le]; lia.
  - intros Hi Hinc Hn. unfold RowViewOf.
    replace ((Rows rm <=? i) || (i <? 0)) with false
      by (symmetry; apply orb_false_iff; split; [apply Z.leb_gt|apply Z.ltb_ge]; lia).
    step Hz. step (getVec_ok _ _ _ Hv).
    replace (Inc (mat hv) =? 0) with false by (symmetry; now apply Z.eqb_neq).
    now rewrite neqb_true.
  - intros Hi Hok Hwg. pose proof Hwg as [Hr Hc Hst Hl Hog Hcap Hcells].
    unfold RowViewOf.
    replace ((Rows rm <=? i) || (i <? 0)) with false
      by (symmetry; apply orb_false_iff; split; [apply Z.leb_gt|apply Z.ltb_ge]; lia).
    step Hz. step (getVec_ok _ _ _ Hv).
    replace (negb (Inc (mat hv) =? 0) && negb (vn hv =? Cols rm)) with false.
    2:{ symmetry. apply andb_false_iff. destruct Hok as [H0|Hn]; [left|right].
        - rewrite H0. reflexivity.
        - rewrite Hn, Z.eqb_refl. reflexivity. }
    pose proof (lookup_lt_Some _ _ _ Hv) as Hlt.
    unfold putVec at 1. unfold bind at 1. rewrite Hv.
    unfold reslice.
    replace ((0 <=? i * Stride rm) && (i * Stride rm <=? i * Stride rm + Cols rm)
             && (i * Stride rm + Cols rm <=? cap (gen_Data rm))) with true
      by (symmetry; repeat (apply andb_true_iff; split); apply Z.leb_le; nia).
    rewrite bind_ret. unfold putVec. cbn [vecs arrays].
    rewrite list_lookup_insert_eq by exact Hlt.
    set (h := mkVecDense (mkBlasVector 1 _) (Cols rm)).
    set (s' := mkState (arrays s) _).
    assert (Hv' : vecs s' !! v = Some h).
    { cbn. apply list_lookup_insert_eq. now rewrite length_insert. }
    assert (Hwg' : wf_gen s' rm) by (constructor; auto).
    assert (Hview : forall k, 0 <= k < Cols rm ->
              (exists x, AtVec (VecPtr v) k s' = Ok x s'
                         /\ index (gen_Data rm) (i * Stride rm + k) s' = Ok x s')
              /\ (forall x, exists s'', VecDense_SetVec v k x s' = Ok tt s''
                                        /\ index (gen_Data rm) (i * Stride rm + k) s''
                                           = Ok x s'')).
    { intros k Hk.
      apply (view_of_matrix s' v h rm (fun m => i * Stride rm + m) k Hv' Hwg');
        [reflexivity|cbn; nia|cbn; lia| |unfold cell; cbn; lia|].
      - unfold in_range. cbn. apply andb_true_iff.
        split; [apply Z.leb_le|apply Z.ltb_lt]; nia.
      - unfold in_range. apply andb_true_iff.
        split; [apply Z.leb_le|apply Z.ltb_lt]; nia. }
    exists s'. split; [reflexivity|]. split; [reflexivity|].
    split; [exact (Len_ptr s' v h Hv')|]. split.
    + intros k Hk. rewrite (GenMat_At_in rm i k Hi Hk). apply (Hview k Hk).
    + intros k x Hk. rewrite (GenMat_At_in rm i k Hi Hk). apply (Hview k Hk).
Qed.

Lemma wf_gen_store_matrix : wf_gen store_matrix matrix_8181.
Proof.
  constructor; cbn; try lia.
  intros p Hp. unfold get_cell.
  replace (p <? 0) with false by (symmetry; apply Z.ltb_ge; lia).
  cbn. apply lookup_lt_is_Some_2. cbn. lia.
Qed.

(** The second column, [[1, 1]], and the second row, [[8, 1]], of the matrix
    with rows [8 1] and [8 1]; a column that is not there. *)
Lemma ColViewOf_view_witness :
  ColViewOf 0%nat matrix_8181 2 store_matrix = Panic ErrColAccess store_matrix
  /\ exists s', ColViewOf 0%nat matrix_8181 1 store_matrix = Ok tt s'
                /\ Len (VecPtr 0%nat) s' = Ok 2 s'.
Proof.
  destruct (ColViewOf_view 0%nat zeroVecDense matrix_8181 2 store_matrix eq_refl)
    as (Herr & _ & _).
  split; [apply Herr; right; cbn; lia|].
  destruct (ColViewOf_view 0%nat zeroVecDense matrix_8181 1 store_matrix eq_refl)
    as (_ & _ & Hok).
  destruct Hok as (s' & Hrun & _ & Hlen & _);
    [cbn; lia|now left|exact wf_gen_store_matrix|].
  exists s'. split; [exact Hrun|exact Hlen].
Defined.

Lemma RowViewOf_view_witness :
  RowViewOf 0%nat matrix_8181 (-1) store_matrix = Panic ErrRowAccess store_matrix
  /\ exists s', RowViewOf 0%nat matrix_8181 1 store_matrix = Ok tt s'
                /\ Len (VecPtr 0%nat) s' = Ok 2 s'.
Proof.
  destruct (RowViewOf_view 0%nat zeroVecDense matrix_8181 (-1) store_matrix eq_refl)
    as (Herr & _ & _).
  split; [apply Herr; left; lia|].
  destruct (RowViewOf_view 0%nat zeroVecDense matrix_8181 1 store_matrix eq_refl)
    as (_ & _ & Hok).
  destruct Hok as (s' & Hrun & _ & Hlen & _);
    [cbn; lia|now left|exact wf_gen_store_matrix|].
  exists s'. split; [exact Hrun|exact Hlen].
Defined.

(** ** VecDenseCopyOf *)

(** Vectors hold what they held in a store that has grown. *)
Lemma holds_grow s s1 a l :
  (forall q h, vecs s !! q = Some h -> vecs s1 !! q = Some h) ->
  (forall b p, (b < length (arrays s))%nat -> get_cell s1 b p = get_cell s b p) ->
  holds s a l -> holds s1 a l.
Proof.
  intros Hq Hc. induction a as [q|x IH|vals]; cbn [holds]; [|exact IH|auto].
  intros (h & Hh & Hwf & Hn & Hcells).
  pose proof (wf_base_lt _ _ Hwf) as Hlt.
  exists h. split; [now apply Hq|]. split.
  - destruct Hwf as [? ? ? ? ? Hcs]. constructor; auto.
    intros p Hp. rewrite Hc by exact Hlt. now apply Hcs.
  - split; [exact Hn|]. intros k x Hk. rewrite Hc by exact Hlt. now apply Hcells.
Qed.

(** ... and share no cell with a vector on a backing array that is new. *)
Lemma fresh_apart s s1 hv a l :
  (forall q h, vecs s !! q = Some h -> vecs s1 !! q = Some h) ->
  (length (arrays s) <= base (Data (mat hv)))%nat ->
  holds s a l ->
  apart s1 hv a /\ reads_ahead s1 hv a.
Proof.
  intros Hq Hb. induction a as [q|x IH|vals]; cbn [holds apart reads_ahead]; [|exact IH|auto].
  intros (h & Hh & Hwf & _). pose proof (wf_base_lt _ _ Hwf) as Hlt.
  split; exists h; (split; [now apply Hq|left; lia]).
Qed.

(** A pointer that is new is none of the operands. *)
Lemma is_ptr_fresh s a l : holds s a l -> is_ptr (length (vecs s)) a = false.
Proof.
  destruct a as [q|x|vals]; cbn; auto.
  intros (h & Hh & _). apply lookup_lt_Some in Hh. apply Nat.eqb_neq. lia.
Qed.

(** A write on another backing array leaves a vector as it was. *)
Lemma holds_write_other s0 s s' a l bd :
  holds s0 a l ->
  (forall q h, vecs s0 !! q = Some h -> vecs s !! q = Some h) ->
  holds s a l ->
  (length (arrays s0) <= bd)%nat ->
  vecs s' = vecs s ->
  (forall b p, b <> bd -> get_cell s' b p = get_cell s b p) ->
  holds s' a l.
Proof.
  intros H0 Hq Hh Hb Hv Hc.
  induction a as [q|x IH|vals]; cbn [holds] in *; [|auto|auto].
  destruct H0 as (h0 & Hh0 & Hwf0 & _). pose proof (wf_base_lt _ _ Hwf0) as Hlt.
  destruct Hh as (h & Hqh & Hwf & Hn & Hcells).
  assert (h = h0) by (apply Hq in Hh0; congruence). subst h0.
  exists h. split; [now rewrite Hv|]. split.
  - destruct Hwf as [? ? ? ? ? Hcs]. constructor; auto.
    intros p Hp. rewrite Hc by lia. now apply Hcs.
  - split; [exact Hn|]. intros k x Hk. rewrite Hc by lia. now apply Hcells.
Qed.

Lemma SetVec_after s0 v hv val k s x :
  vecs s0 !! v = Some hv ->
  wf_vec s0 hv ->
  after_writes s0 (base (Data (mat hv))) (cell hv) val k s ->
  0 <= k < vn hv ->
  exists s2, VecDense_SetVec v k x s = Ok tt s2
             /\ is_Some (get_cell s (base (Data (mat hv))) (cell hv k))
             /\ vecs s2 = vecs s
             /\ get_cell s2 (base (Data (mat hv))) (cell hv k) = Some x
             /\ (forall b p, b <> base (Data (mat hv)) \/ p <> cell hv k ->
                   get_cell s2 b p = get_cell s b p).
Proof.
  intros Hv Hwf HR Hk. unfold VecDense_SetVec.
  assert (Hg : getVec v s = Ok hv s).
  { apply getVec_ok. destruct HR as (Hvs & _). now rewrite Hvs. }
  step Hg.
  replace ((k <? 0) || (vn hv <=? k)) with false
    by (symmetry; apply orb_false_iff; split; [apply Z.ltb_ge|apply Z.leb_gt]; lia).
  now apply (setVec_after s0 v hv val k s x).
Qed.

(** [VecDenseCopyOf(a)] returns a new vector, of stride 1 on a backing array
    of its own, that holds the elements of [a]; [a] holds what it held, and
    keeps it when the copy is written. *)
Theorem VecDenseCopyOf_copy (a : Vector) (l : list f32) (s : State) :
  holds s a l ->
  l <> [] ->
  exists v s', VecDenseCopyOf a s = Ok v s'
               /\ vecs s !! v = None
               /\ elements (VecPtr v) s' = Ok l s'
               /\ elements a s' = Ok l s'
               /\ (forall i x, 0 <= i < Z.of_nat (length l) ->
                     exists s'', VecDense_SetVec v i x s' = Ok tt s''
                                 /\ AtVec (VecPtr v) i s'' = Ok x s''
                                 /\ elements a s'' = Ok l s'').
Proof.
  intros Hh Hl. pose proof (length_pos_Z l Hl) as Hn.
  set (n := Z.of_nat (length l)) in *.
  set (v := length (vecs s)). set (h1 := denseHeader (length (arrays s)) n).
  set (sA := mkState (arrays s) (vecs s ++ [zeroVecDense])).
  set (s1 := mkState (arrays s ++ [replicate (Z.to_nat n) F32.zero])
               (<[v := h1]> (<[v := mkVecDense (mat zeroVecDense) n]>
                                (vecs s ++ [zeroVecDense])))).
  assert (HvA : vecs sA !! v = Some zeroVecDense).
  { cbn. unfold v. rewrite lookup_app_r by lia. now rewrite Nat.sub_diag. }
  assert (HhA : holds sA a l).
  { apply (holds_grow s sA a l); [|reflexivity|exact Hh].
    intros q h Hqh. cbn. now apply lookup_app_l_Some. }
  assert (Hpre : forall k : unit -> M unit,
            (CloneVec v a ;; ret v) sA
            = (match rawVectorer a with
               | Some pa => let* amat := RawVector pa in
                            blas_Copy n amat (mkBlasVector 1 (Data (mat h1)))
               | None => for_range n (fun i =>
                           let* x := AtVec a i in VecDense_SetVec v i x)
               end ;; ret v) s1).
  { intros _. unfold CloneVec.
    assert (Hp : is_ptr v a = false) by exact (is_ptr_fresh s a l Hh). rewrite Hp.
    unfold bind at 1. unfold bind at 1. rewrite (Len_holds _ _ _ HhA). fold n.
    unfold bind at 1. rewrite (getVec_ok _ _ _ HvA).
    unfold bind at 1. unfold putVec at 1. rewrite HvA.
    unfold bind at 1. unfold use, make. cbn [arrays vecs].
    replace (n <? 0) with false by (symmetry; apply Z.ltb_ge; lia).
    unfold bind at 1. unfold putVec at 1. cbn [arrays vecs].
    rewrite list_lookup_insert_eq by exact (lookup_lt_Some _ _ _ HvA).
    reflexivity. }
  unfold VecDenseCopyOf. unfold bind at 1. unfold newVec at 1. fold sA v.
  rewrite (Hpre (fun _ => ret tt)). clear Hpre.
  assert (Hq : forall q h, vecs s !! q = Some h -> vecs s1 !! q = Some h).
  { intros q h Hqh. pose proof (lookup_lt_Some _ _ _ Hqh) as Hlt. cbn.
    rewrite !list_lookup_insert_ne by (unfold v; lia). now apply lookup_app_l_Some. }
  assert (Hc : forall b p, (b < length (arrays s))%nat -> get_cell s1 b p = get_cell s b p).
  { intros b p Hb. unfold get_cell. cbn [arrays s1]. now rewrite lookup_app_l by exact Hb. }
  assert (Hv1 : vecs s1 !! v = Some h1).
  { cbn. apply list_lookup_insert_eq. rewrite length_insert, length_app. cbn. unfold v. lia. }
  assert (Hwf1 : wf_vec s1 h1).
  { apply (wf_denseHeader s1 _ n (replicate (Z.to_nat n) F32.zero)); [lia| |].
    - cbn. rewrite lookup_app_r by lia. now rewrite Nat.sub_diag.
    - rewrite length_replicate. lia. }
  pose proof (holds_grow s s1 a l Hq Hc Hh) as Hh1.
  destruct (fresh_apart s s1 h1 a l Hq ltac:(cbn; lia) Hh) as [Hap Hra].
  assert (exists s', match rawVectorer a with
                     | Some pa => let* amat := RawVector pa in
                                  blas_Copy n amat (mkBlasVector 1 (Data (mat h1)))
                     | None => for_range n (fun i =>
                                 let* x := AtVec a i in VecDense_SetVec v i x)
                     end s1 = Ok tt s'
            /\ after_writes s1 (base (Data (mat h1))) (cell h1) (fun i => nth_val l i) n s')
    as (s' & Hrun & HR).
  { destruct a as [q|x|vals]; cbn [rawVectorer].
    - pose proof Hh1 as (h & Hqh & Hwf & Hvn & _).
      unfold RawVector. unfold bind at 1. unfold bind at 1.
      rewrite (getVec_ok _ _ _ Hqh). cbn [ret]. unfold blas_Copy. cbn [Inc Data].
      apply (fill_loop1 (fun i => index (Data (mat h)) (i * Inc (mat h)))
               (fun i x => store (Data (mat h1)) (i * 1) x) (fun x => x)
               s1 h1 (nth_val l) n Hwf1 eq_refl).
      + intros k s2 Hk HR. apply (raw_read_after s1 h1 _ k s2 q h l _ Hqh Hh1 Hra HR); [lia|nia].
      + intros k s2 x Hk HR. apply (store_after s1 h1 _ k s2 _ x Hwf1 HR); [cbn; lia|reflexivity].
    - apply (fill_loop1 (fun i => AtVec (TransposeVec x) i) (fun i y => VecDense_SetVec v i y)
               (fun y => y) s1 h1 (nth_val l) n Hwf1 eq_refl).
      + intros k s2 Hk HR. apply (AtVec_after s1 h1 _ k s2 _ l Hh1 Hra HR); lia.
      + intros k s2 y Hk HR. apply (SetVec_after s1 v h1 _ k s2 y Hv1 Hwf1 HR). cbn; lia.
    - apply (fill_loop1 (fun i => AtVec (OtherVec vals) i) (fun i y => VecDense_SetVec v i y)
               (fun y => y) s1 h1 (nth_val l) n Hwf1 eq_refl).
      + intros k s2 Hk HR. apply (AtVec_after s1 h1 _ k s2 _ l Hh1 Hra HR); lia.
      + intros k s2 y Hk HR. apply (SetVec_after s1 v h1 _ k s2 y Hv1 Hwf1 HR). cbn; lia. }
  exists v, s'. split; [now step Hrun|].
  split; [apply lookup_ge_None; unfold v; lia|].
  assert (Hh' : holds s' a l)
    by (apply (holds_after_apart s1 h1 _ n s' a l Hh1 Hap HR); cbn; lia).
  split.
  { rewrite (elements_after s1 v h1 _ s' Hv1 Hwf1) by exact HR.
    cbn [vn h1 denseHeader]. unfold n. now rewrite map_nth_val. }
  split; [now apply elements_holds|].
  intros i x Hi.
  pose proof (wf_after _ _ _ _ _ _ _ HR Hwf1) as Hwf'.
  assert (Hv' : vecs s' !! v = Some h1) by (destruct HR as (Hvs & _); now rewrite Hvs).
  assert (Hr : in_range (Data (mat h1)) (i * Inc (mat h1)) = true)
    by (apply (wf_in_range s' h1 i Hwf'); cbn; lia).
  destruct (store_get (Data (mat h1)) (i * Inc (mat h1)) x s' Hr ltac:(cbn; lia))
    as (s'' & Hst & Hvs & _ & Hx & Hfr).
  { apply (wf_cell_some s' h1 i Hwf'). cbn; lia. }
  exists s''. split; [|split].
  - unfold VecDense_SetVec. step (getVec_ok _ _ _ Hv'). cbn [vn h1 denseHeader].
    replace ((i <? 0) || (n <=? i)) with false
      by (symmetry; apply orb_false_iff; split; [apply Z.ltb_ge|apply Z.leb_gt]; lia).
    unfold setVec. now step (getVec_ok _ _ _ Hv').
  - apply (AtVec_ptr_cell s'' v h1 i x); [now rewrite Hvs|cbn; lia|exact Hr|cbn; lia|exact Hx].
  - apply elements_holds.
    apply (holds_write_other s s' s'' a l (length (arrays s)) Hh);
      [|exact Hh'|lia|exact Hvs|].
    + intros q h Hqh. destruct HR as (Hvs' & _). rewrite Hvs'. now apply Hq.
    + intros b p Hb. apply Hfr. left. exact Hb.
Qed.

(** [VecDenseCopyOf] of [[2, -1]]. *)
Lemma VecDenseCopyOf_copy_witness :
  exists v s', VecDenseCopyOf (VecPtr 0%nat) store_2_m1 = Ok v s'
               /\ elements (VecPtr v) s' = Ok [F32.of_Z 2; F32.neg_one] s'
               /\ elements (VecPtr 0%nat) s' = Ok [F32.of_Z 2; F32.neg_one] s'.
Proof.
  destruct (VecDenseCopyOf_copy (VecPtr 0%nat) [F32.of_Z 2; F32.neg_one] store_2_m1
              holds_store_2_m1 ltac:(discriminate)) as (v & s' & Hrun & _ & Hel & Hea & _).
  exists v, s'. split; [exact Hrun|]. split; [exact Hel|exact Hea].
Defined.

(** ** MulVec of a transposed vector: the dot product *)

Lemma raw_read_holds s q h l j :
  vecs s !! q = Some h ->
  holds s (VecPtr q) l ->
  0 <= j < Z.of_nat (length l) ->
  index (Data (mat h)) (j * Inc (mat h)) s = Ok (nth_val l j) s.
Proof.
  intros Hq (h' & Hq' & Hwf & Hn & Hc) Hj. assert (h' = h) by congruence. subst h'.
  apply index_get.
  - eapply wf_in_range; eauto. lia.
  - apply Hwf.
  - change (off (Data (mat h)) + j * Inc (mat h)) with (cell h j).
    replace j with (Z.of_nat (Z.to_nat j)) at 1 by lia.
    apply Hc. apply nth_val_lookup. lia.
Qed.

Lemma fold_range_ext {A} (g g' : Z -> A -> A) (m : nat) (k : Z) (acc : A) :
  (forall j x, k <= j < k + Z.of_nat m -> g j x = g' j x) ->
  fold_range m k acc g = fold_range m k acc g'.
Proof.
  revert k acc. induction m as [|m IH]; intros k acc H; [reflexivity|].
  cbn [fold_range]. rewrite (H k acc) by lia. apply IH. intros j x Hj. apply H. lia.
Qed.

(** Setting the one element of a vector of length 1. *)
Lemma write_single s1 v h1 d :
  vecs s1 !! v = Some h1 ->
  wf_vec s1 h1 ->
  vn h1 = 1 ->
  exists s2, setVec v 0 d s1 = Ok tt s2 /\ elements (VecPtr v) s2 = Ok [d] s2.
Proof.
  intros Hv Hwf Hvn.
  destruct (setVec_after s1 v h1 (fun _ => d) 0 s1 d Hv Hwf (after_writes_start _ _ _ _))
    as (s2 & Hset & Hsome & Hvs & Hx & Hfr); [lia|].
  exists s2. split; [exact Hset|].
  assert (HR : after_writes s1 (base (Data (mat h1))) (cell h1) (fun _ => d) (vn h1) s2).
  { rewrite Hvn. change 1 with (0 + 1).
    apply (after_writes_next s1 _ _ _ 0 s1 s2); auto; try lia.
    apply after_writes_start. }
  rewrite (elements_after s1 v h1 _ s2 Hv Hwf HR). now rewrite Hvn.
Qed.



(** ** CopyVec *)

(** [v.CopyVec(a)] copies the first [min(len(v), len(a))] elements of [a]
    into [v] and returns that number: the elements of [v] beyond it, the
    length of [v] and the vector [a] are left as they were. *)
Theorem CopyVec_prefix (v : ptr) hv lv a la s :
  vecs s !! v = Some hv ->
  holds s (VecPtr v) lv ->
  holds s a la ->
  is_ptr v a = false ->
  apart s hv a ->
  exists s', CopyVec v a s = Ok (Z.min (Z.of_nat (length lv)) (Z.of_nat (length la))) s'
             /\ Len (VecPtr v) s' = Ok (Z.of_nat (length lv)) s'
             /\ (forall j, 0 <= j < Z.of_nat (length lv) ->
                   AtVec (VecPtr v) j s'
                   = Ok (if j <? Z.of_nat (length la) then nth_val la j else nth_val lv j) s')
             /\ elements a s' = Ok la s'.
Proof.
  intros Hv Hhv Hha Hp Hap.
  pose proof Hhv as (h & Hq & Hwf & Hvn & Hc). assert (h = hv) by congruence. subst h.
  set (n := Z.min (Z.of_nat (length lv)) (Z.of_nat (length la))).
  assert (Hn : 0 <= n <= vn hv) by (unfold n; lia).
  unfold CopyVec.
  assert (HL : VecDense_Len v s = Ok (Z.of_nat (length lv)) s).
  { unfold VecDense_Len. step (getVec_ok _ _ _ Hv). now rewrite Hvn. }
  step HL. step (Len_holds _ _ _ Hha). fold n. rewrite Hp.
  assert (exists s',
    match rawVectorer a with
    | Some pa =>
        let* amat := RawVector pa in
        let* h := getVec v in blas_Copy n amat (mat h);; ret n
    | None => for_range n (fun i => let* x := AtVec a i in setVec v i x);; ret n
    end s = Ok n s'
    /\ after_writes s (base (Data (mat hv))) (cell hv) (nth_val la) n s')
    as (s' & Hrun & HR).
  { assert (Hfill : forall (rd : Z -> M f32) (wr : Z -> f32 -> M unit),
      (forall k s1, 0 <= k < n ->
         after_writes s (base (Data (mat hv))) (cell hv) (nth_val la) k s1 ->
         rd k s1 = Ok (nth_val la k) s1) ->
      (forall k s1 x, 0 <= k < n ->
         after_writes s (base (Data (mat hv))) (cell hv) (nth_val la) k s1 ->
         exists s2, wr k x s1 = Ok tt s2
                    /\ is_Some (get_cell s1 (base (Data (mat hv))) (cell hv k))
                    /\ vecs s2 = vecs s1
                    /\ get_cell s2 (base (Data (mat hv))) (cell hv k) = Some x
                    /\ (forall b p, b <> base (Data (mat hv)) \/ p <> cell hv k ->
                          get_cell s2 b p = get_cell s1 b p)) ->
      exists s', for_range n (fun i => let* x := rd i in wr i x) s = Ok tt s'
                 /\ after_writes s (base (Data (mat hv))) (cell hv) (nth_val la) n s').
    { intros rd wr Hrd Hwr. apply for_range_writes; [lia| |].
      - intros i j Hij Hj. apply cell_inj; [apply Hwf|lia].
      - intros i s1 Hi HR. step (Hrd i s1 Hi HR). now apply Hwr. }
    destruct a as [q|x|vals]; cbn [rawVectorer].
    - pose proof Hha as (h & Hqh & _).
      unfold RawVector. unfold bind at 1. unfold bind at 1.
      rewrite (getVec_ok _ _ _ Hqh). cbn [ret]. step (getVec_ok _ _ _ Hv).
      destruct (Hfill (fun i => index (Data (mat h)) (i * Inc (mat h)))
                  (fun i x => store (Data (mat hv)) (i * Inc (mat hv)) x))
        as (s' & Hrun & HR).
      + intros k s1 Hk HR.
        apply (raw_read_apart s hv _ k s1 q h la k _ Hqh Hha Hap HR); [lia|unfold n in Hk; lia|reflexivity].
      + intros k s1 x Hk HR. apply (store_after s hv _ k s1 _ x Hwf HR); [lia|reflexivity].
      + exists s'. split; [|exact HR]. unfold blas_Copy. now step Hrun.
    - destruct (Hfill (fun i => AtVec (TransposeVec x) i) (fun i y => setVec v i y))
        as (s' & Hrun & HR).
      + intros k s1 Hk HR.
        apply (AtVec_apart s hv _ k s1 _ la k Hha Hap HR); [lia|unfold n in Hk; lia].
      + intros k s1 y Hk HR. apply (setVec_after s v hv _ k s1 y Hv Hwf HR). lia.
      + exists s'. split; [|exact HR]. now step Hrun.
    - destruct (Hfill (fun i => AtVec (OtherVec vals) i) (fun i y => setVec v i y))
        as (s' & Hrun & HR).
      + intros k s1 Hk HR.
        apply (AtVec_apart s hv _ k s1 _ la k Hha Hap HR); [lia|unfold n in Hk; lia].
      + intros k s1 y Hk HR. apply (setVec_after s v hv _ k s1 y Hv Hwf HR). lia.
      + exists s'. split; [|exact HR]. now step Hrun. }
  exists s'. split; [exact Hrun|].
  pose proof (holds_after_apart s hv _ n s' a la Hha Hap HR ltac:(lia)) as Hha'.
  destruct HR as (Hvs & Hw & Hf & _).
  assert (Hv' : vecs s' !! v = Some hv) by now rewrite Hvs.
  split; [rewrite <- Hvn; exact (Len_ptr s' v hv Hv')|].
  split; [|now apply elements_holds].
  intros j Hj.
  apply (AtVec_ptr_cell s' v hv j); [exact Hv'|lia| |apply Hwf|].
  - apply (wf_in_range s hv j Hwf). lia.
  - destruct (Z.ltb_spec j (Z.of_nat (length la))) as [Hlt|Hge].
    + apply Hw. unfold n. lia.
    + rewrite Hf.
      * replace j with (Z.of_nat (Z.to_nat j)) at 1 by lia.
        apply Hc. apply nth_val_lookup. lia.
      * right. intros j' Hj'. apply cell_inj; [apply Hwf|unfold n in Hj'; lia].
Qed.

(** [v.CopyVec(a)] for [v = [1, 2, 3]] and [a = [2, 2]] copies two
    elements. *)
Lemma CopyVec_prefix_witness :
  exists s', CopyVec 0%nat (VecPtr 1%nat) store_123_22 = Ok 2 s'
             /\ AtVec (VecPtr 0%nat) 1 s' = Ok (F32.of_Z 2) s'
             /\ AtVec (VecPtr 0%nat) 2 s' = Ok (F32.of_Z 3) s'.
Proof.
  destruct (CopyVec_prefix 0%nat (denseHeader 0 3) (map F32.of_Z [1; 2; 3])
              (VecPtr 1%nat) (map F32.of_Z [2; 2]) store_123_22) as (s' & Hrun & _ & Hat & _).
  - reflexivity.
  - eapply holds_dense; [reflexivity|reflexivity|reflexivity|discriminate|auto].
  - eapply holds_dense; [reflexivity|reflexivity|reflexivity|discriminate|auto].
  - reflexivity.
  - exists (denseHeader 1 2). split; [reflexivity|left; cbn; lia].
  - exists s'. split; [exact Hrun|].
    split; [exact (Hat 1 ltac:(cbn; lia))|exact (Hat 2 ltac:(cbn; lia))].
Defined.

(** ** Transposed vector operands *)

(** A vector wrapped in a [TransposeVec] has the length and the elements of
    the vector, and unwraps to it: the element-wise operations, and
    [AddScaledVec] for a factor other than 0, treat the wrapped operand as
    the vector itself, in either position, when it is not the receiver.  (For
    the factor 0 the copy goes element by element in place of the copy
    kernel.) *)
Theorem TransposeVec_operand (X : Extern) (v q : ptr) (c : Vector) (alpha : f32) (s : State) :
  q <> v ->
  let t := TransposeVec (VecPtr q) in
  let a := VecPtr q in
  AddVec X v t c s = AddVec X v a c s
  /\ AddVec X v c t s = AddVec X v c a s
  /\ SubVec X v t c s = SubVec X v a c s
  /\ SubVec X v c t s = SubVec X v c a s
  /\ MulElemVec X v t c s = MulElemVec X v a c s
  /\ MulElemVec X v c t s = MulElemVec X v c a s
  /\ DivElemVec X v t c s = DivElemVec X v a c s
  /\ DivElemVec X v c t s = DivElemVec X v c a s
  /\ (F32.eqb alpha F32.zero = false ->
      AddScaledVec X v t alpha c s = AddScaledVec X v a alpha c s
      /\ AddScaledVec X v c alpha t s = AddScaledVec X v c alpha a s).
Proof.
  intros Hne t a.
  assert (Hp : Nat.eqb v q = false) by (apply Nat.eqb_neq; congruence).
  assert (HE : forall g fast,
            elementwise X g fast v t c s = elementwise X g fast v a c s).
  { intros g fast. unfold elementwise, elementwise_body, t, a.
    cbn [Len untranspose is_ptr rawVectorer AtVec]. now rewrite Hp. }
  assert (HE' : forall g fast,
            elementwise X g fast v c t s = elementwise X g fast v c a s).
  { intros g fast. unfold elementwise, elementwise_body, t, a.
    cbn [Len untranspose is_ptr rawVectorer AtVec]. now rewrite Hp. }
  assert (HA : AddVec X v t c s = AddVec X v a c s)
    by (rewrite !AddVec_elementwise; apply HE).
  assert (HA' : AddVec X v c t s = AddVec X v c a s)
    by (rewrite !AddVec_elementwise; apply HE').
  assert (HS : SubVec X v t c s = SubVec X v a c s)
    by (rewrite !SubVec_elementwise; apply HE).
  assert (HS' : SubVec X v c t s = SubVec X v c a s)
    by (rewrite !SubVec_elementwise; apply HE').
  split; [exact HA|]. split; [exact HA'|]. split; [exact HS|]. split; [exact HS'|].
  split; [rewrite !MulElemVec_elementwise; apply HE|].
  split; [rewrite !MulElemVec_elementwise; apply HE'|].
  split.
  { rewrite !DivElemVec_elementwise.
    change (div_fast v t c) with (div_fast v a c). apply HE. }
  split.
  { rewrite !DivElemVec_elementwise.
    change (div_fast v c t) with (div_fast v c a). apply HE'. }
  intros H0. split.
  - unfold AddScaledVec.
    destruct (F32.eqb alpha F32.one); [exact HA|].
    destruct (F32.eqb alpha F32.neg_one); [exact HS|].
    unfold rawOperand, t, a. cbn [Len untranspose is_ptr rawVectorer AtVec].
    now rewrite Hp, H0.
  - unfold AddScaledVec.
    destruct (F32.eqb alpha F32.one); [exact HA'|].
    destruct (F32.eqb alpha F32.neg_one); [exact HS'|].
    unfold rawOperand, t, a. cbn [Len untranspose is_ptr rawVectorer AtVec].
    now rewrite Hp, H0.
Qed.

(** [TransposeVec_operand] on [a = [2, -1]] wrapped, [b = [1, 1]] and a
    zero-size receiver. *)
Lemma TransposeVec_operand_witness :
  AddVec plainExtern 2%nat (TransposeVec (VecPtr 0%nat)) (VecPtr 1%nat) store_axpy
  = AddVec plainExtern 2%nat (VecPtr 0%nat) (VecPtr 1%nat) store_axpy
  /\ DivElemVec plainExtern 2%nat (VecPtr 1%nat) (TransposeVec (VecPtr 0%nat)) store_axpy
     = DivElemVec plainExtern 2%nat (VecPtr 1%nat) (VecPtr 0%nat) store_axpy.
Proof.
  destruct (TransposeVec_operand plainExtern 2%nat 0%nat (VecPtr 1%nat) (F32.of_Z 2)
              store_axpy ltac:(lia)) as (H1 & _ & _ & _ & _ & _ & _ & H8 & _).
  split; [exact H1|exact H8].
Defined.

(** ** MulVec of a column vector and a vector of length 1 *)

(** [MulVec] of a column vector [a] of length [n], as an [n]x1 matrix, and a
    vector [b = [x]] of length 1 is [ScaleVec(x, a)]: the receiver gets
    [x * a[i]]. *)
Theorem MulVec_column (X : Extern) v hv q la b x s :
  vecs s !! v = Some hv ->
  holds s (VecPtr q) la ->
  holds s b [x] ->
  (2 <= length la)%nat ->
  Dims b s = Ok (1, 1) s ->
  fits s hv (VecPtr q) (Z.of_nat (length la)) ->
  fits s hv b (Z.of_nat (length la)) ->
  operand_checked X s v hv b ->
  check_passes X s (sized s hv (Z.of_nat (length la))) (VecPtr q) ->
  exists s', MulVec X v (MatVec (VecPtr q)) b s = Ok tt s'
             /\ elements (VecPtr v) s' = Ok (map (F32.mul x) la) s'.
Proof.
  intros Hv Hha Hhb Hn Hdb Hfa Hfb Hcb Hca.
  set (n := Z.of_nat (length la)) in *.
  assert (Hl : la <> []) by (destruct la; [cbn in Hn; lia|discriminate]).
  assert (Hnot : forall c lc, holds s c lc -> fits s hv c n ->
            (Z.of_nat (length lc) = n -> False) \/ lc = la -> is_ptr v c = false).
  { intros c lc Hc Hfit Hcase. destruct (is_ptr v c) eqn:Hp; [|reflexivity].
    apply is_ptr_true in Hp. subst c. destruct Hc as (h & Hq & Hwf & Hvn & _).
    assert (h = hv) by congruence. subst h.
    destruct Hfit as [Hz|(_ & Hone & (h' & Hq' & Hap))]; [destruct Hwf; lia|].
    destruct Hcase as [Hne | Heq]; [lia|subst lc].
    assert (h' = hv) by congruence. subst h'.
    destruct Hap as [Hb|Hap]; [congruence|].
    exfalso. apply (Hap 0 0); destruct Hwf; lia. }
  pose proof (Hnot (VecPtr q) la Hha Hfa (or_intror eq_refl)) as Hpa.
  assert (Hpb : is_ptr v b = false).
  { apply (Hnot b [x] Hhb Hfb). left. cbn. unfold n. lia. }
  pose proof Hha as (ha & Hqa & Hwfa & Hvna & _).
  assert (HM : MDims (MatVec (VecPtr q)) s = Ok (n, 1) s).
  { cbn [MDims]. rewrite (Dims_ptr s q ha Hqa ltac:(destruct Hwfa; lia)). now rewrite Hvna. }
  unfold MulVec. step HM. step Hdb.
  change (1 =? 1) with true. cbn [negb orb]. cbv iota.
  cbn [untransposeM].
  destruct (rawOperand_ok X s v hv b [x] Hv Hhb Hcb) as (bm & Hbm).
  step Hbm.
  assert (Hsz : Inc (mat hv) = 0 \/ (wf_vec s hv /\ vn hv = n)).
  { destruct Hfa as [Hz|(Hwf & Hvn & _)]; [now left|now right]. }
  destruct (reuseAs_sized v hv n s Hv ltac:(unfold n; lia) Hsz) as (s1 & Hre & Hrs).
  step Hre. cbn [is_ptrM]. rewrite Hpa, Hpb.
  pose proof (holds_resized _ _ _ _ _ _ _ Hv Hrs Hha) as Hha1.
  pose proof (holds_resized _ _ _ _ _ _ _ Hv Hrs Hhb) as Hhb1.
  pose proof (apart_resized _ _ _ _ _ _ _ Hv Hrs Hha Hfa) as Hap1.
  pose proof Hrs as (Hv1 & Hwf1 & Hvn1 & _).
  set (h1 := sized s hv n) in *.
  unfold MulVec_dispatch. step (Len_holds _ _ _ Hhb1).
  change (Z.of_nat (length [x]) =? 1) with true. cbv iota.
  step (AtVec_holds s1 b [x] 0 Hhb1 ltac:(cbn; lia)).
  change (nth_val [x] 0) with x.
  assert (Hs1 : sized s1 h1 n = h1).
  { unfold sized. destruct Hwf1 as [Hi _ _ _ _ _].
    now replace (Inc (mat h1) =? 0) with false by (symmetry; apply Z.eqb_neq; lia). }
  apply (ScaleVec_spec X v h1 (VecPtr q) la x s1 Hv1 Hha1 Hl).
  right. split; [exact Hpa|]. split.
  - right. split; [exact Hwf1|]. split; [exact Hvn1|exact Hap1].
  - fold n. rewrite Hs1. intros q' h' Hq' Hh'. cbn in Hq'. inversion Hq'; subst q'.
    apply (Hca q h' eq_refl).
    exact (header_resized _ _ _ _ _ _ _ _ Hv Hrs Hha Hh').
Qed.

(** The column [[2, -1]] times [[3]]. *)
Lemma MulVec_column_witness :
  exists s', MulVec plainExtern 2%nat (MatVec (VecPtr 0%nat)) (VecPtr 1%nat)
               store_column_scalar = Ok tt s'
             /\ elements (VecPtr 2%nat) s' = Ok [F32.of_Z 6; F32.of_Z (-3)] s'.
Proof.
  destruct (MulVec_column plainExtern 2%nat zeroVecDense 0%nat [F32.of_Z 2; F32.neg_one]
              (VecPtr 1%nat) (F32.of_Z 3) store_column_scalar) as (s' & Hrun & Hel).
  - reflexivity.
  - eapply holds_dense; [reflexivity|reflexivity|reflexivity|discriminate|auto].
  - eapply holds_dense; [reflexivity|reflexivity|reflexivity|discriminate|auto].
  - cbn; lia.
  - reflexivity.
  - now left.
  - now left.
  - right. by_lookup.
  - by_lookup.
  - exists s'. split; [exact Hrun|exact Hel].
Defined.
